(** * generate_app_icons.py: the UrGood icon renderer and its batch driver

    A shallow embedding of [generate_app_icons.py].  The script draws one
    icon with Pillow at a requested pixel size and writes it, for a fixed
    list of sizes, into the Xcode asset catalogue.

    - Python [int] is [Z]; [//] is [Z.div] (floor division).
    - Python [float] is IEEE 754 binary64, taken from the Standard Library's
      reference implementation [SpecFloat] with [prec = 53], [emax = 1024]
      (round to nearest, ties to even).
    - An exception is a value of [exn]; code that may raise returns a
      [result].
    - A Pillow image is its mode, its size and the list of drawing calls
      made on it, in call order.  Pillow's rasteriser is not part of the
      script and is not modelled; memory is taken to suffice for every
      image Pillow agrees to create.
    - The renderer is given twice: as a function from the size to the
      image, and on objects in the interpreter's memory, which the drawing
      calls change in place.  The two are proved to agree.
    - The driver runs in a state monad over a [world]: the directories that
      exist, which paths accept a write and what error the others give, the
      files written and the trace of what was printed and called. *)

From Stdlib Require Import ZArith List String Bool Lia FinFun.
From Stdlib Require Import SpecFloat DecimalString.
Import ListNotations.
Local Open Scope Z_scope.

(** ** Exceptions and the error monad *)

Inductive exn : Type :=
| ValueError (msg : string)
| OverflowError (msg : string)
| ZeroDivisionError (msg : string)
| MemoryError (msg : string)
| OSError (msg : string).

(** [str(e)] *)
Definition exn_str (e : exn) : string :=
  match e with
  | ValueError m | OverflowError m | ZeroDivisionError m | MemoryError m
  | OSError m => m
  end.

Inductive result (A : Type) : Type :=
| Ok (a : A)
| Raise (e : exn).
Arguments Ok {A} a.
Arguments Raise {A} e.

Definition rbind {A B} (r : result A) (k : A -> result B) : result B :=
  match r with
  | Ok a => k a
  | Raise e => Raise e
  end.

Declare Scope py_scope.
Delimit Scope py_scope with py.
Notation "x <- c ;; k" := (rbind c (fun x => k))
  (at level 61, c at next level, right associativity) : py_scope.
Notation "c ;;; k" := (rbind c (fun _ => k))
  (at level 61, right associativity) : py_scope.

(** ** Python floats *)

Module PyFloat.

Definition float := spec_float.
Definition prec : Z := 53.
Definition emax : Z := 1024.

(** [float(n)] for an int [n]; an int too large for a double becomes an
    infinity here and is reported by the next [int()]. *)
Definition of_int (n : Z) : float := binary_normalize prec emax n 0 false.

Definition fmul : float -> float -> float := SFmul prec emax.
Definition fadd : float -> float -> float := SFadd prec emax.
Definition fsub : float -> float -> float := SFsub prec emax.
Definition fdiv : float -> float -> float := SFdiv prec emax.

(** [a / b] on two ints: true division.  For operands below [2^53] in
    magnitude, which both convert exactly, CPython's correctly rounded
    quotient is the binary64 quotient of the converted operands. *)
Definition truediv (a b : Z) : result float :=
  if b =? 0 then Raise (ZeroDivisionError "division by zero")
  else Ok (fdiv (of_int a) (of_int b)).

(** [int(x)]: truncation toward zero. *)
Definition to_int (x : float) : result Z :=
  match x with
  | S754_zero _ => Ok 0
  | S754_finite s m e =>
      let a := Z.shiftl (Zpos m) e in
      Ok (if s then - a else a)
  | S754_infinity _ =>
      Raise (OverflowError "cannot convert float infinity to integer")
  | S754_nan => Raise (ValueError "cannot convert float NaN to integer")
  end.

(** The decimal literals of the script, each the double nearest to the
    decimal fraction. *)
Definition lit (num den : Z) : float := fdiv (of_int num) (of_int den).
Definition f0_25 : float := S754_finite false 4503599627370496 (-54).
Definition f0_2 : float := S754_finite false 7205759403792794 (-55).
Definition f0_3 : float := S754_finite false 5404319552844595 (-54).
Definition f0_4 : float := S754_finite false 7205759403792794 (-54).
Definition f0_8 : float := S754_finite false 7205759403792794 (-53).

(** The double nearest to [z * 2^(-j)]: that number itself when [z] has at
    most 53 bits. *)
Definition dyadic (z j : Z) : float := binary_normalize prec emax z (- j) false.

Definition fsign (x : float) : bool :=
  match x with
  | S754_zero s | S754_infinity s | S754_finite s _ _ => s
  | S754_nan => false
  end.

(** Zero, and the normal numbers with an exponent between [lo] and [hi]:
    the floats the renderer meets.  The operations below map such floats
    to such floats, with explicit bounds. *)
Definition nice (lo hi : Z) (x : float) : Prop :=
  match x with
  | S754_zero _ => True
  | S754_finite _ m e => Zpos (digits2_pos m) = 53 /\ lo <= e <= hi
  | _ => False
  end.

End PyFloat.

Import PyFloat.

(** ** Pillow images

    [Image.new], [ImageDraw.Draw(img).<shape>] and [Image.paste] as far as
    the script depends on them: the mode, the size, the arguments of each
    call in call order, and the argument checks that make a call raise. *)

Inductive mode : Type := RGB | RGBA.

Definition has_alpha (m : mode) : bool :=
  match m with RGBA => true | RGB => false end.

Definition point : Type := (Z * Z)%type.

(** A fill or pixel value: a 3-tuple or a 4-tuple of ints. *)
Inductive color : Type :=
| rgb (r g b : Z)
| rgba (r g b a : Z).

Definition red (c : color) : Z := match c with rgb r _ _ | rgba r _ _ _ => r end.
Definition green (c : color) : Z := match c with rgb _ g _ | rgba _ g _ _ => g end.
Definition blue (c : color) : Z := match c with rgb _ _ b | rgba _ _ b _ => b end.

Inductive shape : Type :=
| rounded_rectangle (xy0 xy1 : point) (radius : Z) (fill : color)
| polygon (xy : list point) (fill : color)
| ellipse (xy0 xy1 : point) (fill : color)
| line (xy0 xy1 : point) (fill : color).

Inductive Image : Type :=
| mkImage (im_mode : mode) (im_size : Z * Z) (im_color : color) (im_calls : list call)
with call : Type :=
| Draw (s : shape)
| Paste (src : Image) (box : point) (mask : Image).

Definition im_mode (im : Image) : mode := let '(mkImage m _ _ _) := im in m.
Definition im_size (im : Image) : Z * Z := let '(mkImage _ s _ _) := im in s.
Definition im_color (im : Image) : color := let '(mkImage _ _ c _) := im in c.
Definition im_calls (im : Image) : list call := let '(mkImage _ _ _ cs) := im in cs.

Definition record_call (im : Image) (c : call) : Image :=
  let '(mkImage m s col cs) := im in mkImage m s col (cs ++ [c]).

(** Image dimensions are C ints in the imaging core, and reach it through
    a C long (64 bits here). *)
Definition INT_MAX : Z := 2147483647.
Definition INT_MIN : Z := -2147483648.
Definition LONG_MAX : Z := 9223372036854775807.
Definition LONG_MIN : Z := -9223372036854775808.

(** The widest line the imaging core allocates: [(INT_MAX / 4) - 1]
    pixels, so that a line of four bytes a pixel fits a C int. *)
Definition MAX_DIM : Z := INT_MAX / 4 - 1.

(** A Python int passed where the core expects a C int. *)
Definition c_int (n : Z) : result Z :=
  if (LONG_MAX <? n) || (n <? LONG_MIN) then
    Raise (OverflowError "Python int too large to convert to C long")
  else if INT_MAX <? n then
    Raise (OverflowError "signed integer is greater than maximum")
  else if n <? INT_MIN then
    Raise (OverflowError "signed integer is less than minimum")
  else Ok n.

(** [Image.new(mode, size, color)]: the size check of [Image.new], the
    conversion of both dimensions to C ints, and the width check of the
    core, which refuses a width above [MAX_DIM] with a bare [MemoryError]
    before it allocates.  The allocation itself is not modelled: every
    size these checks let through is allocated. *)
Definition Image_new (m : mode) (size : Z * Z) (c : color) : result Image :=
  let '(w, h) := size in
  if (w <? 0) || (h <? 0) then
    Raise (ValueError "Width and height must be >= 0")
  else
    match c_int w with
    | Raise e => Raise e
    | Ok _ =>
        match c_int h with
        | Raise e => Raise e
        | Ok _ =>
            if MAX_DIM <? w then Raise (MemoryError "")
            else Ok (mkImage m size c [])
        end
    end.

Definition check_box (xy0 xy1 : point) : result unit :=
  if fst xy1 <? fst xy0 then
    Raise (ValueError "x1 must be greater than or equal to x0")
  else if snd xy1 <? snd xy0 then
    Raise (ValueError "y1 must be greater than or equal to y0")
  else Ok tt.

Local Open Scope py_scope.

(** [draw.rounded_rectangle([xy0, xy1], radius=..., fill=...)] *)
Definition draw_rounded_rectangle (im : Image) (xy0 xy1 : point) (radius : Z)
    (fill : color) : result Image :=
  check_box xy0 xy1 ;;;
  Ok (record_call im (Draw (rounded_rectangle xy0 xy1 radius fill))).

(** [draw.polygon([...], fill=...)] *)
Definition draw_polygon (im : Image) (xy : list point) (fill : color) : result Image :=
  Ok (record_call im (Draw (polygon xy fill))).

(** [draw.ellipse([xy0, xy1], fill=...)] *)
Definition draw_ellipse (im : Image) (xy0 xy1 : point) (fill : color) : result Image :=
  check_box xy0 xy1 ;;;
  Ok (record_call im (Draw (ellipse xy0 xy1 fill))).

(** [draw.line([xy0, xy1], fill=...)] *)
Definition draw_line (im : Image) (xy0 xy1 : point) (fill : color) : result Image :=
  Ok (record_call im (Draw (line xy0 xy1 fill))).

(** [im.paste(src, box, mask)]: the destination keeps its mode and size. *)
Definition Image_paste (im src : Image) (box : point) (mask : Image) : result Image :=
  if negb ((fst (im_size src) =? fst (im_size mask))
           && (snd (im_size src) =? snd (im_size mask))) then
    Raise (ValueError "images do not match")
  else Ok (record_call im (Paste src box mask)).

(** ** The renderer: [draw_urgood_icon] *)

(* Colors - from brand guidelines *)
Definition sky_blue : color := rgb 77 166 255.
Definition sky_blue_light : color := rgb 102 178 255.
Definition peach : color := rgb 255 185 151.
Definition white : color := rgb 255 255 255.

(** [int(k * scale)] *)
Definition scaled (k : Z) (scale : float) : result Z :=
  to_int (fmul (of_int k) scale).

(** [int(n * f)] for an int [n] and a float literal [f] *)
Definition frac (n : Z) (f : float) : result Z :=
  to_int (fmul (of_int n) f).

(** The local variables of [draw_urgood_icon] once the shapes are drawn. *)
Record locals : Type := mkLocals {
  bubble_size : Z;
  bubble_x : Z;
  bubble_y : Z;
  shadow_offset : Z;
  tail_size : Z;
  tail_x : Z;
  tail_y : Z;
  sparkle_center_x : Z;
  sparkle_center_y : Z;
  sparkle_size : Z;
  point_length : Z;
  point_width : Z;
  small_sparkle : Z;
  small_width : Z;
  dot_distance : Z;
  dot_size : Z;
  accent_positions : list point
}.

(** [for x, y in accent_positions: draw.ellipse(...)] *)
Fixpoint draw_accents (img : Image) (dot_size : Z) (positions : list point)
    : result Image :=
  match positions with
  | [] => Ok img
  | (x, y) :: rest =>
      img <- draw_ellipse img (x - dot_size, y - dot_size)
                              (x + dot_size, y + dot_size)
                              (rgba 255 255 255 200) ;;
      draw_accents img dot_size rest
  end.

(** Lines 20 to 123: the transparent layer with shadow, bubble, tail,
    sparkle and accent dots.  Returns the layer together with the locals. *)
Definition draw_layer (size : Z) : result (Image * locals) :=
  img <- Image_new RGBA (size, size) (rgba 0 0 0 0) ;;
  scale <- truediv size 1024 ;;
  bubble_size <- scaled 700 scale ;;
  let bubble_x := (size - bubble_size) / 2 in
  bubble_y <- to_int (fsub (of_int ((size - bubble_size) / 2))
                           (fmul (of_int 40) scale)) ;;
  shadow_offset <- scaled 8 scale ;;
  radius <- frac bubble_size f0_25 ;;
  img <- draw_rounded_rectangle img
           (bubble_x + shadow_offset, bubble_y + shadow_offset)
           (bubble_x + bubble_size + shadow_offset,
            bubble_y + bubble_size + shadow_offset)
           radius (rgba 0 0 0 30) ;;
  radius <- frac bubble_size f0_25 ;;
  img <- draw_rounded_rectangle img
           (bubble_x, bubble_y)
           (bubble_x + bubble_size, bubble_y + bubble_size)
           radius sky_blue ;;
  tail_size <- scaled 60 scale ;;
  tail_inset <- frac bubble_size f0_2 ;;
  let tail_x := bubble_x + tail_inset in
  let tail_y := bubble_y + bubble_size in
  img <- draw_polygon img
           [ (tail_x, tail_y);
             (tail_x + tail_size, tail_y);
             (tail_x + tail_size / 2, tail_y + tail_size) ] sky_blue ;;
  let sparkle_center_x := bubble_x + bubble_size / 2 in
  let sparkle_center_y := bubble_y + bubble_size / 2 in
  sparkle_size <- scaled 200 scale ;;
  let point_length := sparkle_size / 2 in
  point_width <- frac sparkle_size f0_3 ;;
  img <- draw_polygon img
           [ (sparkle_center_x, sparkle_center_y - point_length);
             (sparkle_center_x + point_width / 2, sparkle_center_y);
             (sparkle_center_x, sparkle_center_y + point_length);
             (sparkle_center_x - point_width / 2, sparkle_center_y) ] peach ;;
  img <- draw_polygon img
           [ (sparkle_center_x - point_length, sparkle_center_y);
             (sparkle_center_x, sparkle_center_y - point_width / 2);
             (sparkle_center_x + point_length, sparkle_center_y);
             (sparkle_center_x, sparkle_center_y + point_width / 2) ] peach ;;
  small_sparkle <- frac sparkle_size f0_4 ;;
  small_width <- frac small_sparkle f0_3 ;;
  img <- draw_polygon img
           [ (sparkle_center_x, sparkle_center_y - small_sparkle / 2);
             (sparkle_center_x + small_width / 2, sparkle_center_y);
             (sparkle_center_x, sparkle_center_y + small_sparkle / 2);
             (sparkle_center_x - small_width / 2, sparkle_center_y) ] white ;;
  img <- draw_polygon img
           [ (sparkle_center_x - small_sparkle / 2, sparkle_center_y);
             (sparkle_center_x, sparkle_center_y - small_width / 2);
             (sparkle_center_x + small_sparkle / 2, sparkle_center_y);
             (sparkle_center_x, sparkle_center_y + small_width / 2) ] white ;;
  dot_distance <- frac sparkle_size f0_8 ;;
  dot_size <- scaled 20 scale ;;
  let accent_positions :=
    [ (sparkle_center_x + dot_distance, sparkle_center_y - dot_distance);
      (sparkle_center_x - dot_distance, sparkle_center_y - dot_distance);
      (sparkle_center_x + dot_distance, sparkle_center_y + dot_distance) ] in
  img <- draw_accents img dot_size accent_positions ;;
  Ok (img,
      mkLocals bubble_size bubble_x bubble_y shadow_offset tail_size tail_x
        tail_y sparkle_center_x sparkle_center_y sparkle_size point_length
        point_width small_sparkle small_width dot_distance dot_size
        accent_positions).

(** One channel of the background at a scanline:
    [int(light * (1 - ratio) + dark * ratio)] *)
Definition gradient_channel (light dark : Z) (ratio : float) : result Z :=
  to_int (fadd (fmul (of_int light) (fsub (of_int 1) ratio))
               (fmul (of_int dark) ratio)).

(** The body of the gradient loop up to the color of row [y]. *)
Definition gradient_color (size y : Z) : result color :=
  ratio <- truediv y size ;;
  r <- gradient_channel (red sky_blue_light) (red sky_blue) ratio ;;
  g <- gradient_channel (green sky_blue_light) (green sky_blue) ratio ;;
  b <- gradient_channel (blue sky_blue_light) (blue sky_blue) ratio ;;
  Ok (rgb r g b).

(** [range(n)] *)
Definition range (n : Z) : list Z := map Z.of_nat (seq 0 (Z.to_nat n)).

(** [for y in <ys>: ... final_draw.line([(0, y), (size, y)], fill=(r, g, b))] *)
Fixpoint gradient_rows (size : Z) (ys : list Z) (final_img : Image)
    : result Image :=
  match ys with
  | [] => Ok final_img
  | y :: rest =>
      c <- gradient_color size y ;;
      final_img <- draw_line final_img (0, y) (size, y) c ;;
      gradient_rows size rest final_img
  end.

Definition draw_urgood_icon (size : Z) : result Image :=
  layer <- draw_layer size ;;
  let img := fst layer in
  final_img <- Image_new RGB (size, size) (rgb 0 0 0) ;;
  final_img <- gradient_rows size (range size) final_img ;;
  final_img <- Image_paste final_img img (0, 0) img ;;
  Ok final_img.

(** ** The renderer on objects

    In Python an image is an object: [Image.new] allocates one, a drawing
    handle [ImageDraw.Draw(img)] refers to the image it was made for, and
    [draw.polygon(...)], [final_draw.line(...)] and [final_img.paste(...)]
    change the object they are called on.  Here is [draw_urgood_icon] with
    the objects where Python has them, in the memory of the interpreter; a
    call may find any objects there. *)

Definition ref : Type := nat.

Record heap : Type := mkHeap {
  next : ref;                        (* the address of the next new object *)
  obj : ref -> Image                 (* the object at an address *)
}.

(** Code that allocates and changes objects, and may raise. *)
Definition mem (A : Type) : Type := heap -> result A * heap.

Definition mret {A} (a : A) : mem A := fun h => (Ok a, h).

Definition mbind {A B} (c : mem A) (k : A -> mem B) : mem B :=
  fun h =>
    match c h with
    | (Ok a, h') => k a h'
    | (Raise e, h') => (Raise e, h')
    end.

Declare Scope mem_scope.
Delimit Scope mem_scope with mem.
Notation "x <- c ;; k" := (mbind c (fun x => k))
  (at level 61, c at next level, right associativity) : mem_scope.
Notation "c ;;; k" := (mbind c (fun _ => k))
  (at level 61, right associativity) : mem_scope.

(** A value computed without touching an object. *)
Definition value {A} (r : result A) : mem A := fun h => (r, h).

Definition allocate (im : Image) : mem ref :=
  fun h =>
    (Ok (next h),
     mkHeap (S (next h)) (fun r => if Nat.eqb r (next h) then im else obj h r)).

Definition store (r : ref) (im : Image) (h : heap) : heap :=
  mkHeap (next h) (fun r' => if Nat.eqb r' r then im else obj h r').

(** A method that changes the object it is called on, unless it raises. *)
Definition in_place (r : ref) (method : Image -> result Image) : mem unit :=
  fun h =>
    match method (obj h r) with
    | Ok im => (Ok tt, store r im h)
    | Raise e => (Raise e, h)
    end.

Local Open Scope mem_scope.

Definition Image_new_at (m : mode) (size : Z * Z) (c : color) : mem ref :=
  im <- value (Image_new m size c) ;;
  allocate im.

(** [ImageDraw.Draw(img)]: a handle on [img] itself, not on a copy. *)
Definition ImageDraw_Draw (img : ref) : mem ref := mret img.

Definition rounded_rectangle_at (draw : ref) (xy0 xy1 : point) (radius : Z)
    (fill : color) : mem unit :=
  in_place draw (fun im => draw_rounded_rectangle im xy0 xy1 radius fill).

Definition polygon_at (draw : ref) (xy : list point) (fill : color) : mem unit :=
  in_place draw (fun im => draw_polygon im xy fill).

Definition ellipse_at (draw : ref) (xy0 xy1 : point) (fill : color) : mem unit :=
  in_place draw (fun im => draw_ellipse im xy0 xy1 fill).

Definition line_at (draw : ref) (xy0 xy1 : point) (fill : color) : mem unit :=
  in_place draw (fun im => draw_line im xy0 xy1 fill).

(** [im.paste(src, box, mask)] reads [src] and [mask] as they are at the
    call. *)
Definition paste_at (im src : ref) (box : point) (mask : ref) : mem unit :=
  fun h => in_place im (fun dst => Image_paste dst (obj h src) box (obj h mask)) h.

(** [for x, y in accent_positions: draw.ellipse(...)] *)
Fixpoint accents_at (draw : ref) (dot_size : Z) (positions : list point)
    : mem unit :=
  match positions with
  | [] => mret tt
  | (x, y) :: rest =>
      ellipse_at draw (x - dot_size, y - dot_size) (x + dot_size, y + dot_size)
        (rgba 255 255 255 200) ;;;
      accents_at draw dot_size rest
  end.

(** Lines 20 to 123; returns [img]. *)
Definition draw_layer_at (size : Z) : mem ref :=
  img <- Image_new_at RGBA (size, size) (rgba 0 0 0 0) ;;
  draw <- ImageDraw_Draw img ;;
  scale <- value (truediv size 1024) ;;
  bubble_size <- value (scaled 700 scale) ;;
  let bubble_x := (size - bubble_size) / 2 in
  bubble_y <- value (to_int (fsub (of_int ((size - bubble_size) / 2))
                                  (fmul (of_int 40) scale))) ;;
  shadow_offset <- value (scaled 8 scale) ;;
  radius <- value (frac bubble_size f0_25) ;;
  rounded_rectangle_at draw
    (bubble_x + shadow_offset, bubble_y + shadow_offset)
    (bubble_x + bubble_size + shadow_offset,
     bubble_y + bubble_size + shadow_offset)
    radius (rgba 0 0 0 30) ;;;
  radius <- value (frac bubble_size f0_25) ;;
  rounded_rectangle_at draw
    (bubble_x, bubble_y)
    (bubble_x + bubble_size, bubble_y + bubble_size)
    radius sky_blue ;;;
  tail_size <- value (scaled 60 scale) ;;
  tail_inset <- value (frac bubble_size f0_2) ;;
  let tail_x := bubble_x + tail_inset in
  let tail_y := bubble_y + bubble_size in
  polygon_at draw
    [ (tail_x, tail_y);
      (tail_x + tail_size, tail_y);
      (tail_x + tail_size / 2, tail_y + tail_size) ] sky_blue ;;;
  let sparkle_center_x := bubble_x + bubble_size / 2 in
  let sparkle_center_y := bubble_y + bubble_size / 2 in
  sparkle_size <- value (scaled 200 scale) ;;
  let point_length := sparkle_size / 2 in
  point_width <- value (frac sparkle_size f0_3) ;;
  polygon_at draw
    [ (sparkle_center_x, sparkle_center_y - point_length);
      (sparkle_center_x + point_width / 2, sparkle_center_y);
      (sparkle_center_x, sparkle_center_y + point_length);
      (sparkle_center_x - point_width / 2, sparkle_center_y) ] peach ;;;
  polygon_at draw
    [ (sparkle_center_x - point_length, sparkle_center_y);
      (sparkle_center_x, sparkle_center_y - point_width / 2);
      (sparkle_center_x + point_length, sparkle_center_y);
      (sparkle_center_x, sparkle_center_y + point_width / 2) ] peach ;;;
  small_sparkle <- value (frac sparkle_size f0_4) ;;
  small_width <- value (frac small_sparkle f0_3) ;;
  polygon_at draw
    [ (sparkle_center_x, sparkle_center_y - small_sparkle / 2);
      (sparkle_center_x + small_width / 2, sparkle_center_y);
      (sparkle_center_x, sparkle_center_y + small_sparkle / 2);
      (sparkle_center_x - small_width / 2, sparkle_center_y) ] white ;;;
  polygon_at draw
    [ (sparkle_center_x - small_sparkle / 2, sparkle_center_y);
      (sparkle_center_x, sparkle_center_y - small_width / 2);
      (sparkle_center_x + small_sparkle / 2, sparkle_center_y);
      (sparkle_center_x, sparkle_center_y + small_width / 2) ] white ;;;
  dot_distance <- value (frac sparkle_size f0_8) ;;
  dot_size <- value (scaled 20 scale) ;;
  let accent_positions :=
    [ (sparkle_center_x + dot_distance, sparkle_center_y - dot_distance);
      (sparkle_center_x - dot_distance, sparkle_center_y - dot_distance);
      (sparkle_center_x + dot_distance, sparkle_center_y + dot_distance) ] in
  accents_at draw dot_size accent_positions ;;;
  mret img.

(** [for y in <ys>: ... final_draw.line([(0, y), (size, y)], fill=(r, g, b))] *)
Fixpoint gradient_rows_at (size : Z) (ys : list Z) (final_draw : ref)
    : mem unit :=
  match ys with
  | [] => mret tt
  | y :: rest =>
      c <- value (gradient_color size y) ;;
      line_at final_draw (0, y) (size, y) c ;;;
      gradient_rows_at size rest final_draw
  end.

Definition draw_urgood_icon_at (size : Z) : mem ref :=
  img <- draw_layer_at size ;;
  final_img <- Image_new_at RGB (size, size) (rgb 0 0 0) ;;
  final_draw <- ImageDraw_Draw final_img ;;
  gradient_rows_at size (range size) final_draw ;;;
  paste_at final_img img (0, 0) img ;;;
  mret final_img.

Local Close Scope mem_scope.

(** [h'] still has every object of [h], as it was. *)
Definition preserves (h h' : heap) : Prop :=
  (next h <= next h')%nat /\ forall r, (r < next h)%nat -> obj h' r = obj h r.

(** A memory without objects. *)
Definition empty_heap : heap :=
  mkHeap 0%nat (fun _ => mkImage RGB (0, 0) (rgb 0 0 0) []).

(** ** The process: console, file system and exit status *)

Inductive event : Type :=
| Print (text : string)              (* print(text) *)
| PrintExc (e : exn)                 (* traceback.print_exc() *)
| Drawn (size : Z)                   (* draw_urgood_icon(size) was entered *)
| Save (path : string) (format : string) (im : Image).
                                     (* im.save(path, format, quality=95) was entered *)

Record world : Type := mkWorld {
  script_dir : string;               (* Path(__file__).parent *)
  pillow_installed : bool;           (* whether [from PIL import ...] succeeds *)
  path_exists : string -> bool;
  accepts_write : string -> bool;    (* whether a file can be written at the path *)
  write_error : string -> string;    (* str(e) of the OSError raised where it cannot *)
  empty_image_error : string;        (* str(e) of the encoder's ValueError *)
  files : list (string * Image);     (* files written by this run, oldest first *)
  trace : list event
}.

Inductive outcome (A : Type) : Type :=
| Done (a : A)
| Raised (e : exn)                   (* an exception is propagating *)
| Exited (code : Z).                 (* exit(code) *)
Arguments Done {A} a.
Arguments Raised {A} e.
Arguments Exited {A} code.

Definition prog (A : Type) : Type := world -> outcome A * world.

Definition ret {A} (a : A) : prog A := fun w => (Done a, w).

Definition bind {A B} (c : prog A) (k : A -> prog B) : prog B :=
  fun w =>
    match c w with
    | (Done a, w') => k a w'
    | (Raised e, w') => (Raised e, w')
    | (Exited n, w') => (Exited n, w')
    end.

Declare Scope prog_scope.
Delimit Scope prog_scope with prog.
Notation "x <- c ;; k" := (bind c (fun x => k))
  (at level 61, c at next level, right associativity) : prog_scope.
Notation "c ;;; k" := (bind c (fun _ => k))
  (at level 61, right associativity) : prog_scope.

Definition gets {A} (f : world -> A) : prog A := fun w => (Done (f w), w).

Definition emit (ev : event) : prog unit :=
  fun w =>
    (Done tt,
     mkWorld (script_dir w) (pillow_installed w) (path_exists w)
       (accepts_write w) (write_error w) (empty_image_error w) (files w)
       (trace w ++ [ev])).

Definition print (text : string) : prog unit := emit (Print text).

Definition exit {A} (code : Z) : prog A := fun w => (Exited code, w).

(** A result of pure code, raised or returned in the process. *)
Definition lift {A} (r : result A) : prog A :=
  fun w => match r with Ok a => (Done a, w) | Raise e => (Raised e, w) end.

(** [try: body except Exception as e: handler(e)].  [exit] is not an
    [Exception] and passes through. *)
Definition try_except {A} (body : prog A) (handler : exn -> prog A) : prog A :=
  fun w =>
    match body w with
    | (Raised e, w') => handler e w'
    | other => other
    end.

Local Open Scope prog_scope.

(** [for x in xs: body(x)] *)
Fixpoint for_each {A} (xs : list A) (body : A -> prog unit) : prog unit :=
  match xs with
  | [] => ret tt
  | x :: rest => body x ;;; for_each rest body
  end.

(** An image without pixels. *)
Definition is_empty (img : Image) : bool :=
  (fst (im_size img) =? 0) || (snd (im_size img) =? 0).

(** [img.save(path, format, quality=95)].  The file is opened for
    writing, which the file system may refuse with an [OSError] or one of
    its subclasses; its text depends on the cause and the path and is the
    world's to give.  The encoder then
    refuses an image without pixels with a [ValueError], whose text is
    Pillow's and is left to the world as well, and the file just created
    is removed again.  Otherwise the file is created or replaced
    and holds the image. *)
Definition Image_save (img : Image) (path format : string) : prog unit :=
  emit (Save path format img) ;;;
  fun w =>
    if accepts_write w path then
      if is_empty img then
        (Raised (ValueError (empty_image_error w)), w)
      else
        (Done tt,
         mkWorld (script_dir w) (pillow_installed w) (path_exists w)
           (accepts_write w) (write_error w) (empty_image_error w)
           (files w ++ [(path, img)]) (trace w))
    else (Raised (OSError (write_error w path)), w).

Local Close Scope prog_scope.
Local Open Scope string_scope.

(** [str(n)] for an int *)
Definition str_int (n : Z) : string := NilZero.string_of_int (Z.to_int n).

Definition newline : string := String (Ascii.ascii_of_nat 10) EmptyString.

Definition slash : Ascii.ascii := Ascii.ascii_of_nat 47.

(** Whether a path ends in a slash; of the paths [pathlib] prints only the
    roots do. *)
Fixpoint ends_with_slash (a : string) : bool :=
  match a with
  | EmptyString => false
  | String c EmptyString => Ascii.eqb c slash
  | String _ rest => ends_with_slash rest
  end.

(** What [str(a / b)] puts before a relative path [b]: nothing when [a] is
    the current directory, which [pathlib] prints as a dot; [a] itself when
    it is a root; [a] and a slash otherwise. *)
Definition path_prefix (a : string) : string :=
  if String.eqb a "." then ""
  else if ends_with_slash a then a
  else a ++ "/".

(** [a / b] on paths, as strings: for a path [a] as [pathlib] prints it and
    a relative path [b] in normal form, as all of the script's are. *)
Definition joinpath (a b : string) : string := path_prefix a ++ b.

Local Open Scope prog_scope.

(** ** The driver: [generate_icon], [main] and the module body *)

Definition generate_icon (output_path : string) (size : Z) : prog unit :=
  print ("  Generating " ++ str_int size ++ "x" ++ str_int size ++ "px -> "
         ++ output_path) ;;;
  emit (Drawn size) ;;;
  img <- lift (draw_urgood_icon size) ;;
  Image_save img output_path "PNG".

Definition ios_sizes : list (string * Z) :=
  [ ("app_icon_1024.png", 1024) ].

Definition mac_sizes : list (string * Z) :=
  [ ("app_icon_16.png", 16);
    ("app_icon_16@2x.png", 32);
    ("app_icon_32.png", 32);
    ("app_icon_32@2x.png", 64);
    ("app_icon_128.png", 128);
    ("app_icon_128@2x.png", 256);
    ("app_icon_256.png", 256);
    ("app_icon_256@2x.png", 512);
    ("app_icon_512.png", 512);
    ("app_icon_512@2x.png", 1024) ].

Definition all_sizes : list (string * Z) := ios_sizes ++ mac_sizes.

Definition icon_dir_of (script_dir : string) : string :=
  joinpath script_dir "urgood/urgood/Assets.xcassets/AppIcon.appiconset".

(** The body of [for filename, size in ...] with its [try]/[except]. *)
Definition generate_or_report (icon_dir : string) (entry : string * Z) : prog unit :=
  let '(filename, size) := entry in
  let output_path := joinpath icon_dir filename in
  try_except
    (generate_icon output_path size)
    (fun e =>
       print ("  ❌ Failed to generate " ++ filename ++ ": " ++ exn_str e) ;;;
       emit (PrintExc e)).

(** The loop of [main], for any list of entries. *)
Definition generate_all (icon_dir : string) (entries : list (string * Z)) : prog unit :=
  for_each entries (generate_or_report icon_dir).

Definition main : prog unit :=
  script_dir <- gets script_dir ;;
  let icon_dir := icon_dir_of script_dir in
  found <- gets (fun w => path_exists w icon_dir) ;;
  (if negb found then
     print ("❌ Icon directory not found: " ++ icon_dir) ;;;
     exit 1
   else ret tt) ;;;
  print ("🎨 Generating app icons..." ++ newline) ;;;
  generate_all icon_dir all_sizes ;;;
  print (newline ++ "✅ Icon generation complete!") ;;;
  print (newline ++ "📝 Next steps:") ;;;
  print "1. Open Xcode and navigate to Assets.xcassets > AppIcon" ;;;
  print "2. Drag the generated PNG files into the appropriate slots" ;;;
  print "3. Build and run your app to see the new icon!".

(** The module body: the import guard, then [main()]. *)
Definition program : prog unit :=
  available <- gets pillow_installed ;;
  (if available then ret tt
   else
     print "❌ Missing dependencies!" ;;;
     print "Please install required packages:" ;;;
     print "  pip install pillow" ;;;
     exit 1) ;;;
  main.

(** The exit status of the process: 0 when the module body runs to its
    end, the argument of [exit], 1 for an uncaught exception. *)
Definition exit_status {A} (o : outcome A) : Z :=
  match o with
  | Done _ => 0
  | Exited code => code
  | Raised _ => 1
  end.

Local Close Scope prog_scope.
Local Close Scope string_scope.

(** ** What the renderer leaves behind

    The calls made on the layer, written from the final values of the
    locals, and the equations that define those values. *)

Definition accent_fill : color := rgba 255 255 255 200.

Definition accent_dot (dot_size : Z) (p : point) : shape :=
  ellipse (fst p - dot_size, snd p - dot_size)
          (fst p + dot_size, snd p + dot_size) accent_fill.

Definition layer_calls (l : locals) (radius : Z) : list call :=
  let cx := sparkle_center_x l in
  let cy := sparkle_center_y l in
  [ Draw (rounded_rectangle
            (bubble_x l + shadow_offset l, bubble_y l + shadow_offset l)
            (bubble_x l + bubble_size l + shadow_offset l,
             bubble_y l + bubble_size l + shadow_offset l)
            radius (rgba 0 0 0 30));
    Draw (rounded_rectangle
            (bubble_x l, bubble_y l)
            (bubble_x l + bubble_size l, bubble_y l + bubble_size l)
            radius sky_blue);
    Draw (polygon
            [ (tail_x l, tail_y l);
              (tail_x l + tail_size l, tail_y l);
              (tail_x l + tail_size l / 2, tail_y l + tail_size l) ] sky_blue);
    Draw (polygon
            [ (cx, cy - point_length l); (cx + point_width l / 2, cy);
              (cx, cy + point_length l); (cx - point_width l / 2, cy) ] peach);
    Draw (polygon
            [ (cx - point_length l, cy); (cx, cy - point_width l / 2);
              (cx + point_length l, cy); (cx, cy + point_width l / 2) ] peach);
    Draw (polygon
            [ (cx, cy - small_sparkle l / 2); (cx + small_width l / 2, cy);
              (cx, cy + small_sparkle l / 2); (cx - small_width l / 2, cy) ] white);
    Draw (polygon
            [ (cx - small_sparkle l / 2, cy); (cx, cy - small_width l / 2);
              (cx + small_sparkle l / 2, cy); (cx, cy + small_width l / 2) ] white) ]
  ++ map (fun p => Draw (accent_dot (dot_size l) p)) (accent_positions l).

Definition locals_of (size : Z) (scale : float) (radius : Z) (l : locals) : Prop :=
  truediv size 1024 = Ok scale
  /\ scaled 700 scale = Ok (bubble_size l)
  /\ bubble_x l = (size - bubble_size l) / 2
  /\ to_int (fsub (of_int ((size - bubble_size l) / 2))
                  (fmul (of_int 40) scale)) = Ok (bubble_y l)
  /\ scaled 8 scale = Ok (shadow_offset l)
  /\ frac (bubble_size l) f0_25 = Ok radius
  /\ scaled 60 scale = Ok (tail_size l)
  /\ (exists inset, frac (bubble_size l) f0_2 = Ok inset
                    /\ tail_x l = bubble_x l + inset)
  /\ tail_y l = bubble_y l + bubble_size l
  /\ sparkle_center_x l = bubble_x l + bubble_size l / 2
  /\ sparkle_center_y l = bubble_y l + bubble_size l / 2
  /\ scaled 200 scale = Ok (sparkle_size l)
  /\ point_length l = sparkle_size l / 2
  /\ frac (sparkle_size l) f0_3 = Ok (point_width l)
  /\ frac (sparkle_size l) f0_4 = Ok (small_sparkle l)
  /\ frac (small_sparkle l) f0_3 = Ok (small_width l)
  /\ frac (sparkle_size l) f0_8 = Ok (dot_distance l)
  /\ scaled 20 scale = Ok (dot_size l)
  /\ accent_positions l =
       [ (sparkle_center_x l + dot_distance l, sparkle_center_y l - dot_distance l);
         (sparkle_center_x l - dot_distance l, sparkle_center_y l - dot_distance l);
         (sparkle_center_x l + dot_distance l, sparkle_center_y l + dot_distance l) ].

(** The call that paints scanline [y] of the background. *)
Definition row_call (size y : Z) (c : call) : Prop :=
  exists col, gradient_color size y = Ok col
              /\ c = Draw (line (0, y) (size, y) col).

(** ** What the driver leaves behind *)

(** The world after a run: the environment is untouched, files and trace
    have grown. *)
Definition with_output (w : world) (fs : list (string * Image)) (tr : list event)
    : world :=
  mkWorld (script_dir w) (pillow_installed w) (path_exists w) (accepts_write w)
    (write_error w) (empty_image_error w) fs tr.

(** The diagnostic of the [except] branch. *)
Definition failure_report (filename : string) (e : exn) : list event :=
  [ Print ("  ❌ Failed to generate " ++ filename ++ ": " ++ exn_str e)%string;
    PrintExc e ].

(** The exception [save] ends with, if any. *)
Definition save_failure (w : world) (path : string) (img : Image) : option exn :=
  if accepts_write w path then
    if is_empty img then Some (ValueError (empty_image_error w))
    else None
  else Some (OSError (write_error w path)).

(** What one list entry adds to the trace, and to the files. *)
Definition entry_trace (w : world) (icon_dir : string) (entry : string * Z)
    : list event :=
  let output_path := joinpath icon_dir (fst entry) in
  let size := snd entry in
  [ Print ("  Generating " ++ str_int size ++ "x" ++ str_int size ++ "px -> "
           ++ output_path)%string;
    Drawn size ]
  ++ match draw_urgood_icon size with
     | Raise e => failure_report (fst entry) e
     | Ok img =>
         Save output_path "PNG" img
         :: match save_failure w output_path img with
            | None => []
            | Some e => failure_report (fst entry) e
            end
     end.

Definition entry_files (w : world) (icon_dir : string) (entry : string * Z)
    : list (string * Image) :=
  let output_path := joinpath icon_dir (fst entry) in
  match draw_urgood_icon (snd entry) with
  | Raise _ => []
  | Ok img =>
      match save_failure w output_path img with
      | None => [(output_path, img)]
      | Some _ => []
      end
  end.

(** The [save] calls of a trace: path, format and pixel size of the image. *)
Definition save_calls (tr : list event) : list (string * string * (Z * Z)) :=
  flat_map (fun ev => match ev with
                      | Save path format im => [(path, format, im_size im)]
                      | _ => []
                      end) tr.

(** The sizes the batch asks for. *)
Definition supported_sizes : list Z := map snd all_sizes.

(** The gradient formula over the rationals, truncated:
    [light * (1 - y/S) + dark * (y/S) = (light * (S - y) + dark * y) / S]. *)
Definition exact_channel (light dark size y : Z) : Z :=
  (light * (size - y) + dark * y) / size.

(** The ellipses among the calls on an image. *)
Definition ellipses (calls : list call) : list shape :=
  flat_map (fun c => match c with
                     | Draw (ellipse a b f) => [ellipse a b f]
                     | _ => []
                     end) calls.

(** What [main] prints around the loop. *)
Definition opening : list event :=
  [ Print ("🎨 Generating app icons..." ++ newline)%string ].

Definition closing : list event :=
  [ Print (newline ++ "✅ Icon generation complete!")%string;
    Print (newline ++ "📝 Next steps:")%string;
    Print "1. Open Xcode and navigate to Assets.xcassets > AppIcon"%string;
    Print "2. Drag the generated PNG files into the appropriate slots"%string;
    Print "3. Build and run your app to see the new icon!"%string ].

(** A world for the examples: the script lives in [/repo], Pillow is
    installed, nothing has been written or printed yet. *)
(** [str(e)] of the [PermissionError] of a write-protected path. *)
Definition permission_denied (path : string) : string :=
  ("[Errno 13] Permission denied: '" ++ path ++ "'")%string.

Definition example_world (dir_exists writable : bool) : world :=
  mkWorld "/repo" true (fun _ => dir_exists) (fun _ => writable)
    permission_denied "tile cannot extend outside image" [] [].

(** ** Rounding, in integers *)

(** What [k >= 1] one-bit shifts leave of a rounding record: the quotient,
    the last bit shifted out, and whether anything nonzero was lost before
    it. *)
Definition shifted (k : Z) (mrs : shr_record) : shr_record :=
  Build_shr_record (shr_m mrs / 2 ^ k)
    (Z.testbit (shr_m mrs) (k - 1))
    (shr_r mrs || shr_s mrs || negb (shr_m mrs mod 2 ^ (k - 1) =? 0)).

(** The value of a float in units of [2^-k]: an integer for a finite float
    whose exponent is at least [-k]. *)
Definition units (k : Z) (x : float) : Z :=
  match x with
  | S754_finite s m e => cond_Zopp s (Zpos m * 2 ^ (e + k))
  | _ => 0
  end.

(** [r] is within a relative [2^-52] of [v]. *)
Definition near (v r : Z) : Prop := 2 ^ 52 * Z.abs (r - v) <= v.

(** ** The layer in integer arithmetic *)

(** The locals of [draw_urgood_icon] with every [int(...)] of a float
    replaced by an integer quotient: [k * scale] by [k * size // 1024], and
    the products with 0.2, 0.3, 0.4 and 0.8 by [// 5] and [// 10].  [Z.quot]
    rounds toward zero, as [int()] does on the one difference that can be
    negative. *)
Definition integer_locals (size : Z) : locals :=
  let bubble_size := 700 * size / 1024 in
  let bubble_x := (size - bubble_size) / 2 in
  let bubble_y := Z.quot (1024 * bubble_x - 40 * size) 1024 in
  let shadow_offset := 8 * size / 1024 in
  let tail_size := 60 * size / 1024 in
  let tail_x := bubble_x + bubble_size / 5 in
  let tail_y := bubble_y + bubble_size in
  let sparkle_center_x := bubble_x + bubble_size / 2 in
  let sparkle_center_y := bubble_y + bubble_size / 2 in
  let sparkle_size := 200 * size / 1024 in
  let point_length := sparkle_size / 2 in
  let point_width := 3 * sparkle_size / 10 in
  let small_sparkle := 2 * sparkle_size / 5 in
  let small_width := 3 * small_sparkle / 10 in
  let dot_distance := 4 * sparkle_size / 5 in
  let dot_size := 20 * size / 1024 in
  mkLocals bubble_size bubble_x bubble_y shadow_offset tail_size tail_x tail_y
    sparkle_center_x sparkle_center_y sparkle_size point_length point_width
    small_sparkle small_width dot_distance dot_size
    [ (sparkle_center_x + dot_distance, sparkle_center_y - dot_distance);
      (sparkle_center_x - dot_distance, sparkle_center_y - dot_distance);
      (sparkle_center_x + dot_distance, sparkle_center_y + dot_distance) ].

(** The points handed to a drawing call: the two corners of a box, the
    vertices of a polygon, the two ends of a line. *)
Definition shape_points (s : shape) : list point :=
  match s with
  | rounded_rectangle xy0 xy1 _ _ => [xy0; xy1]
  | polygon xy _ => xy
  | ellipse xy0 xy1 _ => [xy0; xy1]
  | line xy0 xy1 _ => [xy0; xy1]
  end.

Definition drawn_points (calls : list call) : list point :=
  flat_map (fun c => match c with
                     | Draw s => shape_points s
                     | Paste _ _ _ => []
                     end) calls.

(** [p] lies in the box with corners [lo] and [hi], edges included. *)
Definition in_box (lo hi p : point) : Prop :=
  fst lo <= fst p <= fst hi /\ snd lo <= snd p <= snd hi.

(** ** Reports of the driver *)

(** The exceptions whose stack trace was printed. *)
Definition reported (tr : list event) : list exn :=
  flat_map (fun ev => match ev with PrintExc e => [e] | _ => [] end) tr.

(** The sizes [Image.new] accepts for a square image. *)
Definition valid_size (size : Z) : bool := (0 <=? size) && (size <=? MAX_DIM).

(** * Proofs *)

Lemma lit_0_25 : lit 25 100 = f0_25. Proof. vm_compute. reflexivity. Qed.
Lemma lit_0_2 : lit 2 10 = f0_2. Proof. vm_compute. reflexivity. Qed.
Lemma lit_0_3 : lit 3 10 = f0_3. Proof. vm_compute. reflexivity. Qed.
Lemma lit_0_4 : lit 4 10 = f0_4. Proof. vm_compute. reflexivity. Qed.
Lemma lit_0_8 : lit 8 10 = f0_8. Proof. vm_compute. reflexivity. Qed.

(** ** Facts about binary64 rounding

    Enough of the arithmetic of [SpecFloat] to show that no float of the
    renderer is an infinity or a NaN, and to follow signs. *)

Lemma digits2_pos_size (m : positive) : digits2_pos m = Pos.size m.
Proof. induction m; simpl; congruence. Qed.

Lemma Zdigits2_log2 (z : Z) : 0 < z -> Zdigits2 z = Z.log2 z + 1.
Proof.
  destruct z as [|p|p]; try lia. intros _. simpl.
  rewrite digits2_pos_size.
  destruct p; simpl; try reflexivity; now rewrite Pos.add_1_r.
Qed.

Lemma Zdigits2_bounds (z : Z) :
  0 < z -> 2 ^ (Zdigits2 z - 1) <= z < 2 ^ Zdigits2 z.
Proof.
  intros Hz. rewrite (Zdigits2_log2 z Hz).
  replace (Z.log2 z + 1 - 1) with (Z.log2 z) by lia.
  replace (Z.log2 z + 1) with (Z.succ (Z.log2 z)) by lia.
  now apply Z.log2_spec.
Qed.

Lemma Zdigits2_unique (z d : Z) :
  0 < d -> 2 ^ (d - 1) <= z < 2 ^ d -> Zdigits2 z = d.
Proof.
  intros Hd Hz.
  assert (0 < z) by (assert (0 < 2 ^ (d - 1)) by (apply Z.pow_pos_nonneg; lia); lia).
  rewrite Zdigits2_log2 by assumption.
  rewrite (Z.log2_unique z (d - 1)); try lia.
  replace (Z.succ (d - 1)) with d by lia. assumption.
Qed.

Lemma Zdigits2_pos (m : positive) : Zdigits2 (Zpos m) = Zpos (digits2_pos m).
Proof. reflexivity. Qed.

Lemma iter_xO (p m : positive) :
  Zpos (Pos.iter xO m p) = Zpos m * 2 ^ Zpos p.
Proof.
  induction p using Pos.peano_ind.
  - simpl. lia.
  - rewrite Pos.iter_succ, Pos2Z.inj_succ, Z.pow_succ_r by lia.
    rewrite Pos2Z.inj_xO, IHp. lia.
Qed.

Lemma shr_1_m (mrs : shr_record) :
  0 <= shr_m mrs -> shr_m (shr_1 mrs) = shr_m mrs / 2.
Proof.
  destruct mrs as [m r s]; simpl. intros Hm.
  destruct m as [|p|p]; try lia; try reflexivity.
  destruct p; simpl shr_m.
  - rewrite Pos2Z.inj_xI.
    apply (Z.div_unique _ 2 _ 1); lia.
  - rewrite Pos2Z.inj_xO.
    apply (Z.div_unique _ 2 _ 0); lia.
  - reflexivity.
Qed.

Lemma iter_shr_1_m (p : positive) (mrs : shr_record) :
  0 <= shr_m mrs ->
  shr_m (iter_pos shr_1 p mrs) = shr_m mrs / 2 ^ Zpos p.
Proof.
  revert mrs.
  induction p as [p IH|p IH|]; intros mrs Hm; simpl iter_pos.
  - assert (H1 : 0 <= shr_m (shr_1 mrs))
      by (rewrite shr_1_m by assumption; apply Z.div_pos; lia).
    assert (H2 : 0 <= shr_m (iter_pos shr_1 p (shr_1 mrs)))
      by (rewrite IH by assumption; apply Z.div_pos; [lia|apply Z.pow_pos_nonneg; lia]).
    rewrite IH, IH, shr_1_m by assumption.
    rewrite !Z.div_div by (try apply Z.pow_pos_nonneg; lia).
    f_equal.
    replace (Zpos p~1) with (1 + Zpos p + Zpos p) by lia.
    rewrite !Z.pow_add_r by lia. lia.
  - assert (H2 : 0 <= shr_m (iter_pos shr_1 p mrs))
      by (rewrite IH by assumption; apply Z.div_pos; [lia|apply Z.pow_pos_nonneg; lia]).
    rewrite IH, IH by assumption.
    rewrite !Z.div_div by (try apply Z.pow_pos_nonneg; lia).
    f_equal.
    replace (Zpos p~0) with (Zpos p + Zpos p) by lia.
    rewrite !Z.pow_add_r by lia. lia.
  - rewrite shr_1_m by assumption. reflexivity.
Qed.

Lemma shr_record_of_loc_m (m : Z) (l : location) :
  shr_m (shr_record_of_loc m l) = m.
Proof. destruct l as [|[| |]]; reflexivity. Qed.

Lemma round_nearest_even_range (m : Z) (l : location) :
  m <= round_nearest_even m l <= m + 1.
Proof.
  destruct l as [|[| |]]; simpl; try lia.
  destruct (Z.even m); lia.
Qed.

Lemma shr_m_e (mrs : shr_record) (e n : Z) :
  0 <= shr_m mrs -> 0 <= n ->
  shr_m (fst (shr mrs e n)) = shr_m mrs / 2 ^ n /\ snd (shr mrs e n) = e + n.
Proof.
  intros Hm Hn. destruct n as [|p|p]; try lia; simpl.
  - rewrite Z.div_1_r. lia.
  - split; [now apply iter_shr_1_m | reflexivity].
Qed.

Lemma fexp_normal (x : Z) : -1000 <= x -> fexp prec emax x = x - 53.
Proof. intros Hx. unfold fexp, emin, prec, emax. lia. Qed.

Lemma div_pow2_digits (z d : Z) :
  53 <= d -> 2 ^ (d - 1) <= z < 2 ^ d ->
  2 ^ 52 <= z / 2 ^ (d - 53) < 2 ^ 53.
Proof.
  intros Hd [Hlo Hhi].
  assert (Hp : 0 < 2 ^ (d - 53)) by (apply Z.pow_pos_nonneg; lia).
  assert (E1 : 2 ^ (d - 1) = 2 ^ 52 * 2 ^ (d - 53))
    by (rewrite <- Z.pow_add_r by lia; f_equal; lia).
  assert (E2 : 2 ^ d = 2 ^ 53 * 2 ^ (d - 53))
    by (rewrite <- Z.pow_add_r by lia; f_equal; lia).
  split.
  - apply Z.div_le_lower_bound; [assumption|]. rewrite Z.mul_comm, <- E1. assumption.
  - apply Z.div_lt_upper_bound; [assumption|]. rewrite Z.mul_comm, <- E2. assumption.
Qed.

(** Rounding a mantissa of at least 53 digits in the normal range gives a
    normal number of the requested sign. *)
Lemma binary_round_aux_normal (s : bool) (mx ex : Z) (lx : location) :
  0 < mx -> 53 <= Zdigits2 mx -> -900 <= ex + Zdigits2 mx <= 1000 ->
  exists m e,
    binary_round_aux prec emax s mx ex lx = S754_finite s m e
    /\ Zpos (digits2_pos m) = 53
    /\ ex + Zdigits2 mx - 53 <= e <= ex + Zdigits2 mx - 52.
Proof.
  intros Hmx Hd Hr.
  pose proof (Zdigits2_bounds mx Hmx) as Hb.
  set (d := Zdigits2 mx) in *.
  unfold binary_round_aux, shr_fexp. fold d.
  rewrite (fexp_normal (d + ex)) by lia.
  replace (d + ex - 53 - ex) with (d - 53) by lia.
  destruct (shr_m_e (shr_record_of_loc mx lx) ex (d - 53)) as [Hm1 He1];
    [rewrite shr_record_of_loc_m; lia | lia |].
  destruct (shr (shr_record_of_loc mx lx) ex (d - 53)) as [mrs1 e1].
  simpl in Hm1, He1. rewrite shr_record_of_loc_m in Hm1.
  pose proof (div_pow2_digits mx d Hd Hb) as Hq. rewrite <- Hm1 in Hq.
  pose proof (round_nearest_even_range (shr_m mrs1) (loc_of_shr_record mrs1)) as Hrn.
  set (m1 := round_nearest_even (shr_m mrs1) (loc_of_shr_record mrs1)) in *.
  assert (Hm1pos : 0 < m1) by (assert (0 < 2 ^ 52) by (apply Z.pow_pos_nonneg; lia); lia).
  destruct (Z.eq_dec m1 (2 ^ 53)) as [Htop|Hlow].
  - (* the round-up carried into a 54th digit *)
    assert (Hd1 : Zdigits2 m1 = 54) by (rewrite Htop; reflexivity).
    rewrite Hd1, (fexp_normal (54 + e1)) by lia.
    replace (54 + e1 - 53 - e1) with 1 by lia.
    rewrite Htop. simpl.
    assert (Hle : (e1 + 1 <=? 971) = true) by (apply Z.leb_le; lia).
    change (emax - prec) with 971. rewrite Hle.
    eexists _, _. split; [reflexivity|]. split; [reflexivity | lia].
  - assert (Hd1 : Zdigits2 m1 = 53) by (apply Zdigits2_unique; simpl; lia).
    rewrite Hd1, (fexp_normal (53 + e1)) by lia.
    replace (53 + e1 - 53 - e1) with 0 by lia.
    simpl shr. simpl shr_m.
    destruct m1 as [|p1|p1]; try lia.
    assert (Hle : (e1 <=? 971) = true) by (apply Z.leb_le; lia).
    change (emax - prec) with 971. rewrite Hle.
    eexists _, _. split; [reflexivity|]. split; [exact Hd1 | lia].
Qed.

Lemma Zdigits2_le (z n : Z) : 0 < z -> z < 2 ^ n -> Zdigits2 z <= n.
Proof.
  intros Hz Hlt. rewrite Zdigits2_log2 by assumption.
  destruct (Z_lt_le_dec n 0) as [Hn|Hn].
  - rewrite Z.pow_neg_r in Hlt by assumption. lia.
  - apply Z.log2_lt_pow2 in Hlt; lia.
Qed.

Lemma binary_round_normal (s : bool) (m : positive) (e : Z) :
  -900 <= e + Zdigits2 (Zpos m) <= 1000 ->
  exists m' e',
    binary_round prec emax s m e = S754_finite s m' e'
    /\ Zpos (digits2_pos m') = 53
    /\ e + Zdigits2 (Zpos m) - 53 <= e' <= e + Zdigits2 (Zpos m) - 52.
Proof.
  intros Hr.
  pose proof (Zdigits2_bounds (Zpos m) eq_refl) as Hb.
  unfold binary_round, shl_align.
  change (Zpos (digits2_pos m)) with (Zdigits2 (Zpos m)).
  set (d := Zdigits2 (Zpos m)) in *.
  assert (Hdpos : 0 < d) by (unfold d; simpl; lia).
  rewrite (fexp_normal (d + e)) by lia.
  destruct (d + e - 53 - e) as [|q|q] eqn:Eq.
  - destruct (binary_round_aux_normal s (Zpos m) e loc_Exact) as (m' & e' & H1 & H2 & H3);
      fold d; try lia.
    exists m', e'. fold d in H3. repeat split; try assumption; lia.
  - destruct (binary_round_aux_normal s (Zpos m) e loc_Exact) as (m' & e' & H1 & H2 & H3);
      fold d; try lia.
    exists m', e'. fold d in H3. repeat split; try assumption; lia.
  - assert (Hq : Zpos q = 53 - d) by lia.
    assert (Hz : Zdigits2 (Zpos (Pos.iter xO m q)) = 53).
    { apply Zdigits2_unique; [lia|]. rewrite iter_xO, Hq.
      assert (E1 : 2 ^ (53 - 1) = 2 ^ (d - 1) * 2 ^ (53 - d))
        by (rewrite <- Z.pow_add_r by lia; f_equal; lia).
      assert (E2 : 2 ^ 53 = 2 ^ d * 2 ^ (53 - d))
        by (rewrite <- Z.pow_add_r by lia; f_equal; lia).
      assert (Hp : 0 < 2 ^ (53 - d)) by (apply Z.pow_pos_nonneg; lia).
      rewrite E1, E2. split.
      - apply Z.mul_le_mono_nonneg_r; lia.
      - apply Z.mul_lt_mono_pos_r; lia. }
    destruct (binary_round_aux_normal s (Zpos (Pos.iter xO m q)) (d + e - 53) loc_Exact)
      as (m' & e' & H1 & H2 & H3); rewrite ?Hz; try lia.
    exists m', e'. rewrite Hz in H3. repeat split; try assumption; lia.
Qed.

Lemma nice_weaken (lo hi lo' hi' : Z) (x : float) :
  lo' <= lo -> hi <= hi' -> nice lo hi x -> nice lo' hi' x.
Proof. destruct x; simpl; intuition lia. Qed.

Lemma nice_of_int (z n : Z) :
  0 <= n <= 53 -> Z.abs z < 2 ^ n -> nice (-52) (n - 52) (of_int z).
Proof.
  intros Hn Hz. unfold of_int, binary_normalize.
  destruct z as [|p|p]; [exact I | |].
  - assert (Hd : Zdigits2 (Zpos p) <= n) by (apply Zdigits2_le; simpl in *; lia).
    assert (0 < Zdigits2 (Zpos p)) by (simpl; lia).
    destruct (binary_round_normal false p 0) as (m' & e' & H1 & H2 & H3); [lia|].
    rewrite H1. simpl. split; [assumption | lia].
  - assert (Hd : Zdigits2 (Zpos p) <= n) by (apply Zdigits2_le; simpl in *; lia).
    assert (0 < Zdigits2 (Zpos p)) by (simpl; lia).
    destruct (binary_round_normal true p 0) as (m' & e' & H1 & H2 & H3); [lia|].
    rewrite H1. simpl. split; [assumption | lia].
Qed.

Lemma fsign_of_int (z : Z) : 0 <= z -> Z.abs z < 2 ^ 53 -> fsign (of_int z) = false.
Proof.
  intros Hz Hb. unfold of_int, binary_normalize.
  destruct z as [|p|p]; [reflexivity | | lia].
  assert (Hd : Zdigits2 (Zpos p) <= 53) by (apply Zdigits2_le; simpl in *; lia).
  assert (0 < Zdigits2 (Zpos p)) by (simpl; lia).
  destruct (binary_round_normal false p 0) as (m' & e' & H1 & _); [lia|].
  rewrite H1. reflexivity.
Qed.

Lemma nice_fmul (l1 h1 l2 h2 : Z) (x y : float) :
  nice l1 h1 x -> nice l2 h2 y -> -800 <= l1 + l2 -> h1 + h2 <= 800 ->
  nice (l1 + l2 + 52) (h1 + h2 + 54) (fmul x y)
  /\ fsign (fmul x y) = xorb (fsign x) (fsign y).
Proof.
  intros Hx Hy Hl Hh.
  destruct x as [sx|sx| |sx mx ex], y as [sy|sy| |sy my ey];
    simpl in Hx, Hy; try contradiction; try (simpl; tauto).
  destruct Hx as [Hdx Hex], Hy as [Hdy Hey].
  pose proof (Zdigits2_bounds (Zpos mx) eq_refl) as Hbx.
  pose proof (Zdigits2_bounds (Zpos my) eq_refl) as Hby.
  rewrite Zdigits2_pos, Hdx in Hbx. rewrite Zdigits2_pos, Hdy in Hby.
  change (2 ^ (53 - 1)) with 4503599627370496 in *.
  change (2 ^ 53) with 9007199254740992 in *.
  assert (Hp : 2 ^ 104 <= Zpos (mx * my) < 2 ^ 106).
  { rewrite Pos2Z.inj_mul.
    change (2 ^ 104) with (4503599627370496 * 4503599627370496).
    change (2 ^ 106) with (9007199254740992 * 9007199254740992).
    split.
    - apply Z.mul_le_mono_nonneg; lia.
    - apply Z.mul_lt_mono_nonneg; lia. }
  assert (Hd : 105 <= Zdigits2 (Zpos (mx * my)) <= 106).
  { destruct (Z_lt_le_dec (Zpos (mx * my)) (2 ^ 105)) as [Hlt|Hge].
    - rewrite (Zdigits2_unique _ 105); [lia | lia |]. split; [apply Hp | exact Hlt].
    - rewrite (Zdigits2_unique _ 106); [lia | lia |]. split; [exact Hge | apply Hp]. }
  unfold fmul, SFmul.
  destruct (binary_round_aux_normal (xorb sx sy) (Zpos (mx * my)) (ex + ey) loc_Exact)
    as (m' & e' & H1 & H2 & H3); try lia.
  rewrite H1. simpl. repeat split; try assumption; lia.
Qed.

Lemma nice_fdiv (l1 h1 l2 h2 : Z) (x y : float) :
  nice l1 h1 x -> nice l2 h2 y -> (forall s, y <> S754_zero s) ->
  -800 <= l1 - h2 -> h1 - l2 <= 800 ->
  nice (l1 - h2 - 53) (h1 - l2 - 51) (fdiv x y)
  /\ fsign (fdiv x y) = xorb (fsign x) (fsign y).
Proof.
  intros Hx Hy Hnz Hl Hh.
  destruct x as [sx|sx| |sx mx ex], y as [sy|sy| |sy my ey];
    simpl in Hx, Hy; try contradiction; try (simpl; tauto);
    try (exfalso; apply (Hnz sy); reflexivity).
  destruct Hx as [Hdx Hex], Hy as [Hdy Hey].
  pose proof (Zdigits2_bounds (Zpos mx) eq_refl) as Hbx.
  pose proof (Zdigits2_bounds (Zpos my) eq_refl) as Hby.
  rewrite Zdigits2_pos, Hdx in Hbx. rewrite Zdigits2_pos, Hdy in Hby.
  change (2 ^ (53 - 1)) with 4503599627370496 in *.
  change (2 ^ 53) with 9007199254740992 in *.
  unfold fdiv, SFdiv, SFdiv_core_binary.
  rewrite !Zdigits2_pos, Hdx, Hdy.
  rewrite (fexp_normal (53 + ex - (53 + ey))) by lia.
  replace (Z.min (53 + ex - (53 + ey) - 53) (ex - ey)) with (ex - ey - 53) by lia.
  replace (ex - ey - (ex - ey - 53)) with 53 by lia.
  rewrite Z.shiftl_mul_pow2 by lia.
  change (2 ^ 53) with 9007199254740992.
  destruct (Z.div_eucl (Zpos mx * 9007199254740992) (Zpos my)) as [q r] eqn:Ediv.
  assert (Hq : q = Zpos mx * 9007199254740992 / Zpos my)
    by (unfold Z.div; rewrite Ediv; reflexivity).
  assert (Hqb : 2 ^ 52 <= q < 2 ^ 54).
  { rewrite Hq.
    change (2 ^ 52) with 4503599627370496. change (2 ^ 54) with 18014398509481984.
    split.
    - apply Z.div_le_lower_bound; nia.
    - apply Z.div_lt_upper_bound; nia. }
  assert (Hd : 53 <= Zdigits2 q <= 54).
  { destruct (Z_lt_le_dec q (2 ^ 53)) as [Hlt|Hge].
    - rewrite (Zdigits2_unique _ 53); [lia | lia |]. split; [apply Hqb | exact Hlt].
    - rewrite (Zdigits2_unique _ 54); [lia | lia |]. split; [exact Hge | apply Hqb]. }
  assert (Hqpos : 0 < q)
    by (assert (0 < 2 ^ 52) by (apply Z.pow_pos_nonneg; lia); lia).
  destruct (binary_round_aux_normal (xorb sx sy) q (ex - ey - 53)
              (new_location (Zpos my) r))
    as (m' & e' & H1 & H2 & H3); try lia.
  rewrite H1. simpl. repeat split; try assumption; lia.
Qed.

Lemma shl_align_fst (m : positive) (e e' : Z) :
  e' <= e -> Zpos (fst (shl_align m e e')) = Zpos m * 2 ^ (e - e').
Proof.
  intros Hle. unfold shl_align.
  destruct (e' - e) as [|q|q] eqn:Eq; simpl fst; try lia.
  - replace (e - e') with 0 by lia. lia.
  - rewrite iter_xO. f_equal. f_equal. lia.
Qed.

Lemma nice_normalize (z ez lo hi : Z) :
  -800 <= lo -> lo <= ez -> ez <= hi -> hi <= 800 ->
  Z.abs z < 2 ^ (54 + hi - ez) ->
  nice (lo - 52) (hi + 2) (binary_normalize prec emax z ez false).
Proof.
  intros H1 H2 H3 H4 Hz. unfold binary_normalize.
  destruct z as [|p|p]; [exact I | |].
  - assert (Hd : Zdigits2 (Zpos p) <= 54 + hi - ez) by (apply Zdigits2_le; simpl in *; lia).
    assert (0 < Zdigits2 (Zpos p)) by (simpl; lia).
    destruct (binary_round_normal false p ez) as (m' & e' & E1 & E2 & E3); [lia|].
    rewrite E1. simpl. split; [assumption | lia].
  - assert (Hd : Zdigits2 (Zpos p) <= 54 + hi - ez) by (apply Zdigits2_le; simpl in *; lia).
    assert (0 < Zdigits2 (Zpos p)) by (simpl; lia).
    destruct (binary_round_normal true p ez) as (m' & e' & E1 & E2 & E3); [lia|].
    rewrite E1. simpl. split; [assumption | lia].
Qed.

Lemma aligned_sum_bound (mx my : positive) (ex ey : Z) :
  Zpos (digits2_pos mx) = 53 -> Zpos (digits2_pos my) = 53 ->
  Zpos (fst (shl_align mx ex (Z.min ex ey)))
    + Zpos (fst (shl_align my ey (Z.min ex ey)))
  < 2 ^ (54 + Z.max ex ey - Z.min ex ey).
Proof.
  intros Hdx Hdy.
  pose proof (Zdigits2_bounds (Zpos mx) eq_refl) as Hbx.
  pose proof (Zdigits2_bounds (Zpos my) eq_refl) as Hby.
  rewrite Zdigits2_pos, Hdx in Hbx. rewrite Zdigits2_pos, Hdy in Hby.
  rewrite !shl_align_fst by lia.
  set (lo := Z.min ex ey). set (hi := Z.max ex ey).
  replace (54 + hi - lo) with (1 + 53 + (hi - lo)) by lia.
  rewrite !Z.pow_add_r by lia.
  assert (Hx : 2 ^ (ex - lo) <= 2 ^ (hi - lo)) by (apply Z.pow_le_mono_r; lia).
  assert (Hy : 2 ^ (ey - lo) <= 2 ^ (hi - lo)) by (apply Z.pow_le_mono_r; lia).
  assert (0 < 2 ^ (ex - lo)) by (apply Z.pow_pos_nonneg; lia).
  assert (0 < 2 ^ (ey - lo)) by (apply Z.pow_pos_nonneg; lia).
  assert (Zpos mx * 2 ^ (ex - lo) < 2 ^ 53 * 2 ^ (hi - lo)).
  { apply Z.lt_le_trans with (2 ^ 53 * 2 ^ (ex - lo)).
    - apply Z.mul_lt_mono_pos_r; lia.
    - apply Z.mul_le_mono_nonneg_l; lia. }
  assert (Zpos my * 2 ^ (ey - lo) < 2 ^ 53 * 2 ^ (hi - lo)).
  { apply Z.lt_le_trans with (2 ^ 53 * 2 ^ (ey - lo)).
    - apply Z.mul_lt_mono_pos_r; lia.
    - apply Z.mul_le_mono_nonneg_l; lia. }
  change (2 ^ 1) with 2. lia.
Qed.

Lemma nice_fadd (l1 h1 l2 h2 : Z) (x y : float) :
  nice l1 h1 x -> nice l2 h2 y -> -800 <= Z.min l1 l2 -> Z.max h1 h2 <= 800 ->
  nice (Z.min l1 l2 - 52) (Z.max h1 h2 + 2) (fadd x y).
Proof.
  intros Hx Hy Hl Hh.
  destruct x as [sx|sx| |sx mx ex], y as [sy|sy| |sy my ey];
    simpl in Hx, Hy; try contradiction.
  - destruct sx, sy; exact I.
  - simpl. split; [tauto | lia].
  - simpl. split; [tauto | lia].
  - destruct Hx as [Hdx Hex], Hy as [Hdy Hey].
    pose proof (aligned_sum_bound mx my ex ey Hdx Hdy) as Hs.
    unfold fadd, SFadd.
    apply (nice_weaken (Z.min ex ey - 52) (Z.max ex ey + 2)); try lia.
    apply nice_normalize; try lia.
    destruct sx, sy; simpl cond_Zopp; lia.
Qed.

Lemma nice_fsub (l1 h1 l2 h2 : Z) (x y : float) :
  nice l1 h1 x -> nice l2 h2 y -> -800 <= Z.min l1 l2 -> Z.max h1 h2 <= 800 ->
  nice (Z.min l1 l2 - 52) (Z.max h1 h2 + 2) (fsub x y).
Proof.
  intros Hx Hy Hl Hh.
  destruct x as [sx|sx| |sx mx ex], y as [sy|sy| |sy my ey];
    simpl in Hx, Hy; try contradiction.
  - destruct sx, sy; exact I.
  - simpl. split; [tauto | lia].
  - simpl. split; [tauto | lia].
  - destruct Hx as [Hdx Hex], Hy as [Hdy Hey].
    pose proof (aligned_sum_bound mx my ex ey Hdx Hdy) as Hs.
    unfold fsub, SFsub.
    apply (nice_weaken (Z.min ex ey - 52) (Z.max ex ey + 2)); try lia.
    apply nice_normalize; try lia.
    destruct sx, sy; simpl cond_Zopp; lia.
Qed.

(** [int()] succeeds on every such float, and keeps the sign. *)
Lemma shiftl_lt (m : positive) (e hi : Z) :
  Zpos m < 2 ^ 53 -> e <= hi -> 0 <= hi + 53 ->
  0 <= Z.shiftl (Zpos m) e < 2 ^ (hi + 53).
Proof.
  intros Hm He Hhi.
  split; [apply Z.shiftl_nonneg; lia|].
  apply Z.lt_le_trans with (2 ^ (Z.max 0 (e + 53)));
    [| apply Z.pow_le_mono_r; lia].
  destruct (Z_lt_le_dec e 0) as [Hneg|Hpos].
  - rewrite <- (Z.opp_involutive e) at 1.
    rewrite Z.shiftl_opp_r, Z.shiftr_div_pow2 by lia.
    assert (Hp : 0 < 2 ^ (- e)) by (apply Z.pow_pos_nonneg; lia).
    apply Z.div_lt_upper_bound; [assumption|].
    rewrite <- Z.pow_add_r by lia.
    apply Z.lt_le_trans with (2 ^ 53); [assumption|].
    apply Z.pow_le_mono_r; lia.
  - rewrite Z.shiftl_mul_pow2 by lia.
    replace (Z.max 0 (e + 53)) with (53 + e) by lia.
    rewrite Z.pow_add_r by lia.
    apply Z.mul_lt_mono_pos_r; [apply Z.pow_pos_nonneg; lia | assumption].
Qed.

(** [int()] succeeds on every such float, keeps the sign and is bounded
    by the exponent. *)
Lemma to_int_nice (lo hi : Z) (x : float) :
  nice lo hi x -> 0 <= hi + 53 ->
  exists z, to_int x = Ok z
            /\ (fsign x = false -> 0 <= z)
            /\ Z.abs z < 2 ^ (hi + 53).
Proof.
  destruct x as [s|s| |s m e]; simpl; try contradiction; intros Hn Hhi.
  - exists 0. split; [reflexivity|]. split; [lia|].
    simpl. apply Z.pow_pos_nonneg; lia.
  - destruct Hn as [Hd He].
    pose proof (Zdigits2_bounds (Zpos m) eq_refl) as Hb.
    rewrite Zdigits2_pos, Hd in Hb.
    pose proof (shiftl_lt m e hi (proj2 Hb) (proj2 He) Hhi) as Hs.
    eexists. split; [reflexivity|]. split.
    + intros ->. lia.
    + destruct s; lia.
Qed.

Lemma of_int_nonzero (z : Z) :
  z <> 0 -> Z.abs z < 2 ^ 53 -> forall s, of_int z <> S754_zero s.
Proof.
  intros Hz Hb s. unfold of_int, binary_normalize.
  destruct z as [|p|p]; [congruence | |].
  - assert (Hd : Zdigits2 (Zpos p) <= 53) by (apply Zdigits2_le; simpl in *; lia).
    assert (0 < Zdigits2 (Zpos p)) by (simpl; lia).
    destruct (binary_round_normal false p 0) as (m' & e' & H1 & _); [lia|].
    rewrite H1. discriminate.
  - assert (Hd : Zdigits2 (Zpos p) <= 53) by (apply Zdigits2_le; simpl in *; lia).
    assert (0 < Zdigits2 (Zpos p)) by (simpl; lia).
    destruct (binary_round_normal true p 0) as (m' & e' & H1 & _); [lia|].
    rewrite H1. discriminate.
Qed.

(** *** Exact operations

    On floats that are integers scaled by a power of two, the operations
    of the renderer are exact as long as the result has at most 53 bits. *)

Lemma iter_shr_exact (p q : positive) :
  iter_pos shr_1 p (Build_shr_record (Zpos (Pos.iter xO q p)) false false)
  = Build_shr_record (Zpos q) false false.
Proof.
  revert q. induction p as [p IH|p IH|]; intros q; simpl.
  - rewrite IH, IH. reflexivity.
  - rewrite IH, IH. reflexivity.
  - reflexivity.
Qed.

Lemma pos_of_shifted (m q : positive) (p : positive) :
  Zpos m = Zpos q * 2 ^ Zpos p -> m = Pos.iter xO q p.
Proof. intros H. rewrite <- iter_xO in H. congruence. Qed.

Lemma digits_shifted (q : positive) (n : Z) :
  0 <= n -> Zpos (digits2_pos q) = 53 -> Zdigits2 (Zpos q * 2 ^ n) = 53 + n.
Proof.
  intros Hn Hd.
  pose proof (Zdigits2_bounds (Zpos q) eq_refl) as Hb.
  rewrite Zdigits2_pos, Hd in Hb.
  assert (Hp : 0 < 2 ^ n) by (apply Z.pow_pos_nonneg; lia).
  apply Zdigits2_unique; [lia|].
  replace (53 + n - 1) with (52 + n) by lia.
  rewrite !Z.pow_add_r by lia. change (53 - 1) with 52 in Hb. split.
  - apply Z.mul_le_mono_nonneg_r; lia.
  - apply Z.mul_lt_mono_pos_r; lia.
Qed.

Lemma binary_round_aux_exact (s : bool) (q : positive) (n mx e : Z) :
  0 <= n -> mx = Zpos q * 2 ^ n -> Zpos (digits2_pos q) = 53 ->
  -900 <= e + n <= 900 ->
  binary_round_aux prec emax s mx e loc_Exact = S754_finite s q (e + n).
Proof.
  intros Hn Hmx Hd Hr.
  pose proof (digits_shifted q n Hn Hd) as Hdig. rewrite <- Hmx in Hdig.
  unfold binary_round_aux, shr_fexp. rewrite Hdig.
  rewrite (fexp_normal (53 + n + e)) by lia.
  replace (53 + n + e - 53 - e) with n by lia.
  assert (E1 : shr (shr_record_of_loc mx loc_Exact) e n
               = (Build_shr_record (Zpos q) false false, e + n)).
  { destruct n as [|p|p]; try lia.
    - simpl. rewrite Hmx, Z.mul_1_r, Z.add_0_r. reflexivity.
    - assert (Hpos : 0 < mx)
        by (rewrite Hmx; apply Z.mul_pos_pos; [lia | apply Z.pow_pos_nonneg; lia]).
      destruct mx as [|m|m]; try lia.
      apply pos_of_shifted in Hmx. subst m.
      simpl. rewrite iter_shr_exact. reflexivity. }
  rewrite E1. cbn [shr_m loc_of_shr_record round_nearest_even].
  change (Zdigits2 (Zpos q)) with (Zpos (digits2_pos q)). rewrite Hd.
  rewrite (fexp_normal (53 + (e + n))) by lia.
  replace (53 + (e + n) - 53 - (e + n)) with 0 by lia.
  cbn [shr shr_record_of_loc shr_m].
  assert (Hle : (e + n <=? emax - prec) = true)
    by (apply Z.leb_le; unfold emax, prec; lia).
  rewrite Hle. reflexivity.
Qed.

(** The normal form of [z * 2^t * 2^(e - t)], for [z] of at most 53 bits. *)
Lemma binary_round_exact (s : bool) (m z : positive) (t e : Z) :
  0 <= t -> Zpos m = Zpos z * 2 ^ t -> Zpos z < 2 ^ 53 ->
  -800 <= e <= 800 -> t <= 100 ->
  exists q,
    binary_round prec emax s m (e - t)
    = S754_finite s q (e + Zdigits2 (Zpos z) - 53)
    /\ Zpos q = Zpos z * 2 ^ (53 - Zdigits2 (Zpos z))
    /\ Zpos (digits2_pos q) = 53.
Proof.
  intros Ht Hm Hz He Ht'.
  pose proof (Zdigits2_bounds (Zpos z) eq_refl) as Hbz.
  assert (Hdz : 1 <= Zdigits2 (Zpos z) <= 53)
    by (split; [simpl; lia | apply Zdigits2_le; lia]).
  set (d := Zdigits2 (Zpos z)) in *.
  assert (Hp : 0 < 2 ^ (53 - d)) by (apply Z.pow_pos_nonneg; lia).
  set (q := Z.to_pos (Zpos z * 2 ^ (53 - d))).
  assert (Hq : Zpos q = Zpos z * 2 ^ (53 - d)) by (unfold q; rewrite Z2Pos.id; lia).
  assert (Hdq : Zpos (digits2_pos q) = 53).
  { change (Zpos (digits2_pos q)) with (Zdigits2 (Zpos q)).
    apply Zdigits2_unique; [lia|]. rewrite Hq.
    assert (E1 : 2 ^ (53 - 1) = 2 ^ (d - 1) * 2 ^ (53 - d))
      by (rewrite <- Z.pow_add_r by lia; f_equal; lia).
    assert (E2 : 2 ^ 53 = 2 ^ d * 2 ^ (53 - d))
      by (rewrite <- Z.pow_add_r by lia; f_equal; lia).
    rewrite E1, E2. split.
    - apply Z.mul_le_mono_nonneg_r; lia.
    - apply Z.mul_lt_mono_pos_r; lia. }
  exists q. split; [|split; assumption].
  assert (Hdm : Zdigits2 (Zpos m) = d + t).
  { apply Zdigits2_unique; [lia|]. rewrite Hm.
    assert (0 < 2 ^ t) by (apply Z.pow_pos_nonneg; lia).
    replace (d + t - 1) with (d - 1 + t) by lia.
    rewrite !Z.pow_add_r by lia. split.
    - apply Z.mul_le_mono_nonneg_r; lia.
    - apply Z.mul_lt_mono_pos_r; lia. }
  unfold binary_round, shl_align.
  change (Zpos (digits2_pos m)) with (Zdigits2 (Zpos m)). rewrite Hdm.
  rewrite (fexp_normal (d + t + (e - t))) by lia.
  destruct (d + t + (e - t) - 53 - (e - t)) as [|k|k] eqn:Ek.
  - (* exactly 53 digits *)
    rewrite (binary_round_aux_exact s q 0 (Zpos m) (e - t)); try lia.
    + f_equal. lia.
    + rewrite Hm, Hq. replace (53 - d) with t by lia. lia.
  - (* more than 53 digits: the low bits are zeros *)
    rewrite (binary_round_aux_exact s q (Zpos k) (Zpos m) (e - t)); try lia.
    + f_equal. lia.
    + rewrite Hm, Hq, <- Z.mul_assoc, <- Z.pow_add_r by lia.
      f_equal. f_equal. lia.
  - (* fewer than 53 digits: aligned to the left *)
    rewrite (binary_round_aux_exact s q 0 (Zpos (Pos.iter xO m k))
               (d + t + (e - t) - 53)); try lia.
    + f_equal. lia.
    + rewrite iter_xO, Hm, Hq, Z.mul_1_r, <- Z.mul_assoc, <- Z.pow_add_r by lia.
      f_equal. f_equal. lia.
Qed.

Lemma dyadic_nonzero (z j : Z) :
  z <> 0 -> Z.abs z < 2 ^ 53 -> -800 <= j <= 800 ->
  exists q,
    dyadic z j = S754_finite (z <? 0) q (Zdigits2 z - 53 - j)
    /\ Zpos q = Z.abs z * 2 ^ (53 - Zdigits2 z)
    /\ Zpos (digits2_pos q) = 53.
Proof.
  intros Hz Hb Hj. unfold dyadic, binary_normalize.
  destruct z as [|p|p]; [congruence | |].
  - destruct (binary_round_exact false p p 0 (- j)) as (q & E & Hq & Hd);
      try lia.
    exists q. rewrite Z.sub_0_r in E. rewrite E.
    split; [f_equal; lia|]. split; assumption.
  - destruct (binary_round_exact true p p 0 (- j)) as (q & E & Hq & Hd);
      try lia.
    exists q. rewrite Z.sub_0_r in E. rewrite E.
    split; [f_equal; simpl Zdigits2 in *; lia|]. split; assumption.
Qed.

(** Rescaling the integer does not change the float. *)
Lemma dyadic_rescale (z j t : Z) :
  0 <= t <= 100 -> Z.abs z < 2 ^ 53 -> -700 <= j <= 700 ->
  dyadic (z * 2 ^ t) (j + t) = dyadic z j.
Proof.
  intros Ht Hb Hj.
  assert (Hp : 0 < 2 ^ t) by (apply Z.pow_pos_nonneg; lia).
  unfold dyadic, binary_normalize.
  destruct z as [|p|p]; [reflexivity | |].
  - assert (Hm : Zpos p * 2 ^ t = Zpos (Z.to_pos (Zpos p * 2 ^ t)))
      by (rewrite Z2Pos.id; lia).
    rewrite Hm.
    destruct (binary_round_exact false (Z.to_pos (Zpos p * 2 ^ t)) p t (- j))
      as (q & E & Hq & _); try lia.
    destruct (binary_round_exact false p p 0 (- j)) as (q' & E' & Hq' & _);
      try lia.
    replace (- (j + t)) with (- j - t) by lia.
    rewrite Z.sub_0_r in E'. rewrite E, E'. f_equal. lia.
  - assert (Hm : Zneg p * 2 ^ t = Zneg (Z.to_pos (Zpos p * 2 ^ t))).
    { change (Zneg (Z.to_pos (Zpos p * 2 ^ t)))
        with (- Zpos (Z.to_pos (Zpos p * 2 ^ t))).
      rewrite Z2Pos.id by lia. change (Zneg p) with (- Zpos p). ring. }
    rewrite Hm.
    destruct (binary_round_exact true (Z.to_pos (Zpos p * 2 ^ t)) p t (- j))
      as (q & E & Hq & _); try lia.
    destruct (binary_round_exact true p p 0 (- j)) as (q' & E' & Hq' & _);
      try lia.
    replace (- (j + t)) with (- j - t) by lia.
    rewrite Z.sub_0_r in E'. rewrite E, E'. f_equal. lia.
Qed.

(** [int()] of an exact float is the integer quotient, rounded toward zero. *)
Lemma to_int_dyadic (z j : Z) :
  Z.abs z < 2 ^ 53 -> 0 <= j <= 700 -> to_int (dyadic z j) = Ok (Z.quot z (2 ^ j)).
Proof.
  intros Hb Hj.
  assert (Hpj : 0 < 2 ^ j) by (apply Z.pow_pos_nonneg; lia).
  destruct (Z.eq_dec z 0) as [->|Hz].
  - simpl. rewrite Z.quot_0_l by lia. reflexivity.
  - destruct (dyadic_nonzero z j Hz Hb) as (q & E & Hq & Hd); [lia|].
    rewrite E. unfold to_int. f_equal.
    assert (Hdz : 1 <= Zdigits2 z <= 53).
    { destruct z as [|p|p]; try congruence.
      - split; [simpl; lia | apply Zdigits2_le; simpl in *; lia].
      - split; [simpl; lia |].
        change (Zdigits2 (Zneg p)) with (Zdigits2 (Zpos p)).
        apply Zdigits2_le; simpl in *; lia. }
    set (d := Zdigits2 z) in *.
    assert (Hsh : Z.shiftl (Zpos q) (d - 53 - j) = Z.abs z / 2 ^ j).
    { replace (d - 53 - j) with (- (53 - d + j)) by lia.
      rewrite Z.shiftl_opp_r, Z.shiftr_div_pow2, Hq by lia.
      rewrite Z.pow_add_r by lia.
      rewrite (Z.mul_comm (2 ^ (53 - d)) (2 ^ j)).
      apply Z.div_mul_cancel_r; [lia|].
      assert (0 < 2 ^ (53 - d)) by (apply Z.pow_pos_nonneg; lia). lia. }
    rewrite Hsh.
    destruct (Z.ltb_spec z 0) as [Hneg|Hpos].
    + rewrite <- (Z.opp_involutive z) at 2.
      rewrite Z.quot_opp_l by lia.
      rewrite Z.quot_div_nonneg by lia.
      replace (Z.abs z) with (- z) by lia. reflexivity.
    + rewrite Z.quot_div_nonneg by lia.
      replace (Z.abs z) with z by lia. reflexivity.
Qed.

Lemma Zdigits2_mono (a b : Z) : 0 < a <= b -> Zdigits2 a <= Zdigits2 b.
Proof.
  intros H. rewrite !Zdigits2_log2 by lia.
  apply Z.add_le_mono_r. apply Z.log2_le_mono. lia.
Qed.

Lemma fmul_dyadic (a b i j : Z) :
  0 <= a < 2 ^ 53 -> 0 <= b < 2 ^ 53 -> a * b < 2 ^ 53 ->
  -300 <= i <= 300 -> -300 <= j <= 300 ->
  fmul (dyadic a i) (dyadic b j) = dyadic (a * b) (i + j).
Proof.
  intros Ha Hb Hab Hi Hj.
  destruct (Z.eq_dec a 0) as [->|Hanz]; [|destruct (Z.eq_dec b 0) as [->|Hbnz]].
  - rewrite Z.mul_0_l. change (dyadic 0 i) with (S754_zero false).
    change (dyadic 0 (i + j)) with (S754_zero false).
    destruct (Z.eq_dec b 0) as [->|Hbnz]; [reflexivity|].
    destruct (dyadic_nonzero b j) as (q & E & _); try lia.
    rewrite E. destruct (Z.ltb_spec b 0); [lia|]. reflexivity.
  - rewrite Z.mul_0_r. change (dyadic 0 j) with (S754_zero false).
    change (dyadic 0 (i + j)) with (S754_zero false).
    destruct (dyadic_nonzero a i) as (q & E & _); try lia.
    rewrite E. destruct (Z.ltb_spec a 0); [lia|]. reflexivity.
  - assert (Hab1 : 1 <= a * b) by nia.
    assert (Ha53 : Z.abs a < 2 ^ 53) by lia.
    assert (Hb53 : Z.abs b < 2 ^ 53) by lia.
    destruct (dyadic_nonzero a i Hanz Ha53) as (qa & Ea & Hqa & Hda); [lia|].
    destruct (dyadic_nonzero b j Hbnz Hb53) as (qb & Eb & Hqb & Hdb); [lia|].
    destruct (dyadic_nonzero (a * b) (i + j)) as (qp & Ep & Hqp & Hdp); try lia.
    rewrite Ea, Eb, Ep.
    destruct (Z.ltb_spec a 0); [lia|]. destruct (Z.ltb_spec b 0); [lia|].
    destruct (Z.ltb_spec (a * b) 0); [lia|].
    replace (Z.abs a) with a in Hqa by lia.
    replace (Z.abs b) with b in Hqb by lia.
    replace (Z.abs (a * b)) with (a * b) in Hqp by lia.
    assert (Hd1 : 1 <= Zdigits2 a <= 53)
      by (split; [destruct a; simpl; lia | apply Zdigits2_le; lia]).
    assert (Hd2 : 1 <= Zdigits2 b <= 53)
      by (split; [destruct b; simpl; lia | apply Zdigits2_le; lia]).
    assert (Hd3 : Zdigits2 a <= Zdigits2 (a * b) <= 53)
      by (split; [apply Zdigits2_mono; nia | apply Zdigits2_le; lia]).
    set (da := Zdigits2 a) in *. set (db := Zdigits2 b) in *.
    set (dp := Zdigits2 (a * b)) in *.
    unfold fmul, SFmul. cbn [xorb].
    rewrite (binary_round_aux_exact false qp (53 - da - db + dp)); try lia.
    + f_equal. lia.
    + assert (Hpw : 2 ^ (53 - da) * 2 ^ (53 - db)
                    = 2 ^ (53 - dp) * 2 ^ (53 - da - db + dp))
        by (rewrite <- !Z.pow_add_r by lia; f_equal; lia).
      rewrite Pos2Z.inj_mul, Hqa, Hqb, Hqp.
      replace (a * 2 ^ (53 - da) * (b * 2 ^ (53 - db)))
        with (a * b * (2 ^ (53 - da) * 2 ^ (53 - db))) by ring.
      rewrite Hpw. ring.
Qed.

Lemma div_eucl_div_mod (a b : Z) : Z.div_eucl a b = (a / b, a mod b).
Proof. unfold Z.div, Z.modulo. destruct (Z.div_eucl a b). reflexivity. Qed.

Lemma of_int_pow2 (k : Z) :
  0 <= k <= 52 -> of_int (2 ^ k) = S754_finite false 4503599627370496 (k - 52).
Proof.
  intros Hk. change (of_int (2 ^ k)) with (dyadic (2 ^ k) 0).
  assert (Hp : 0 < 2 ^ k) by (apply Z.pow_pos_nonneg; lia).
  assert (Hlt : 2 ^ k < 2 ^ 53) by (apply Z.pow_lt_mono_r; lia).
  assert (Hd : Zdigits2 (2 ^ k) = k + 1).
  { apply Zdigits2_unique; [lia|]. replace (k + 1 - 1) with k by lia.
    split; [lia | apply Z.pow_lt_mono_r; lia]. }
  destruct (dyadic_nonzero (2 ^ k) 0) as (q & E & Hq & _); try lia.
  rewrite E, Hd. destruct (Z.ltb_spec (2 ^ k) 0); [lia|].
  rewrite Hd, Z.abs_eq, <- Z.pow_add_r in Hq by lia.
  replace (k + (53 - (k + 1))) with 52 in Hq by lia.
  change (2 ^ 52) with (Zpos 4503599627370496) in Hq.
  inversion Hq. f_equal. lia.
Qed.

(** Division by a power of two is exact. *)
Lemma fdiv_dyadic_pow2 (a i k : Z) :
  0 <= a < 2 ^ 53 -> -300 <= i <= 300 -> 0 <= k <= 52 ->
  fdiv (dyadic a i) (of_int (2 ^ k)) = dyadic a (i + k).
Proof.
  intros Ha Hi Hk. rewrite of_int_pow2 by assumption.
  destruct (Z.eq_dec a 0) as [->|Hanz]; [reflexivity|].
  destruct (dyadic_nonzero a i) as (q & E & Hq & Hd); try lia.
  destruct (dyadic_nonzero a (i + k)) as (q' & E' & Hq' & _); try lia.
  assert (q' = q) by (rewrite <- Hq in Hq'; congruence). subst q'.
  rewrite E, E'. destruct (Z.ltb_spec a 0); [lia|].
  assert (Hda : 1 <= Zdigits2 a <= 53)
    by (split; [destruct a; simpl; lia | apply Zdigits2_le; lia]).
  set (da := Zdigits2 a) in *.
  unfold fdiv, SFdiv, SFdiv_core_binary.
  rewrite Zdigits2_pos, Hd.
  change (Zdigits2 (Zpos 4503599627370496)) with 53.
  rewrite (fexp_normal (53 + (da - 53 - i) - (53 + (k - 52)))) by lia.
  replace (Z.min (53 + (da - 53 - i) - (53 + (k - 52)) - 53)
             (da - 53 - i - (k - 52)))
    with (da - 53 - i - (k - 52) - 53) by lia.
  replace (da - 53 - i - (k - 52) - (da - 53 - i - (k - 52) - 53)) with 53 by lia.
  rewrite Z.shiftl_mul_pow2 by lia.
  rewrite div_eucl_div_mod.
  change (Zpos 4503599627370496) with (2 ^ 52).
  replace (Zpos q * 2 ^ 53) with (2 * Zpos q * 2 ^ 52)
    by (change (2 ^ 53) with (2 * 2 ^ 52); ring).
  rewrite Z.div_mul, Z.mod_mul by (apply Z.pow_nonzero; lia).
  assert (Hloc : new_location (2 ^ 52) 0 = loc_Exact) by reflexivity.
  rewrite Hloc. cbn [xorb].
  rewrite (binary_round_aux_exact false q 1); try lia.
  f_equal. lia.
Qed.

Lemma Zdigits2_opp (z : Z) : Zdigits2 (- z) = Zdigits2 z.
Proof. destruct z; reflexivity. Qed.

Lemma normalize_dyadic (z e : Z) :
  binary_normalize prec emax z e false = dyadic z (- e).
Proof. unfold dyadic. rewrite Z.opp_involutive. reflexivity. Qed.

(** The aligned mantissas of two floats at the same scale [2^(-j)]. *)
Lemma aligned_dyadic (a b j : Z) (qa qb : positive) :
  0 < a < 2 ^ 53 -> 0 < b < 2 ^ 53 ->
  Zpos qa = a * 2 ^ (53 - Zdigits2 a) ->
  Zpos qb = b * 2 ^ (53 - Zdigits2 b) ->
  let ea := Zdigits2 a - 53 - j in
  let eb := Zdigits2 b - 53 - j in
  let ez := Z.min ea eb in
  let t := - j - ez in
  0 <= t <= 52
  /\ Zpos (fst (shl_align qa ea ez)) = a * 2 ^ t
  /\ Zpos (fst (shl_align qb eb ez)) = b * 2 ^ t.
Proof.
  intros Ha Hb Hqa Hqb ea eb ez t.
  assert (Hda : 1 <= Zdigits2 a <= 53)
    by (split; [destruct a; simpl; lia | apply Zdigits2_le; lia]).
  assert (Hdb : 1 <= Zdigits2 b <= 53)
    by (split; [destruct b; simpl; lia | apply Zdigits2_le; lia]).
  split; [unfold t, ez, ea, eb; lia|].
  rewrite !shl_align_fst by (unfold ez; lia).
  rewrite Hqa, Hqb, <- !Z.mul_assoc, <- !Z.pow_add_r
    by (unfold ez, ea, eb; lia).
  split; f_equal; f_equal; unfold t, ez, ea, eb; lia.
Qed.

Lemma fadd_dyadic (a b j : Z) :
  0 <= a -> 0 <= b -> a + b < 2 ^ 53 -> -300 <= j <= 300 ->
  fadd (dyadic a j) (dyadic b j) = dyadic (a + b) j.
Proof.
  intros Ha Hb Hab Hj.
  destruct (Z.eq_dec a 0) as [->|Hanz]; [|destruct (Z.eq_dec b 0) as [->|Hbnz]].
  - rewrite Z.add_0_l. change (dyadic 0 j) with (S754_zero false).
    destruct (Z.eq_dec b 0) as [->|Hbnz]; [reflexivity|].
    destruct (dyadic_nonzero b j) as (q & E & _); try lia.
    rewrite E. reflexivity.
  - rewrite Z.add_0_r. change (dyadic 0 j) with (S754_zero false).
    destruct (dyadic_nonzero a j) as (q & E & _); try lia.
    rewrite E. reflexivity.
  - destruct (dyadic_nonzero a j) as (qa & Ea & Hqa & _); try lia.
    destruct (dyadic_nonzero b j) as (qb & Eb & Hqb & _); try lia.
    rewrite Z.abs_eq in Hqa, Hqb by lia.
    destruct (aligned_dyadic a b j qa qb) as (Ht & HA & HB); try lia;
      try assumption.
    rewrite Ea, Eb.
    destruct (Z.ltb_spec a 0); [lia|]. destruct (Z.ltb_spec b 0); [lia|].
    unfold fadd, SFadd. cbn [cond_Zopp]. rewrite HA, HB.
    rewrite normalize_dyadic, <- Z.mul_add_distr_r.
    set (t := - j - Z.min (Zdigits2 a - 53 - j) (Zdigits2 b - 53 - j)) in *.
    replace (- Z.min (Zdigits2 a - 53 - j) (Zdigits2 b - 53 - j)) with (j + t)
      by (unfold t; lia).
    apply dyadic_rescale; lia.
Qed.

Lemma fsub_dyadic (a b j : Z) :
  0 <= a < 2 ^ 53 -> 0 <= b < 2 ^ 53 -> -300 <= j <= 300 ->
  fsub (dyadic a j) (dyadic b j) = dyadic (a - b) j.
Proof.
  intros Ha Hb Hj.
  destruct (Z.eq_dec a 0) as [->|Hanz]; [|destruct (Z.eq_dec b 0) as [->|Hbnz]].
  - rewrite Z.sub_0_l. change (dyadic 0 j) with (S754_zero false).
    destruct (Z.eq_dec b 0) as [->|Hbnz]; [reflexivity|].
    destruct (dyadic_nonzero b j) as (q & E & Hq & _); try lia.
    destruct (dyadic_nonzero (- b) j) as (q' & E' & Hq' & _); try lia.
    rewrite Zdigits2_opp in E', Hq'. rewrite Z.abs_opp in Hq'.
    assert (q' = q) by (rewrite <- Hq in Hq'; congruence). subst q'.
    rewrite E, E'.
    destruct (Z.ltb_spec b 0); [lia|]. destruct (Z.ltb_spec (- b) 0); [|lia].
    reflexivity.
  - rewrite Z.sub_0_r. change (dyadic 0 j) with (S754_zero false).
    destruct (dyadic_nonzero a j) as (q & E & _); try lia.
    rewrite E. reflexivity.
  - destruct (dyadic_nonzero a j) as (qa & Ea & Hqa & _); try lia.
    destruct (dyadic_nonzero b j) as (qb & Eb & Hqb & _); try lia.
    rewrite Z.abs_eq in Hqa, Hqb by lia.
    destruct (aligned_dyadic a b j qa qb) as (Ht & HA & HB); try lia;
      try assumption.
    rewrite Ea, Eb.
    destruct (Z.ltb_spec a 0); [lia|]. destruct (Z.ltb_spec b 0); [lia|].
    unfold fsub, SFsub. cbn [cond_Zopp]. rewrite HA, HB.
    rewrite normalize_dyadic, <- Z.mul_sub_distr_r.
    set (t := - j - Z.min (Zdigits2 a - 53 - j) (Zdigits2 b - 53 - j)) in *.
    replace (- Z.min (Zdigits2 a - 53 - j) (Zdigits2 b - 53 - j)) with (j + t)
      by (unfold t; lia).
    apply dyadic_rescale; lia.
Qed.



(** ** The renderer runs to completion *)

Lemma nice_f0_25 : nice (-54) (-54) f0_25 /\ fsign f0_25 = false.
Proof. simpl. repeat split; lia. Qed.
Lemma nice_f0_2 : nice (-55) (-55) f0_2 /\ fsign f0_2 = false.
Proof. simpl. repeat split; lia. Qed.
Lemma nice_f0_3 : nice (-54) (-54) f0_3 /\ fsign f0_3 = false.
Proof. simpl. repeat split; lia. Qed.
Lemma nice_f0_4 : nice (-54) (-54) f0_4 /\ fsign f0_4 = false.
Proof. simpl. repeat split; lia. Qed.
Lemma nice_f0_8 : nice (-53) (-53) f0_8 /\ fsign f0_8 = false.
Proof. simpl. repeat split; lia. Qed.

Lemma INT_MAX_lt : INT_MAX < 2 ^ 31.
Proof. reflexivity. Qed.

(** [scale = size / 1024] is a non-negative float below [2^23]. *)
Lemma scale_ok (size : Z) :
  0 <= size <= INT_MAX ->
  exists scale, truediv size 1024 = Ok scale
                /\ nice (-63) (-30) scale /\ fsign scale = false.
Proof.
  intros Hs. pose proof INT_MAX_lt as HM.
  unfold truediv. simpl (1024 =? 0).
  eexists. split; [reflexivity|].
  assert (Hn : nice (-52) (31 - 52) (of_int size)) by (apply nice_of_int; lia).
  assert (Hd : nice (-42) (-42) (of_int 1024)) by (vm_compute; repeat split; congruence).
  assert (Hz : forall s, of_int 1024 <> S754_zero s) by (intros s; vm_compute; discriminate).
  destruct (nice_fdiv _ _ _ _ _ _ Hn Hd Hz) as [H1 H2]; try lia.
  split.
  - eapply nice_weaken; [| |exact H1]; lia.
  - rewrite H2, fsign_of_int by (try apply Z.lt_trans with (2 ^ 31); lia).
    reflexivity.
Qed.

(** [int(k * scale)] for a constant [k] of the script. *)
Lemma scaled_ok (k : Z) (scale : float) :
  0 <= k < 1024 -> nice (-63) (-30) scale -> fsign scale = false ->
  exists v, scaled k scale = Ok v /\ 0 <= v < 2 ^ 35.
Proof.
  intros Hk Hn Hsg. unfold scaled.
  assert (Hkn : nice (-52) (10 - 52) (of_int k)) by (apply nice_of_int; simpl; lia).
  destruct (nice_fmul _ _ _ _ _ _ Hkn Hn) as [H1 H2]; try lia.
  destruct (to_int_nice _ _ _ H1) as (v & Ev & Hpos & Hb); [lia|].
  exists v. split; [exact Ev|].
  rewrite H2, Hsg, fsign_of_int in Hpos by (simpl; lia).
  specialize (Hpos eq_refl).
  replace (-30 + (10 - 52) + 54 + 53) with 35 in Hb by lia. lia.
Qed.

(** [int(n * f)] for an int [n] and a literal [f] of the script. *)
Lemma frac_ok (n a : Z) (f : float) :
  0 <= a <= 50 -> 0 <= n < 2 ^ a -> nice (-55) (-53) f -> fsign f = false ->
  exists v, frac n f = Ok v /\ 0 <= v < 2 ^ (a + 2).
Proof.
  intros Ha Hn Hf Hsg. unfold frac.
  assert (Hnn : nice (-52) (a - 52) (of_int n)) by (apply nice_of_int; lia).
  assert (Hn53 : Z.abs n < 2 ^ 53).
  { apply Z.lt_le_trans with (2 ^ a); [lia | apply Z.pow_le_mono_r; lia]. }
  destruct (nice_fmul _ _ _ _ _ _ Hnn Hf) as [H1 H2]; try lia.
  destruct (to_int_nice _ _ _ H1) as (v & Ev & Hpos & Hb); [lia|].
  exists v. split; [exact Ev|].
  rewrite H2, Hsg, fsign_of_int in Hpos by lia.
  specialize (Hpos eq_refl).
  replace (a - 52 + -53 + 54 + 53) with (a + 2) in Hb by lia. lia.
Qed.

Lemma check_box_ok (xy0 xy1 : point) :
  fst xy0 <= fst xy1 -> snd xy0 <= snd xy1 -> check_box xy0 xy1 = Ok tt.
Proof.
  intros Hx Hy. unfold check_box.
  destruct (Z.ltb_spec (fst xy1) (fst xy0)); [lia|].
  destruct (Z.ltb_spec (snd xy1) (snd xy0)); [lia|]. reflexivity.
Qed.

Lemma MAX_DIM_lt : MAX_DIM < INT_MAX.
Proof. reflexivity. Qed.

Lemma MAX_DIM_eq : MAX_DIM = 536870910.
Proof. reflexivity. Qed.

(** Goals that compare a number with [MAX_DIM]. *)
Ltac dim_bound := rewrite ?MAX_DIM_eq in *; unfold INT_MAX in *; lia.

(** [Image.new] on a square size, by the range of the size. *)
Lemma Image_new_square (m : mode) (size : Z) (c : color) :
  Image_new m (size, size) c
  = if size <? 0 then Raise (ValueError "Width and height must be >= 0")
    else if LONG_MAX <? size then
      Raise (OverflowError "Python int too large to convert to C long")
    else if INT_MAX <? size then
      Raise (OverflowError "signed integer is greater than maximum")
    else if MAX_DIM <? size then Raise (MemoryError "")
    else Ok (mkImage m (size, size) c []).
Proof.
  unfold Image_new, c_int.
  assert (H1 : LONG_MIN < INT_MIN) by reflexivity.
  assert (H2 : INT_MIN < 0) by reflexivity.
  destruct (Z.ltb_spec size 0); cbn [orb]; [reflexivity|].
  destruct (Z.ltb_spec size LONG_MIN); [lia|].
  destruct (Z.ltb_spec size INT_MIN); [lia|].
  rewrite orb_false_r.
  destruct (Z.ltb_spec LONG_MAX size); [reflexivity|].
  destruct (Z.ltb_spec INT_MAX size); reflexivity.
Qed.

Lemma Image_new_ok (m : mode) (size : Z) (c : color) :
  0 <= size <= MAX_DIM -> Image_new m (size, size) c = Ok (mkImage m (size, size) c []).
Proof.
  intros Hs. rewrite Image_new_square.
  assert (H1 : MAX_DIM < INT_MAX) by reflexivity.
  assert (H2 : INT_MAX < LONG_MAX) by reflexivity.
  destruct (Z.ltb_spec size 0); [lia|].
  destruct (Z.ltb_spec LONG_MAX size); [lia|].
  destruct (Z.ltb_spec INT_MAX size); [lia|].
  destruct (Z.ltb_spec MAX_DIM size); [lia|]. reflexivity.
Qed.

Lemma Image_new_inv (m : mode) (size : Z) (c : color) (im : Image) :
  Image_new m (size, size) c = Ok im ->
  0 <= size <= MAX_DIM /\ im = mkImage m (size, size) c [].
Proof.
  rewrite Image_new_square.
  destruct (Z.ltb_spec size 0); [discriminate|].
  destruct (Z.ltb_spec LONG_MAX size); [discriminate|].
  destruct (Z.ltb_spec INT_MAX size); [discriminate|].
  destruct (Z.ltb_spec MAX_DIM size); [discriminate|].
  intros E. inversion E. split; [lia | reflexivity].
Qed.

Ltac bind_head c :=
  match c with
  | rbind ?c' _ => bind_head c'
  | _ => c
  end.

Ltac inv_bind H :=
  match type of H with
  | rbind ?c _ = Ok _ =>
      let h := bind_head c in
      let E := fresh "E" in
      destruct h eqn:E; cbn [rbind] in H; [|discriminate H]
  end.

(** Whatever [draw_layer] returns is the layer described by [layer_calls]
    and [locals_of]. *)
Lemma draw_layer_inv (size : Z) (img : Image) (l : locals) :
  draw_layer size = Ok (img, l) ->
  exists scale radius,
    locals_of size scale radius l
    /\ img = mkImage RGBA (size, size) (rgba 0 0 0 0) (layer_calls l radius).
Proof.
  unfold draw_layer. intros H.
  inv_bind H. apply Image_new_inv in E. destruct E as [_ ->].
  unfold draw_rounded_rectangle, draw_polygon, draw_ellipse in H.
  cbn [draw_accents] in H.
  unfold draw_ellipse in H. cbv beta in H.
  repeat inv_bind H.
  inversion H; subst img l; clear H.
  eexists _, _. split.
  - unfold locals_of; simpl.
    repeat (split; [first [eassumption | reflexivity]|]).
    split; [eexists; split; [eassumption | reflexivity]|].
    repeat (split; [first [eassumption | reflexivity]|]).
    reflexivity.
  - reflexivity.
Qed.

Lemma bubble_y_ok (size bs : Z) (scale : float) :
  0 <= size <= INT_MAX -> 0 <= bs < 2 ^ 35 -> nice (-63) (-30) scale ->
  exists v, to_int (fsub (of_int ((size - bs) / 2))
                         (fmul (of_int 40) scale)) = Ok v.
Proof.
  intros Hs Hb Hn. pose proof INT_MAX_lt as HM.
  change (2 ^ 35) with 34359738368 in Hb. change (2 ^ 31) with 2147483648 in HM.
  assert (Hc : Z.abs ((size - bs) / 2) < 2 ^ 36).
  { change (2 ^ 36) with 68719476736.
    assert (-34359738368 <= (size - bs) / 2 <= 2147483648)
      by (split; [apply Z.div_le_lower_bound | apply Z.div_le_upper_bound]; lia).
    lia. }
  assert (H1 : nice (-52) (36 - 52) (of_int ((size - bs) / 2)))
    by (apply nice_of_int; [lia | exact Hc]).
  assert (H40 : nice (-52) (6 - 52) (of_int 40)) by (apply nice_of_int; simpl; lia).
  destruct (nice_fmul _ _ _ _ _ _ H40 Hn) as [H2 _]; try lia.
  pose proof (nice_fsub _ _ _ _ _ _ H1 H2) as H3.
  destruct (to_int_nice _ _ _ (H3 ltac:(lia) ltac:(lia))) as (v & Ev & _); [lia|].
  exists v. exact Ev.
Qed.

Lemma draw_layer_total (size : Z) :
  0 <= size <= MAX_DIM -> exists img l, draw_layer size = Ok (img, l).
Proof.
  intros Hdim. unfold draw_layer.
  rewrite Image_new_ok by assumption. cbn [rbind].
  assert (Hs : 0 <= size <= INT_MAX) by (pose proof MAX_DIM_lt; lia).
  destruct (scale_ok size Hs) as (scale & E & Hn & Hsg). rewrite E. cbn [rbind].
  destruct (scaled_ok 700 scale) as (bs & Ebs & Bbs); try assumption; try lia.
  rewrite Ebs. cbn [rbind].
  destruct (bubble_y_ok size bs scale Hs Bbs Hn) as (by_ & Eby). rewrite Eby. cbn [rbind].
  destruct (scaled_ok 8 scale) as (so & Eso & Bso); try assumption; try lia.
  rewrite Eso. cbn [rbind].
  destruct (frac_ok bs 35 f0_25) as (rad & Erad & Brad);
    try apply nice_f0_25; try lia;
    [eapply nice_weaken; [| |apply nice_f0_25]; lia|].
  rewrite Erad. cbn [rbind].
  unfold draw_rounded_rectangle.
  rewrite !check_box_ok by (simpl; lia). cbn [rbind].
  destruct (scaled_ok 60 scale) as (ts & Ets & Bts); try assumption; try lia.
  rewrite Ets. cbn [rbind].
  destruct (frac_ok bs 35 f0_2) as (ti & Eti & Bti);
    try apply nice_f0_2; try lia;
    [eapply nice_weaken; [| |apply nice_f0_2]; lia|].
  rewrite Eti. cbn [rbind]. unfold draw_polygon. cbn [rbind].
  destruct (scaled_ok 200 scale) as (ss & Ess & Bss); try assumption; try lia.
  rewrite Ess. cbn [rbind].
  destruct (frac_ok ss 35 f0_3) as (pw & Epw & Bpw);
    try apply nice_f0_3; try lia;
    [eapply nice_weaken; [| |apply nice_f0_3]; lia|].
  rewrite Epw. cbn [rbind].
  destruct (frac_ok ss 35 f0_4) as (sm & Esm & Bsm);
    try apply nice_f0_4; try lia;
    [eapply nice_weaken; [| |apply nice_f0_4]; lia|].
  rewrite Esm. cbn [rbind].
  destruct (frac_ok sm 37 f0_3) as (sw & Esw & Bsw);
    try apply nice_f0_3; try lia;
    [eapply nice_weaken; [| |apply nice_f0_3]; lia|].
  rewrite Esw. cbn [rbind].
  destruct (frac_ok ss 35 f0_8) as (dd & Edd & Bdd);
    try apply nice_f0_8; try lia;
    [eapply nice_weaken; [| |apply nice_f0_8]; lia|].
  rewrite Edd. cbn [rbind].
  destruct (scaled_ok 20 scale) as (ds & Eds & Bds); try assumption; try lia.
  rewrite Eds. cbn [rbind].
  cbn [draw_accents]. unfold draw_ellipse.
  rewrite !check_box_ok by (simpl; lia). cbn [rbind].
  eexists _, _. reflexivity.
Qed.

Lemma gradient_channel_ok (light dark : Z) (ratio : float) :
  0 <= light < 256 -> 0 <= dark < 256 -> nice (-84) (-20) ratio ->
  exists v, gradient_channel light dark ratio = Ok v.
Proof.
  intros Hl Hd Hr. unfold gradient_channel.
  assert (H1 : nice (-52) (1 - 52) (of_int 1)) by (apply nice_of_int; simpl; lia).
  assert (HL : nice (-52) (8 - 52) (of_int light)) by (apply nice_of_int; simpl; lia).
  assert (HD : nice (-52) (8 - 52) (of_int dark)) by (apply nice_of_int; simpl; lia).
  pose proof (nice_fsub _ _ _ _ _ _ H1 Hr ltac:(lia) ltac:(lia)) as Hs.
  destruct (nice_fmul _ _ _ _ _ _ HL Hs) as [Ha _]; try lia.
  destruct (nice_fmul _ _ _ _ _ _ HD Hr) as [Hb _]; try lia.
  pose proof (nice_fadd _ _ _ _ _ _ Ha Hb ltac:(lia) ltac:(lia)) as Hsum.
  destruct (to_int_nice _ _ _ Hsum) as (v & Ev & _); [lia|].
  exists v. exact Ev.
Qed.

Lemma gradient_color_ok (size y : Z) :
  0 <= y < size -> size <= INT_MAX -> exists c, gradient_color size y = Ok c.
Proof.
  intros Hy Hs. pose proof INT_MAX_lt as HM.
  assert (H53 : 2 ^ 31 < 2 ^ 53) by reflexivity.
  unfold gradient_color, truediv.
  destruct (Z.eqb_spec size 0); [lia|]. cbn [rbind].
  assert (Hny : nice (-52) (31 - 52) (of_int y)) by (apply nice_of_int; lia).
  assert (Hns : nice (-52) (31 - 52) (of_int size)) by (apply nice_of_int; lia).
  assert (Hz : forall s, of_int size <> S754_zero s) by (apply of_int_nonzero; lia).
  destruct (nice_fdiv _ _ _ _ _ _ Hny Hns Hz) as [Hr _]; try lia.
  assert (Hr' : nice (-84) (-20) (fdiv (of_int y) (of_int size)))
    by (eapply nice_weaken; [| |exact Hr]; lia).
  destruct (gradient_channel_ok (red sky_blue_light) (red sky_blue)
              (fdiv (of_int y) (of_int size))) as (r & Er);
    [simpl; lia | simpl; lia | exact Hr' |].
  destruct (gradient_channel_ok (green sky_blue_light) (green sky_blue)
              (fdiv (of_int y) (of_int size))) as (g & Eg);
    [simpl; lia | simpl; lia | exact Hr' |].
  destruct (gradient_channel_ok (blue sky_blue_light) (blue sky_blue)
              (fdiv (of_int y) (of_int size))) as (b & Eb);
    [simpl; lia | simpl; lia | exact Hr' |].
  rewrite Er, Eg, Eb. cbn [rbind]. eexists. reflexivity.
Qed.

Lemma in_range (n y : Z) : In y (range n) <-> 0 <= y < n.
Proof.
  unfold range. rewrite in_map_iff. split.
  - intros (k & <- & Hk). apply in_seq in Hk. lia.
  - intros Hy. exists (Z.to_nat y). split; [lia|]. apply in_seq. lia.
Qed.

(** The gradient loop paints one line per scanline, in order, and touches
    neither the mode nor the size. *)
Lemma gradient_rows_ok (size : Z) (ys : list Z) :
  size <= INT_MAX -> (forall y, In y ys -> 0 <= y < size) ->
  forall m sz col calls,
  exists rows,
    gradient_rows size ys (mkImage m sz col calls)
    = Ok (mkImage m sz col (calls ++ rows))
    /\ Forall2 (row_call size) ys rows.
Proof.
  intros Hs. induction ys as [|y ys IH]; intros Hys m sz col calls.
  - exists []. simpl. rewrite app_nil_r. split; [reflexivity | constructor].
  - destruct (gradient_color_ok size y) as (c & Ec); [apply Hys; left; reflexivity | exact Hs |].
    cbn [gradient_rows]. rewrite Ec. cbn [rbind].
    unfold draw_line. cbn [rbind record_call].
    destruct (IH (fun y' Hy' => Hys y' (or_intror Hy')) m sz col
                (calls ++ [Draw (line (0, y) (size, y) c)])) as (rows & Erows & Hrows).
    exists (Draw (line (0, y) (size, y) c) :: rows). split.
    + rewrite Erows. rewrite <- app_assoc. reflexivity.
    + constructor; [exists c; split; [exact Ec | reflexivity] | exact Hrows].
Qed.

(** The renderer returns for every size the imaging core accepts, and what
    it returns is the gradient with the layer pasted over it. *)
Lemma draw_urgood_icon_ok (size : Z) :
  0 <= size <= MAX_DIM ->
  exists layer l rows,
    draw_layer size = Ok (layer, l)
    /\ Forall2 (row_call size) (range size) rows
    /\ draw_urgood_icon size
       = Ok (mkImage RGB (size, size) (rgb 0 0 0)
               (rows ++ [Paste layer (0, 0) layer])).
Proof.
  intros Hs.
  assert (Hint : size <= INT_MAX) by (pose proof MAX_DIM_lt; lia).
  destruct (draw_layer_total size Hs) as (layer & l & El).
  destruct (gradient_rows_ok size (range size) Hint
              (fun y Hy => proj1 (in_range size y) Hy)
              RGB (size, size) (rgb 0 0 0) []) as (rows & Erows & Hrows).
  exists layer, l, rows. split; [exact El|]. split; [exact Hrows|].
  unfold draw_urgood_icon. rewrite El. cbn [rbind fst].
  rewrite Image_new_ok by assumption. cbn [rbind].
  rewrite Erows. cbn [rbind app].
  unfold Image_paste. rewrite !Z.eqb_refl. reflexivity.
Qed.

(** ** The renderer on objects

    [draw_urgood_icon_at] does on objects what [draw_urgood_icon] computes
    from the size: the two are unfolded side by side, one statement of the
    script at a time. *)

Ltac mem_simpl :=
  repeat (progress
    (cbv beta iota zeta delta
       [mbind value mret allocate in_place store Image_new_at ImageDraw_Draw
        rounded_rectangle_at polygon_at ellipse_at line_at paste_at accents_at
        draw_accents draw_rounded_rectangle draw_polygon draw_ellipse draw_line
        rbind fst snd];
     cbn [next obj];
     rewrite ?Nat.eqb_refl)).

Ltac mem_step :=
  match goal with
  | |- context [match ?c with Ok _ => _ | Raise _ => _ end] =>
      lazymatch c with
      | context [match _ with Ok _ => _ | Raise _ => _ end] => fail
      | _ => destruct c as [?|?]
      end
  end.

Ltac other_object :=
  repeat match goal with
         | |- context [Nat.eqb ?a ?b] =>
             destruct (Nat.eqb_spec a b); [lia || contradiction|]
         end.

Ltac frame :=
  split; [cbn [next]; lia
         | intros ? ?; cbn [obj]; other_object; reflexivity].

(** Lines 20 to 123 allocate one object, the layer, and touch no other. *)
Lemma draw_layer_at_refines (size : Z) (h : heap) :
  match draw_layer size with
  | Ok (layer, _) =>
      exists h', draw_layer_at size h = (Ok (next h), h')
                 /\ next h' = S (next h)
                 /\ obj h' (next h) = layer
                 /\ (forall r, r <> next h -> obj h' r = obj h r)
  | Raise e =>
      exists h', draw_layer_at size h = (Raise e, h') /\ preserves h h'
  end.
Proof.
  unfold draw_layer, draw_layer_at, preserves.
  mem_simpl.
  repeat (mem_step; mem_simpl;
          try (eexists; split; [reflexivity | frame])).
  eexists. split; [reflexivity|]. cbn [next obj]. rewrite ?Nat.eqb_refl.
  split; [reflexivity|]. split; [reflexivity|].
  intros r Hr. other_object. reflexivity.
Qed.

(** The gradient loop changes the object it draws on and no other. *)
Lemma gradient_rows_at_refines (size : Z) (ys : list Z) (r : ref) (h : heap) :
  match gradient_rows size ys (obj h r) with
  | Ok im =>
      exists h', gradient_rows_at size ys r h = (Ok tt, h')
                 /\ next h' = next h
                 /\ obj h' r = im
                 /\ (forall r', r' <> r -> obj h' r' = obj h r')
  | Raise e =>
      exists h', gradient_rows_at size ys r h = (Raise e, h')
                 /\ next h' = next h
                 /\ (forall r', r' <> r -> obj h' r' = obj h r')
  end.
Proof.
  revert h. induction ys as [|y ys IH]; intros h.
  - cbn [gradient_rows gradient_rows_at]. exists h. repeat split; reflexivity.
  - cbn [gradient_rows gradient_rows_at]. unfold line_at, draw_line. mem_simpl.
    destruct (gradient_color size y) as [c|e].
    + specialize (IH (store r (record_call (obj h r)
                                 (Draw (line (0, y) (size, y) c))) h)).
      cbn [obj store next] in IH. rewrite Nat.eqb_refl in IH.
      unfold store in IH.
      destruct (gradient_rows size ys _) as [im|e].
      * destruct IH as (h' & E & Hn & Ho & Hf). exists h'.
        split; [exact E|]. split; [exact Hn|]. split; [exact Ho|].
        intros r' Hr'. rewrite (Hf r' Hr'). cbn [obj].
        destruct (Nat.eqb_spec r' r); [contradiction | reflexivity].
      * destruct IH as (h' & E & Hn & Hf). exists h'.
        split; [exact E|]. split; [exact Hn|].
        intros r' Hr'. rewrite (Hf r' Hr'). cbn [obj].
        destruct (Nat.eqb_spec r' r); [contradiction | reflexivity].
    + exists h. repeat split; reflexivity.
Qed.

Lemma mbind_eq {A B} (c : mem A) (k : A -> mem B) (h : heap) :
  mbind c k h
  = match c h with
    | (Ok a, h') => k a h'
    | (Raise e, h') => (Raise e, h')
    end.
Proof. reflexivity. Qed.

(** A call allocates the layer and the result, in this order, and leaves
    every object it found as it was. *)
Lemma draw_urgood_icon_at_refines (size : Z) (h : heap) :
  match draw_urgood_icon size with
  | Ok im =>
      exists h', draw_urgood_icon_at size h = (Ok (S (next h)), h')
                 /\ next h' = S (S (next h))
                 /\ obj h' (S (next h)) = im
                 /\ preserves h h'
  | Raise e =>
      exists h', draw_urgood_icon_at size h = (Raise e, h') /\ preserves h h'
  end.
Proof.
  unfold draw_urgood_icon, draw_urgood_icon_at.
  rewrite mbind_eq.
  pose proof (draw_layer_at_refines size h) as HL.
  destruct (draw_layer size) as [[layer l]|e]; cbn [rbind fst].
  - destruct HL as (h1 & E1 & Hn1 & Ho1 & Hf1). rewrite E1.
    assert (P1 : preserves h h1)
      by (split; [lia | intros r Hr; apply Hf1; lia]).
    unfold Image_new_at, ImageDraw_Draw. rewrite !mbind_eq.
    unfold value, allocate, mret. rewrite Hn1.
    destruct (Image_new RGB (size, size) (rgb 0 0 0)) as [im0|e]; cbn [rbind];
      [|exists h1; split; [reflexivity | exact P1]].
    rewrite !mbind_eq.
    set (h2 := mkHeap (S (S (next h)))
                 (fun r => if Nat.eqb r (S (next h)) then im0 else obj h1 r)).
    pose proof (gradient_rows_at_refines size (range size) (S (next h)) h2) as HG.
    cbn [obj h2] in HG. rewrite Nat.eqb_refl in HG. fold h2 in HG.
    destruct (gradient_rows size (range size) im0) as [im1|e]; cbn [rbind].
    + destruct HG as (h3 & E3 & Hn3 & Ho3 & Hf3). rewrite E3.
      cbn [next h2] in Hn3.
      assert (Hlayer : obj h3 (next h) = layer).
      { rewrite Hf3 by lia. cbn [obj h2].
        destruct (Nat.eqb_spec (next h) (S (next h))); [lia | exact Ho1]. }
      unfold paste_at, in_place. rewrite !mbind_eq. cbv beta. rewrite Ho3, Hlayer.
      destruct (Image_paste im1 layer (0, 0) layer) as [im2|e]; cbn [rbind].
      * eexists. split; [reflexivity|]. cbn [next obj store].
        rewrite Nat.eqb_refl. split; [exact Hn3|]. split; [reflexivity|].
        split; [cbn [next store]; lia|]. intros r Hr. cbn [obj store].
        destruct (Nat.eqb_spec r (S (next h))); [lia|].
        rewrite Hf3 by lia. cbn [obj h2].
        destruct (Nat.eqb_spec r (S (next h))); [lia|]. apply Hf1. lia.
      * exists h3. split; [reflexivity|]. split; [lia|].
        intros r Hr. rewrite Hf3 by lia. cbn [obj h2].
        destruct (Nat.eqb_spec r (S (next h))); [lia|]. apply Hf1. lia.
    + destruct HG as (h3 & E3 & Hn3 & Hf3). rewrite E3.
      exists h3. split; [reflexivity|]. split; [cbn [next h2] in Hn3; lia|].
      intros r Hr. rewrite Hf3 by lia. cbn [obj h2].
      destruct (Nat.eqb_spec r (S (next h))); [lia|]. apply Hf1. lia.
  - destruct HL as (h1 & E1 & P1). rewrite E1. exists h1.
    split; [reflexivity | exact P1].
Qed.

(** The outcome of a call on objects, from the outcome of the function of
    the size alone. *)
Lemma draw_urgood_icon_at_outcome (size : Z) (h : heap) :
  preserves h (snd (draw_urgood_icon_at size h))
  /\ (forall e, fst (draw_urgood_icon_at size h) = Raise e
                <-> draw_urgood_icon size = Raise e)
  /\ (forall p, fst (draw_urgood_icon_at size h) = Ok p ->
        p = S (next h)
        /\ next (snd (draw_urgood_icon_at size h)) = S p
        /\ draw_urgood_icon size = Ok (obj (snd (draw_urgood_icon_at size h)) p)).
Proof.
  pose proof (draw_urgood_icon_at_refines size h) as H.
  destruct (draw_urgood_icon size) as [im|e].
  - destruct H as (h' & E & Hn & Ho & Hp). rewrite E. cbn [fst snd].
    split; [exact Hp|]. split.
    + intros e. split; discriminate.
    + intros p Ep. injection Ep as <-. rewrite Ho. repeat split. exact Hn.
  - destruct H as (h' & E & Hp). rewrite E. cbn [fst snd].
    split; [exact Hp|]. split.
    + intros e'. split; intros H; injection H as ->; reflexivity.
    + intros p Ep. discriminate Ep.
Qed.

(** ** The driver *)

Lemma with_output_id (w : world) : with_output w (files w) (trace w) = w.
Proof. destruct w; reflexivity. Qed.

Lemma generate_or_report_spec (icon_dir : string) (entry : string * Z) (w : world) :
  generate_or_report icon_dir entry w
  = (Done tt,
     with_output w (files w ++ entry_files w icon_dir entry)
                   (trace w ++ entry_trace w icon_dir entry)).
Proof.
  destruct entry as [filename size], w as [sd pil ex aw we ee fs tr].
  cbv beta delta
    [generate_or_report try_except generate_icon Image_save print lift bind emit
     entry_trace entry_files with_output failure_report save_failure].
  cbn [fst snd script_dir pillow_installed path_exists accepts_write
         write_error empty_image_error files trace].
  destruct (draw_urgood_icon size) as [img|e];
    cbn [fst snd script_dir pillow_installed path_exists accepts_write
         write_error empty_image_error files trace].
  - destruct (aw (joinpath icon_dir filename));
      cbn [fst snd script_dir pillow_installed path_exists accepts_write
         write_error empty_image_error files trace];
      [destruct (is_empty img);
       cbn [fst snd script_dir pillow_installed path_exists accepts_write write_error
            empty_image_error files
            trace]|].
    + rewrite app_nil_r, <- !app_assoc. reflexivity.
    + rewrite <- !app_assoc. reflexivity.
    + rewrite app_nil_r, <- !app_assoc. reflexivity.
  - rewrite app_nil_r, <- !app_assoc. reflexivity.
Qed.

(** The loop never stops early: every entry contributes its own events
    and files, in list order. *)
Lemma generate_all_spec (icon_dir : string) (entries : list (string * Z)) (w : world) :
  generate_all icon_dir entries w
  = (Done tt,
     with_output w (files w ++ flat_map (entry_files w icon_dir) entries)
                   (trace w ++ flat_map (entry_trace w icon_dir) entries)).
Proof.
  unfold generate_all. revert w.
  induction entries as [|entry entries IH]; intros w.
  - simpl. rewrite !app_nil_r, with_output_id. reflexivity.
  - cbn [for_each]. unfold bind at 1. rewrite generate_or_report_spec, IH.
    unfold with_output.
    cbn [script_dir pillow_installed path_exists accepts_write write_error
         empty_image_error files trace flat_map].
    rewrite <- !app_assoc. reflexivity.
Qed.

Lemma main_found (w : world) :
  let icon_dir := icon_dir_of (script_dir w) in
  path_exists w icon_dir = true ->
  main w
  = (Done tt,
     with_output w
       (files w ++ flat_map (entry_files w icon_dir) all_sizes)
       (trace w ++ opening ++ flat_map (entry_trace w icon_dir) all_sizes
        ++ closing)).
Proof.
  intros icon_dir Hdir. unfold main.
  unfold bind at 1. unfold gets at 1.
  unfold bind at 1. unfold gets at 1. fold icon_dir. rewrite Hdir.
  cbn [negb]. unfold bind at 1. unfold ret at 1.
  unfold bind at 1. unfold print at 1, emit at 1.
  unfold bind at 1. rewrite generate_all_spec.
  destruct w as [sd pil ex aw we ee fs tr].
  cbv beta delta [bind print emit with_output opening closing].
  cbn [fst snd script_dir pillow_installed path_exists accepts_write
         write_error empty_image_error files trace].
  rewrite <- !app_assoc. reflexivity.
Qed.

Lemma main_missing (w : world) :
  let icon_dir := icon_dir_of (script_dir w) in
  path_exists w icon_dir = false ->
  main w
  = (Exited 1,
     with_output w (files w)
       (trace w ++ [Print ("❌ Icon directory not found: " ++ icon_dir)%string])).
Proof.
  intros icon_dir Hdir. unfold main.
  unfold bind at 1. unfold gets at 1.
  unfold bind at 1. unfold gets at 1. fold icon_dir. rewrite Hdir.
  cbn [negb]. destruct w as [sd pil ex aw we ee fs tr].
  cbv beta delta [bind print emit exit with_output].
  cbn [fst snd script_dir pillow_installed path_exists accepts_write
         write_error empty_image_error files trace].
  reflexivity.
Qed.

Lemma program_with_pillow (w : world) :
  pillow_installed w = true -> program w = main w.
Proof.
  intros Hpil. unfold program. unfold bind at 1. unfold gets at 1.
  rewrite Hpil. unfold bind at 1. unfold ret at 1. reflexivity.
Qed.

Lemma program_without_pillow (w : world) :
  pillow_installed w = false ->
  program w
  = (Exited 1,
     with_output w (files w)
       (trace w ++ [ Print "❌ Missing dependencies!";
                     Print "Please install required packages:";
                     Print "  pip install pillow" ])).
Proof.
  intros Hpil. unfold program. unfold bind at 1. unfold gets at 1.
  rewrite Hpil. destruct w as [sd pil ex aw we ee fs tr].
  cbv beta delta [bind print emit exit with_output].
  cbn [fst snd script_dir pillow_installed path_exists accepts_write
         write_error empty_image_error files trace].
  rewrite <- !app_assoc. reflexivity.
Qed.

(** [save] on a square image fails where the file system refuses the
    write, and where the image has no pixels. *)
Lemma save_failure_square (w : world) (path : string) (img : Image) (size : Z) :
  im_size img = (size, size) ->
  save_failure w path img
  = if accepts_write w path then
      if size =? 0 then Some (ValueError (empty_image_error w))
      else None
    else Some (OSError (write_error w path)).
Proof.
  intros E. unfold save_failure, is_empty. rewrite E. cbn [fst snd].
  rewrite orb_diag. reflexivity.
Qed.

(** [pathlib] joins below a directory, below the root and below the
    current directory. *)
Example joinpath_examples :
  joinpath "/repo" "a.png" = "/repo/a.png"%string
  /\ joinpath "/" "urgood" = "/urgood"%string
  /\ joinpath "." "urgood" = "urgood"%string.
Proof. repeat split. Qed.

Lemma append_inj_l (p a b : string) : (p ++ a = p ++ b)%string -> a = b.
Proof.
  induction p as [|c p IH]; simpl; intros H; [exact H|].
  inversion H. auto.
Qed.

(** ** Closed forms

    [scale] and the products [k * scale] are exact in binary64, so the
    scaled dimensions are integer quotients; for a size that is a power of
    two the gradient is exact as well. *)

Lemma scale_exact (size : Z) :
  0 <= size <= INT_MAX -> truediv size 1024 = Ok (dyadic size 10).
Proof.
  intros Hs. pose proof INT_MAX_lt as HM.
  assert (2 ^ 31 < 2 ^ 53) by reflexivity.
  unfold truediv. simpl (1024 =? 0). f_equal.
  change (of_int size) with (dyadic size 0). change 1024 with (2 ^ 10).
  rewrite fdiv_dyadic_pow2 by lia. reflexivity.
Qed.

Lemma scaled_exact (k size : Z) :
  0 <= k < 1024 -> 0 <= size <= INT_MAX ->
  scaled k (dyadic size 10) = Ok (k * size / 1024).
Proof.
  intros Hk Hs. pose proof INT_MAX_lt as HM.
  change (2 ^ 31) with 2147483648 in HM.
  assert (Hks : 0 <= k * size < 2 ^ 53)
    by (change (2 ^ 53) with 9007199254740992; nia).
  unfold scaled. change (of_int k) with (dyadic k 0).
  rewrite fmul_dyadic; try (change (2 ^ 53) with 9007199254740992; lia).
  rewrite to_int_dyadic by lia.
  rewrite Z.quot_div_nonneg by (simpl; lia). reflexivity.
Qed.

Lemma quarter_exact (n : Z) : 0 <= n < 2 ^ 53 -> frac n f0_25 = Ok (n / 4).
Proof.
  intros Hn. unfold frac.
  change (of_int n) with (dyadic n 0). change f0_25 with (dyadic 1 2).
  rewrite fmul_dyadic; try lia; try (simpl; lia).
  rewrite Z.mul_1_r, to_int_dyadic by lia.
  rewrite Z.quot_div_nonneg by (simpl; lia). reflexivity.
Qed.

Lemma bubble_y_exact (size c : Z) :
  0 <= size <= INT_MAX -> 0 <= c < 2 ^ 40 ->
  to_int (fsub (of_int c) (fmul (of_int 40) (dyadic size 10)))
  = Ok (Z.quot (1024 * c - 40 * size) 1024).
Proof.
  intros Hs Hc. pose proof INT_MAX_lt as HM.
  change (2 ^ 31) with 2147483648 in HM. change (2 ^ 40) with 1099511627776 in Hc.
  change (of_int 40) with (dyadic 40 0). change (of_int c) with (dyadic c 0).
  rewrite fmul_dyadic; try (change (2 ^ 53) with 9007199254740992; lia).
  rewrite <- (dyadic_rescale c 0 10)
    by (try change (2 ^ 53) with 9007199254740992; lia).
  rewrite fsub_dyadic; try (change (2 ^ 53) with 9007199254740992;
                            change (2 ^ 10) with 1024; lia).
  rewrite to_int_dyadic
    by (try change (2 ^ 53) with 9007199254740992; change (2 ^ 10) with 1024; lia).
  change (2 ^ 10) with 1024. do 2 f_equal. lia.
Qed.

(** The scaled dimensions of the layer, for every accepted size. *)
Lemma layer_dimensions (size : Z) (layer : Image) (l : locals) :
  draw_layer size = Ok (layer, l) ->
  0 <= size <= MAX_DIM
  /\ bubble_size l = 700 * size / 1024
  /\ bubble_y l = Z.quot (1024 * bubble_x l - 40 * size) 1024
  /\ shadow_offset l = 8 * size / 1024
  /\ tail_size l = 60 * size / 1024
  /\ sparkle_size l = 200 * size / 1024
  /\ dot_size l = 20 * size / 1024.
Proof.
  intros H.
  assert (Hdim : 0 <= size <= MAX_DIM).
  { unfold draw_layer in H. inv_bind H. apply Image_new_inv in E. tauto. }
  assert (Hs : 0 <= size <= INT_MAX) by (pose proof MAX_DIM_lt; lia).
  destruct (draw_layer_inv size layer l H) as (scale & radius & Hl & _).
  destruct Hl as (Hscale & Hbs & Hbx & Hby & Hso & _ & Hts & _ & _ & _ & _
                  & Hss & _ & _ & _ & _ & _ & Hds & _).
  rewrite scale_exact in Hscale by assumption.
  assert (scale = dyadic size 10) by congruence. subst scale.
  rewrite scaled_exact in Hbs, Hso, Hts, Hss, Hds by (assumption || lia).
  assert (Ebs : bubble_size l = 700 * size / 1024) by congruence.
  assert (Eso : shadow_offset l = 8 * size / 1024) by congruence.
  assert (Ets : tail_size l = 60 * size / 1024) by congruence.
  assert (Ess : sparkle_size l = 200 * size / 1024) by congruence.
  assert (Eds : dot_size l = 20 * size / 1024) by congruence.
  split; [exact Hdim|].
  split; [exact Ebs|]. split; [|repeat split; assumption].
  rewrite bubble_y_exact in Hby; [rewrite Hbx; congruence | assumption |].
  rewrite Ebs. pose proof INT_MAX_lt as HM.
  change (2 ^ 31) with 2147483648 in HM. change (2 ^ 40) with 1099511627776.
  assert (0 <= 700 * size / 1024 <= size).
  { split; [apply Z.div_pos; lia | apply Z.div_le_upper_bound; lia]. }
  split; [apply Z.div_pos; lia | apply Z.div_lt_upper_bound; lia].
Qed.

Lemma gradient_channel_exact (light dark k y : Z) :
  0 <= light < 256 -> 0 <= dark < 256 -> 0 <= k <= 30 -> 0 <= y < 2 ^ k ->
  gradient_channel light dark (dyadic y k)
  = Ok (exact_channel light dark (2 ^ k) y).
Proof.
  intros Hl Hd Hk Hy.
  assert (Hk30 : 2 ^ k <= 2 ^ 30) by (apply Z.pow_le_mono_r; lia).
  change (2 ^ 30) with 1073741824 in Hk30.
  assert (H53 : 2 ^ 53 = 9007199254740992) by reflexivity.
  unfold gradient_channel, exact_channel.
  change (of_int 1) with (dyadic 1 0).
  change (of_int light) with (dyadic light 0).
  change (of_int dark) with (dyadic dark 0).
  rewrite <- (dyadic_rescale 1 0 k) by (rewrite ?H53; simpl; lia).
  rewrite Z.mul_1_l, Z.add_0_l.
  rewrite fsub_dyadic by (rewrite ?H53; lia).
  rewrite !fmul_dyadic by (rewrite ?H53; nia).
  rewrite !Z.add_0_l.
  rewrite fadd_dyadic by (rewrite ?H53; nia).
  rewrite to_int_dyadic by (rewrite ?H53; nia).
  rewrite Z.quot_div_nonneg by nia. reflexivity.
Qed.

Lemma gradient_color_exact (k y : Z) :
  0 <= k <= 30 -> 0 <= y < 2 ^ k ->
  gradient_color (2 ^ k) y
  = Ok (rgb (exact_channel 102 77 (2 ^ k) y)
            (exact_channel 178 166 (2 ^ k) y)
            (exact_channel 255 255 (2 ^ k) y)).
Proof.
  intros Hk Hy.
  assert (Hk30 : 2 ^ k <= 2 ^ 30) by (apply Z.pow_le_mono_r; lia).
  change (2 ^ 30) with 1073741824 in Hk30.
  unfold gradient_color, truediv.
  destruct (Z.eqb_spec (2 ^ k) 0) as [E|_]; [lia|]. cbn [rbind].
  change (of_int y) with (dyadic y 0).
  rewrite fdiv_dyadic_pow2
    by (try change (2 ^ 53) with 9007199254740992; lia).
  rewrite Z.add_0_l. cbn [red green blue sky_blue sky_blue_light].
  rewrite !gradient_channel_exact by lia. reflexivity.
Qed.

(** The truncated interpolation stays between its endpoints. *)
Lemma exact_channel_between (light dark size y : Z) :
  dark <= light -> 0 <= y < size ->
  dark <= exact_channel light dark size y <= light.
Proof.
  intros Hld Hy. unfold exact_channel. split.
  - apply Z.div_le_lower_bound; nia.
  - apply Z.div_le_upper_bound; nia.
Qed.

Lemma exact_channel_top (light dark size : Z) :
  0 < size -> exact_channel light dark size 0 = light.
Proof.
  intros Hs. unfold exact_channel.
  rewrite Z.sub_0_r, Z.mul_0_r, Z.add_0_r. apply Z.div_mul. lia.
Qed.

Lemma exact_channel_bottom (light dark size : Z) :
  0 < size ->
  exact_channel light dark size (size - 1) = dark + (light - dark) / size.
Proof.
  intros Hs. unfold exact_channel.
  replace (light * (size - (size - 1)) + dark * (size - 1))
    with (dark * size + (light - dark)) by ring.
  rewrite Z.div_add_l by lia. reflexivity.
Qed.

Lemma exact_channel_flat (c size y : Z) :
  0 < size -> exact_channel c c size y = c.
Proof.
  intros Hs. unfold exact_channel.
  replace (c * (size - y) + c * y) with (c * size) by ring.
  apply Z.div_mul. lia.
Qed.

Lemma Forall2_nth_error {A B} (R : A -> B -> Prop) (xs : list A) (ys : list B) :
  Forall2 R xs ys ->
  forall n x, nth_error xs n = Some x ->
              exists y, nth_error ys n = Some y /\ R x y.
Proof.
  induction 1 as [|x0 y0 xs ys HR _ IH]; intros n x Hn.
  - destruct n; discriminate Hn.
  - destruct n as [|n]; simpl in *.
    + inversion Hn; subst. exists y0. split; [reflexivity | exact HR].
    + apply IH. exact Hn.
Qed.

Lemma nth_error_range (n y : Z) :
  0 <= y < n -> nth_error (range n) (Z.to_nat y) = Some y.
Proof.
  intros Hy. unfold range.
  rewrite nth_error_map.
  assert (E : nth_error (seq 0 (Z.to_nat n)) (Z.to_nat y) = Some (Z.to_nat y)).
  { rewrite (nth_error_nth' _ 0%nat) by (rewrite length_seq; lia).
    rewrite seq_nth by lia. reflexivity. }
  rewrite E. simpl. f_equal. lia.
Qed.

(** Scanline [y] of the returned image is painted with the color the loop
    computes for it. *)
Lemma background_row (size y : Z) :
  0 <= y < size -> size <= MAX_DIM ->
  exists im col,
    draw_urgood_icon size = Ok im
    /\ gradient_color size y = Ok col
    /\ nth_error (im_calls im) (Z.to_nat y)
       = Some (Draw (line (0, y) (size, y) col)).
Proof.
  intros Hy Hs.
  destruct (draw_urgood_icon_ok size) as (layer & l & rows & _ & Hrows & E); [lia|].
  destruct (Forall2_nth_error _ _ _ Hrows (Z.to_nat y) y (nth_error_range size y Hy))
    as (c & Hc & col & Hcol & ->).
  eexists _, col. split; [exact E|]. split; [exact Hcol|].
  cbn [im_calls]. rewrite nth_error_app1; [exact Hc|].
  apply nth_error_Some. rewrite Hc. discriminate.
Qed.

Lemma supported_sizes_are_powers_of_two :
  Forall (fun S => exists k, 4 <= k <= 10 /\ S = 2 ^ k) supported_sizes.
Proof.
  unfold supported_sizes. cbn [map snd all_sizes ios_sizes mac_sizes app].
  repeat constructor;
    first [ exists 10; split; [lia | reflexivity]
          | exists 9; split; [lia | reflexivity]
          | exists 8; split; [lia | reflexivity]
          | exists 7; split; [lia | reflexivity]
          | exists 6; split; [lia | reflexivity]
          | exists 5; split; [lia | reflexivity]
          | exists 4; split; [lia | reflexivity] ].
Qed.

(** * The claims *)

(** ** C1: size and opacity of the rendered image *)

(** C1, as stated, fails: a size that does not fit the imaging core's C int
    is refused by [Image.new] before anything is drawn, and so is, with a
    [MemoryError], every size above [MAX_DIM = 536870910]. *)
Lemma renderer_refuses_oversized :
  ~ (forall S, 0 < S ->
       exists im, draw_urgood_icon S = Ok im
                  /\ im_size im = (S, S)
                  /\ has_alpha (im_mode im) = false).
Proof.
  intros H. destruct (H (2 ^ 31)) as (im & E & _); [reflexivity|].
  vm_compute in E. discriminate E.
Qed.

Example oversized_image :
  draw_urgood_icon (2 ^ 31)
  = Raise (OverflowError "signed integer is greater than maximum")
  /\ draw_urgood_icon (MAX_DIM + 1) = Raise (MemoryError "").
Proof. split; vm_compute; reflexivity. Qed.

(** C1, amended.  For every positive size [S] that the imaging core accepts
    as a width ([S <= MAX_DIM = 536870910]; memory is taken to suffice),
    [draw_urgood_icon] returns an image of exactly [S] by [S] pixels in mode
    RGB: it has no alpha band, so no pixel of the composited result is
    transparent. *)
Theorem renderer_returns_opaque_square (S : Z) :
  0 < S <= MAX_DIM ->
  exists im,
    draw_urgood_icon S = Ok im
    /\ im_size im = (S, S)
    /\ im_mode im = RGB
    /\ has_alpha (im_mode im) = false.
Proof.
  intros HS.
  destruct (draw_urgood_icon_ok S) as (layer & l & rows & _ & _ & E); [lia|].
  eexists. split; [exact E|]. repeat split.
Qed.

Lemma renderer_returns_opaque_square_witness :
  0 < 16 <= MAX_DIM
  /\ exists im, draw_urgood_icon 16 = Ok im
                /\ im_size im = (16, 16)
                /\ im_mode im = RGB
                /\ has_alpha (im_mode im) = false.
Proof.
  assert (H : 0 < 16 <= MAX_DIM) by (split; [lia | discriminate]).
  split; [exact H|].
  apply (renderer_returns_opaque_square 16 H).
Defined.

(** ** C2: the files of a full batch *)

Lemma save_calls_app (tr1 tr2 : list event) :
  save_calls (tr1 ++ tr2) = save_calls tr1 ++ save_calls tr2.
Proof. apply flat_map_app. Qed.

Lemma entry_outputs (w : world) (icon_dir : string) (entry : string * Z) :
  0 < snd entry <= MAX_DIM ->
  let path := joinpath icon_dir (fst entry) in
  save_calls (entry_trace w icon_dir entry)
  = [(path, "PNG"%string, (snd entry, snd entry))]
  /\ (accepts_write w path = true ->
      exists img, entry_files w icon_dir entry = [(path, img)]
                  /\ im_size img = (snd entry, snd entry)
                  /\ im_mode img = RGB).
Proof.
  intros Hs path.
  destruct (draw_urgood_icon_ok (snd entry)) as (layer & l & rows & _ & _ & E);
    [lia|].
  unfold entry_trace, entry_files. fold path. rewrite E.
  rewrite (save_failure_square w path
             (mkImage RGB (snd entry, snd entry) (rgb 0 0 0)
                (rows ++ [Paste layer (0, 0) layer])) (snd entry) eq_refl).
  destruct (Z.eqb_spec (snd entry) 0); [lia|]. split.
  - destruct (accepts_write w path); reflexivity.
  - intros ->. eexists. split; [reflexivity|]. split; reflexivity.
Qed.

Lemma batch_outputs (w : world) (icon_dir : string) (entries : list (string * Z)) :
  Forall (fun e => 0 < snd e <= MAX_DIM) entries ->
  save_calls (flat_map (entry_trace w icon_dir) entries)
  = map (fun e => (joinpath icon_dir (fst e), "PNG"%string, (snd e, snd e))) entries
  /\ ((forall e, In e entries -> accepts_write w (joinpath icon_dir (fst e)) = true) ->
      let written := flat_map (entry_files w icon_dir) entries in
      map (fun f => (fst f, im_size (snd f))) written
      = map (fun e => (joinpath icon_dir (fst e), (snd e, snd e))) entries
      /\ Forall (fun f => im_mode (snd f) = RGB) written).
Proof.
  induction 1 as [|e entries He _ IH].
  - split; [reflexivity|]. intros _. split; [reflexivity | constructor].
  - destruct IH as [IHt IHf].
    destruct (entry_outputs w icon_dir e He) as [Et Ef].
    split.
    + cbn [flat_map map]. rewrite save_calls_app, Et, IHt. reflexivity.
    + intros Hacc. cbn [flat_map map].
      destruct (Ef (Hacc e (or_introl eq_refl))) as (img & Eimg & Hsz & Hmode).
      destruct (IHf (fun e' He' => Hacc e' (or_intror He'))) as [IH1 IH2].
      rewrite Eimg. cbn [app map fst snd]. rewrite Hsz, IH1.
      split; [reflexivity|]. constructor; [exact Hmode | exact IH2].
Qed.

(** C2.  When the output directory exists, the batch calls [save] exactly
    eleven times, in the order of the iOS list followed by the macOS list,
    each time with the path [<directory>/<name>], the format PNG and an image
    of the listed pixel size; in a directory that accepts the writes these
    eleven images are the files written: eleven distinct paths, each an
    opaque (RGB) image of [size] by [size] pixels. *)
Theorem batch_writes_eleven_icons (w : world) :
  let icon_dir := icon_dir_of (script_dir w) in
  let expected : list (string * Z) :=
    [ ("app_icon_1024.png"%string, 1024);
      ("app_icon_16.png"%string, 16);
      ("app_icon_16@2x.png"%string, 32);
      ("app_icon_32.png"%string, 32);
      ("app_icon_32@2x.png"%string, 64);
      ("app_icon_128.png"%string, 128);
      ("app_icon_128@2x.png"%string, 256);
      ("app_icon_256.png"%string, 256);
      ("app_icon_256@2x.png"%string, 512);
      ("app_icon_512.png"%string, 512);
      ("app_icon_512@2x.png"%string, 1024) ] in
  let outputs := map (fun e => (joinpath icon_dir (fst e), (snd e, snd e))) expected in
  path_exists w icon_dir = true ->
  let w' := snd (main w) in
  fst (main w) = Done tt
  /\ save_calls (trace w')
     = save_calls (trace w)
       ++ map (fun o => (fst o, "PNG"%string, snd o)) outputs
  /\ ((forall e, In e expected -> accepts_write w (joinpath icon_dir (fst e)) = true) ->
      exists written,
        files w' = files w ++ written
        /\ map (fun f => (fst f, im_size (snd f))) written = outputs
        /\ Forall (fun f => im_mode (snd f) = RGB) written
        /\ List.length written = 11%nat
        /\ NoDup (map fst written)).
Proof.
  intros icon_dir expected outputs Hdir w'.
  subst w'. rewrite (main_found w Hdir). cbn [fst snd trace files with_output].
  fold icon_dir.
  assert (Hall : all_sizes = expected) by reflexivity.
  assert (Hvalid : Forall (fun e => 0 < snd e <= MAX_DIM) expected)
    by (repeat constructor; cbn [snd]; (lia || discriminate)).
  destruct (batch_outputs w icon_dir expected Hvalid) as [Ht Hf].
  rewrite Hall. split; [reflexivity|]. split.
  - rewrite !save_calls_app, Ht. cbn [save_calls opening closing flat_map app].
    rewrite app_nil_r. unfold outputs. rewrite map_map. reflexivity.
  - intros Hacc. destruct (Hf Hacc) as [Hw Hm].
    exists (flat_map (entry_files w icon_dir) expected).
    split; [reflexivity|]. split; [exact Hw|]. split; [exact Hm|].
    assert (Hpaths : map fst (flat_map (entry_files w icon_dir) expected)
                     = map (fun n => joinpath icon_dir n) (map fst expected)).
    { rewrite map_map.
      replace (map fst (flat_map (entry_files w icon_dir) expected))
        with (map fst (map (fun f => (fst f, im_size (snd f)))
                         (flat_map (entry_files w icon_dir) expected)))
        by (rewrite map_map; reflexivity).
      rewrite Hw. unfold outputs. rewrite map_map. reflexivity. }
    split.
    + rewrite <- (List.length_map fst), Hpaths, !List.length_map. reflexivity.
    + rewrite Hpaths. apply Injective_map_NoDup.
      * intros a b Hab. unfold joinpath in Hab.
        apply append_inj_l in Hab. exact Hab.
      * cbn [map fst expected].
        repeat (constructor; [cbn [In]; intuition discriminate|]). constructor.
Qed.

Lemma batch_writes_eleven_icons_witness :
  path_exists (example_world true true)
    (icon_dir_of (script_dir (example_world true true))) = true
  /\ map fst (files (snd (main (example_world true true))))
     = map (fun n => ("/repo/urgood/urgood/Assets.xcassets/AppIcon.appiconset/" ++ n)%string)
         [ "app_icon_1024.png"; "app_icon_16.png"; "app_icon_16@2x.png";
           "app_icon_32.png"; "app_icon_32@2x.png"; "app_icon_128.png";
           "app_icon_128@2x.png"; "app_icon_256.png"; "app_icon_256@2x.png";
           "app_icon_512.png"; "app_icon_512@2x.png" ]%string.
Proof.
  split; [reflexivity|].
  destruct (batch_writes_eleven_icons (example_world true true) eq_refl)
    as (_ & _ & Hfiles).
  destruct (Hfiles (fun _ _ => eq_refl)) as (written & E & Hw & _).
  rewrite E. cbn [files example_world app].
  replace (map fst written)
    with (map fst (map (fun f => (fst f, im_size (snd f))) written))
    by (rewrite map_map; reflexivity).
  rewrite Hw. reflexivity.
Defined.

(** ** C3: the background gradient *)

(** C3, as stated, fails: at size 7 the blue channel of row 3 is 254.  The
    script evaluates [255 * (1 - 3/7) + 255 * (3/7)] in binary64, where it
    falls just short of 255, and [int()] truncates; the value is neither the
    truncation of the exact sum nor between the two endpoints, both 255. *)
Lemma gradient_is_inexact_at_size_7 :
  ~ (forall S y,
        0 < S -> 0 <= y < S ->
        exists c,
          gradient_color S y = Ok c
          /\ red c = exact_channel 102 77 S y
          /\ green c = exact_channel 178 166 S y
          /\ blue c = exact_channel 255 255 S y
          /\ 77 <= red c <= 102
          /\ 166 <= green c <= 178
          /\ 255 <= blue c <= 255).
Proof.
  intros H. destruct (H 7 3) as (c & E & _ & _ & Hb & _); try lia.
  vm_compute in E. injection E as <-. discriminate Hb.
Qed.

Example gradient_at_size_7_row_3 :
  gradient_color 7 3 = Ok (rgb 91 172 254)
  /\ exact_channel 255 255 7 3 = 255.
Proof. split; vm_compute; reflexivity. Qed.

(** With a single row, the last row is the first: it has the light color. *)
Example gradient_at_size_1 : gradient_color 1 0 = Ok sky_blue_light.
Proof. vm_compute. reflexivity. Qed.

(** C3, amended.  For every size [S] that is a power of two up to [2^30]
    (every size of the batch is: [supported_sizes_are_powers_of_two]) and
    every row [y] of [0 .. S-1], the color the loop computes for scanline
    [y] has red and green channels equal to the integer truncation of
    [light * (1 - y/S) + dark * (y/S)] and blue 255; where the image itself
    is created ([S <= 2^28], the powers of two below [MAX_DIM]) this is the
    color painted on scanline [y].  Each channel lies between the dark and
    the light endpoint; row 0 has the light color; at row [S-1], for
    [S >= 16], green and blue equal the dark endpoint and red is 77 or 78. *)
Theorem gradient_on_power_of_two_sizes (k y : Z) :
  0 <= k <= 30 -> 0 <= y < 2 ^ k ->
  let S := 2 ^ k in
  let r := exact_channel 102 77 S y in
  let g := exact_channel 178 166 S y in
  gradient_color S y = Ok (rgb r g 255)
  /\ (k <= 28 ->
      exists im,
        draw_urgood_icon S = Ok im
        /\ nth_error (im_calls im) (Z.to_nat y)
           = Some (Draw (line (0, y) (S, y) (rgb r g 255))))
  /\ 77 <= r <= 102
  /\ 166 <= g <= 178
  /\ (y = 0 -> r = 102 /\ g = 178)
  /\ (y = S - 1 -> 16 <= S -> 77 <= r <= 78 /\ g = 166).
Proof.
  intros Hk Hy S r g.
  assert (HS : 0 < S) by (apply Z.pow_pos_nonneg; lia).
  assert (HS30 : S <= 2 ^ 30) by (apply Z.pow_le_mono_r; lia).
  assert (Hcol : gradient_color S y = Ok (rgb r g 255)).
  { unfold S, r, g. rewrite gradient_color_exact by assumption.
    rewrite (exact_channel_flat 255) by exact HS. reflexivity. }
  split; [exact Hcol|]. split.
  - intros Hk28.
    assert (HS28 : S <= 2 ^ 28) by (apply Z.pow_le_mono_r; lia).
    destruct (background_row S y) as (im & col & Eim & Ecol & Hrow);
      [exact Hy
      | unfold MAX_DIM, INT_MAX; change (2 ^ 28) with 268435456 in HS28;
        change (2147483647 / 4) with 536870911; lia |].
    exists im. split; [exact Eim|]. rewrite Hrow. congruence.
  - change (0 <= y < S) in Hy. clear Hcol HS30. clearbody S.
    split; [apply exact_channel_between; lia|].
    split; [apply exact_channel_between; lia|].
    split.
    + intros ->. unfold r, g. rewrite !exact_channel_top by exact HS. split; reflexivity.
    + intros -> HS16. unfold r, g. rewrite !exact_channel_bottom by exact HS.
      assert (0 <= (102 - 77) / S < 2).
      { split; [apply Z.div_pos; lia | apply Z.div_lt_upper_bound; lia]. }
      assert ((178 - 166) / S = 0) by (apply Z.div_small; lia).
      lia.
Qed.

Lemma gradient_on_power_of_two_sizes_witness :
  0 <= 4 <= 30 /\ 0 <= 15 < 2 ^ 4
  /\ gradient_color 16 15 = Ok (rgb 78 166 255).
Proof.
  split; [lia|]. split; [simpl; lia|].
  destruct (gradient_on_power_of_two_sizes 4 15) as (E & _);
    [lia | simpl; lia |].
  exact E.
Defined.

(** ** C4: failures of single files *)

(** C4.  The loop of the driver, for any list of entries and in any world,
    runs to its end: every entry adds its progress line, its call of the
    renderer and, when rendering or saving raised, the diagnostic line and
    the stack trace of that entry alone ([entry_trace]); the entries after a
    failure are processed like the others.  [main] runs this loop over the
    fixed list and then prints its closing lines.  The process ends with
    status 0 whenever Pillow is installed and the directory exists, whatever
    failed in between, and with status 1 exactly when one of the two is
    missing. *)
Theorem failures_do_not_abort_the_batch :
  (forall icon_dir entries w,
      exists w',
        generate_all icon_dir entries w = (Done tt, w')
        /\ trace w' = trace w ++ flat_map (entry_trace w icon_dir) entries
        /\ (forall filename size,
               In (filename, size) entries -> In (Drawn size) (trace w')))
  /\ (forall w,
         path_exists w (icon_dir_of (script_dir w)) = true ->
         exists w',
           main w = (Done tt, w')
           /\ trace w'
              = trace w ++ opening
                ++ flat_map (entry_trace w (icon_dir_of (script_dir w))) all_sizes
                ++ closing)
  /\ (forall w,
         exit_status (fst (program w))
         = if pillow_installed w && path_exists w (icon_dir_of (script_dir w))
           then 0 else 1).
Proof.
  split; [|split].
  - intros icon_dir entries w. eexists. split; [apply generate_all_spec|].
    cbn [trace with_output]. split; [reflexivity|].
    intros filename size Hin. apply in_or_app. right.
    apply in_flat_map. exists (filename, size). split; [exact Hin|].
    unfold entry_trace. cbn [fst snd]. right. left. reflexivity.
  - intros w Hdir. eexists. split; [apply (main_found w Hdir)|]. reflexivity.
  - intros w. destruct (pillow_installed w) eqn:Hpil; cbn [andb].
    + rewrite (program_with_pillow w Hpil).
      destruct (path_exists w (icon_dir_of (script_dir w))) eqn:Hdir.
      * rewrite (main_found w Hdir). reflexivity.
      * rewrite (main_missing w Hdir). reflexivity.
    + rewrite (program_without_pillow w Hpil). reflexivity.
Qed.

(** One entry with a size the renderer rejects, between two good ones, in a
    directory that refuses the last write: all three are attempted, the two
    failures are reported, the first file is written. *)
Example batch_survives_failures :
  let w := mkWorld "/repo" true (fun _ => true)
             (fun p => negb (String.eqb p "out/c.png")) permission_denied
             "tile cannot extend outside image" [] [] in
  let w' := snd (generate_all "out"
                   [("a.png"%string, 16); ("b.png"%string, -1); ("c.png"%string, 32)]
                   w) in
  map fst (files w') = ["out/a.png"%string]
  /\ save_calls (trace w')
     = [ ("out/a.png"%string, "PNG"%string, (16, 16));
         ("out/c.png"%string, "PNG"%string, (32, 32)) ]
  /\ filter (fun ev => match ev with Print _ | PrintExc _ => true | _ => false end)
       (trace w')
     = [ Print "  Generating 16x16px -> out/a.png";
         Print "  Generating -1x-1px -> out/b.png";
         Print "  ❌ Failed to generate b.png: Width and height must be >= 0";
         PrintExc (ValueError "Width and height must be >= 0");
         Print "  Generating 32x32px -> out/c.png";
         Print "  ❌ Failed to generate c.png: [Errno 13] Permission denied: 'out/c.png'";
         PrintExc (OSError "[Errno 13] Permission denied: 'out/c.png'") ].
Proof. vm_compute. repeat split. Qed.

(** In a directory that refuses every write all eleven saves fail, and the
    process still ends with status 0. *)
Lemma failures_do_not_abort_the_batch_witness :
  exit_status (fst (program (example_world true false))) = 0
  /\ exit_status (fst (program (example_world false true))) = 1.
Proof.
  destruct failures_do_not_abort_the_batch as (_ & _ & Hexit).
  rewrite !Hexit. split; reflexivity.
Defined.

(** ** C5: a missing output directory *)

(** C5.  If the output directory [<script location>/urgood/urgood/
    Assets.xcassets/AppIcon.appiconset] does not exist, [main] prints the
    error line and calls [exit(1)]; the process ends with status 1, no file
    is written, and neither the renderer nor [save] is entered. *)
Theorem missing_directory_is_fatal (w : world) :
  path_exists w (icon_dir_of (script_dir w)) = false ->
  main w
  = (Exited 1,
     with_output w (files w)
       (trace w ++ [Print ("❌ Icon directory not found: "
                           ++ icon_dir_of (script_dir w))%string]))
  /\ exit_status (fst (program w)) = 1
  /\ files (snd (program w)) = files w
  /\ (forall ev,
         In ev (trace (snd (program w))) ->
         In ev (trace w) \/ exists text, ev = Print text).
Proof.
  intros Hdir. pose proof (main_missing w Hdir) as Emain.
  split; [exact Emain|].
  destruct (pillow_installed w) eqn:Hpil.
  - rewrite (program_with_pillow w Hpil), Emain.
    cbn [fst snd exit_status files trace with_output].
    split; [reflexivity|]. split; [reflexivity|].
    intros ev Hin. apply in_app_or in Hin.
    destruct Hin as [Hin|[<-|[]]]; [left; exact Hin | right; eexists; reflexivity].
  - rewrite (program_without_pillow w Hpil).
    cbn [fst snd exit_status files trace with_output].
    split; [reflexivity|]. split; [reflexivity|].
    intros ev Hin. apply in_app_or in Hin.
    destruct Hin as [Hin|Hin]; [left; exact Hin|].
    right. destruct Hin as [<-|[<-|[<-|[]]]]; eexists; reflexivity.
Qed.

Lemma missing_directory_is_fatal_witness :
  path_exists (example_world false true)
    (icon_dir_of (script_dir (example_world false true))) = false
  /\ exit_status (fst (program (example_world false true))) = 1
  /\ files (snd (program (example_world false true))) = [].
Proof.
  split; [reflexivity|].
  destruct (missing_directory_is_fatal (example_world false true) eq_refl)
    as (_ & Hexit & Hfiles & _).
  split; [exact Hexit | exact Hfiles].
Defined.

(** ** C6: the accent dots *)

(** C6, as stated, fails on the radius: at size 1024 the boxes of the
    accent ellipses reach 20 pixels from their centres, twice
    [int(10 * scale) = 10]. *)
Lemma accent_radius_is_not_10_scale :
  ~ (forall S layer l,
        draw_layer S = Ok (layer, l) ->
        exists scale r,
          truediv S 1024 = Ok scale
          /\ scaled 10 scale = Ok r
          /\ forall a b f,
               In (ellipse a b f) (ellipses (im_calls layer)) ->
               fst b - fst a = 2 * r /\ snd b - snd a = 2 * r).
Proof.
  intros H.
  destruct (draw_layer 1024) as [[layer l]|e] eqn:E; [|vm_compute in E; discriminate E].
  destruct (H 1024 layer l E) as (scale & r & Hscale & Hr & Hall).
  vm_compute in Hscale. injection Hscale as <-.
  vm_compute in Hr. injection Hr as <-.
  vm_compute in E. injection E as <- <-.
  destruct (Hall (652, 292) (692, 332) accent_fill) as [Hx _].
  - left. reflexivity.
  - discriminate Hx.
Qed.

(** C6, amended.  For every size the layer is drawn for (every size from 0
    to [MAX_DIM]), exactly three ellipses are drawn on it, filled with the
    translucent white [(255, 255, 255, 200)]; their boxes reach
    [dot_size = int(20 * scale)] (not [10 * scale]) from the centres, which
    lie at the offsets [(+d, -d)], [(-d, -d)] and [(+d, +d)] from the sparkle
    centre, with [d = int(sparkle_size * 0.8)] and
    [sparkle_size = int(200 * scale)]. *)
Theorem three_accent_dots (size : Z) :
  (0 <= size <= MAX_DIM -> exists layer l, draw_layer size = Ok (layer, l))
  /\ (forall layer l,
         draw_layer size = Ok (layer, l) ->
         exists scale,
           truediv size 1024 = Ok scale
           /\ scaled 20 scale = Ok (dot_size l)
           /\ scaled 200 scale = Ok (sparkle_size l)
           /\ frac (sparkle_size l) f0_8 = Ok (dot_distance l)
           /\ dot_size l = 20 * size / 1024
           /\ let cx := sparkle_center_x l in
              let cy := sparkle_center_y l in
              let d := dot_distance l in
              let r := dot_size l in
              ellipses (im_calls layer)
              = [ ellipse (cx + d - r, cy - d - r) (cx + d + r, cy - d + r)
                    (rgba 255 255 255 200);
                  ellipse (cx - d - r, cy - d - r) (cx - d + r, cy - d + r)
                    (rgba 255 255 255 200);
                  ellipse (cx + d - r, cy + d - r) (cx + d + r, cy + d + r)
                    (rgba 255 255 255 200) ]).
Proof.
  split; [apply draw_layer_total|].
  intros layer l H.
  destruct (layer_dimensions size layer l H) as (_ & _ & _ & _ & _ & _ & Eds).
  destruct (draw_layer_inv size layer l H) as (scale & radius & Hl & ->).
  destruct Hl as (Hscale & _ & _ & _ & _ & _ & _ & _ & _ & _ & _
                  & Hss & _ & _ & _ & _ & Hdd & Hds & Hpos).
  exists scale. repeat (split; [assumption|]).
  intros cx cy d r. unfold im_calls, layer_calls. rewrite Hpos. reflexivity.
Qed.

Lemma three_accent_dots_witness :
  0 <= 1024 <= MAX_DIM
  /\ exists layer l,
       draw_layer 1024 = Ok (layer, l)
       /\ ellipses (im_calls layer)
          = [ ellipse (652, 292) (692, 332) (rgba 255 255 255 200);
              ellipse (332, 292) (372, 332) (rgba 255 255 255 200);
              ellipse (652, 612) (692, 652) (rgba 255 255 255 200) ].
Proof.
  split; [dim_bound|].
  destruct (three_accent_dots 1024) as [Htotal Hdots].
  destruct Htotal as (layer & l & E); [dim_bound|].
  exists layer, l. split; [exact E|].
  destruct (Hdots layer l E) as (scale & _ & _ & _ & _ & _ & Hell).
  rewrite Hell. vm_compute in E. injection E as <- <-. reflexivity.
Defined.

(** ** C7: proportionality of the drawn dimensions *)

(** C7, as stated, fails: between the supported sizes 16 and 1024 the ratio
    of the bubble side to the size changes (10/16 against 700/1024), because
    every dimension is truncated to whole pixels. *)
Lemma dimensions_are_not_proportional :
  ~ (forall S1 S2 layer1 l1 layer2 l2,
        In S1 supported_sizes -> In S2 supported_sizes ->
        draw_layer S1 = Ok (layer1, l1) -> draw_layer S2 = Ok (layer2, l2) ->
        bubble_size l1 * S2 = bubble_size l2 * S1
        /\ tail_size l1 * S2 = tail_size l2 * S1
        /\ sparkle_size l1 * S2 = sparkle_size l2 * S1
        /\ dot_size l1 * S2 = dot_size l2 * S1).
Proof.
  intros H.
  destruct (draw_layer 16) as [[layer1 l1]|e] eqn:E1;
    [|vm_compute in E1; discriminate E1].
  destruct (draw_layer 1024) as [[layer2 l2]|e] eqn:E2;
    [|vm_compute in E2; discriminate E2].
  destruct (H 16 1024 layer1 l1 layer2 l2) as [Hb _]; try assumption.
  - vm_compute. tauto.
  - vm_compute. tauto.
  - vm_compute in E1. injection E1 as <- <-.
    vm_compute in E2. injection E2 as <- <-.
    discriminate Hb.
Qed.

(** C7, amended.  For every size [S] the layer is drawn for (every size
    from 0 to [MAX_DIM]), bubble side, tail size, sparkle size and dot
    radius are the integer parts of [700 * S / 1024], [60 * S / 1024],
    [200 * S / 1024] and [20 * S / 1024]: linear in [S] up to a truncation
    of less than one pixel, so that the ratio to [S] is the constant
    [k / 1024] exactly where 1024 divides [k * S] and falls short of it by
    less than [1 / S] elsewhere. *)
Theorem dimensions_scale_up_to_truncation (S : Z) :
  (0 <= S <= MAX_DIM -> exists layer l, draw_layer S = Ok (layer, l))
  /\ (forall layer l,
         draw_layer S = Ok (layer, l) ->
         let within k d := d = k * S / 1024
                           /\ k * S - 1024 < 1024 * d <= k * S
                           /\ ((1024 | k * S) -> 1024 * d = k * S) in
         within 700 (bubble_size l)
         /\ within 60 (tail_size l)
         /\ within 200 (sparkle_size l)
         /\ within 20 (dot_size l)).
Proof.
  split; [apply draw_layer_total|].
  intros layer l H within.
  destruct (layer_dimensions S layer l H) as (_ & Ebs & _ & _ & Ets & Ess & Eds).
  assert (Hw : forall k d, d = k * S / 1024 -> within k d).
  { intros k d ->. unfold within. split; [reflexivity|].
    pose proof (Z.mul_div_le (k * S) 1024 ltac:(lia)).
    pose proof (Z.mul_succ_div_gt (k * S) 1024 ltac:(lia)).
    split; [lia|].
    intros [c Hc]. rewrite Hc, Z.div_mul by lia. lia. }
  repeat split; apply Hw; assumption.
Qed.

Lemma dimensions_scale_up_to_truncation_witness :
  0 <= 128 <= MAX_DIM
  /\ exists layer l,
       draw_layer 128 = Ok (layer, l)
       /\ bubble_size l = 87 /\ tail_size l = 7
       /\ sparkle_size l = 25 /\ dot_size l = 2.
Proof.
  split; [dim_bound|].
  destruct (dimensions_scale_up_to_truncation 128) as [Htotal Hdims].
  destruct Htotal as (layer & l & E); [dim_bound|].
  exists layer, l. split; [exact E|].
  destruct (Hdims layer l E) as ((E1 & _) & (E2 & _) & (E3 & _) & (E4 & _)).
  rewrite E1, E2, E3, E4. repeat split.
Defined.

(** ** C8: determinism *)

(** C8.  The renderer is deterministic.  Run in any two states of the
    interpreter's memory, with the same size, it ends the same way: with
    the same exception, or with two images that agree in all that is
    modelled of an image, the mode, the size, the fill and the drawing
    calls with their arguments, in call order.  The image is the one
    [draw_urgood_icon] computes from the size alone; it is a new object,
    and no object that was there before the call is changed.  Called twice
    in a row, the renderer returns two distinct objects, and after the
    second call they hold the same image.  What pixels Pillow paints for
    these calls is not part of the script. *)
Theorem renderer_is_deterministic (size : Z) (h1 h2 : heap) :
  let run1 := draw_urgood_icon_at size h1 in
  let run2 := draw_urgood_icon_at size h2 in
  (forall e, fst run1 = Raise e <-> fst run2 = Raise e)
  /\ (forall p1 p2,
         fst run1 = Ok p1 -> fst run2 = Ok p2 ->
         obj (snd run1) p1 = obj (snd run2) p2
         /\ draw_urgood_icon size = Ok (obj (snd run1) p1)
         /\ (next h1 <= p1 < next (snd run1))%nat)
  /\ preserves h1 (snd run1)
  /\ (forall p1,
         fst run1 = Ok p1 ->
         let again := draw_urgood_icon_at size (snd run1) in
         exists p2,
           fst again = Ok p2
           /\ p1 <> p2
           /\ obj (snd again) p1 = obj (snd again) p2).
Proof.
  intros run1 run2. subst run1 run2.
  destruct (draw_urgood_icon_at_outcome size h1) as (P1 & R1 & O1).
  destruct (draw_urgood_icon_at_outcome size h2) as (P2 & R2 & O2).
  split; [intros e; rewrite R1, R2; tauto|].
  split.
  - intros p1 p2 E1 E2.
    destruct (O1 p1 E1) as (-> & Hn1 & D1). destruct (O2 p2 E2) as (-> & Hn2 & D2).
    split; [congruence|]. split; [exact D1 | lia].
  - split; [exact P1|].
    intros p1 E1 again. subst again.
    destruct (O1 p1 E1) as (Hp1 & Hn1 & D1).
    set (h1' := snd (draw_urgood_icon_at size h1)) in *.
    destruct (draw_urgood_icon_at_outcome size h1') as ([Hle Hkeep] & R3 & O3).
    destruct (fst (draw_urgood_icon_at size h1')) as [p2|e] eqn:E3.
    + exists p2. split; [reflexivity|].
      destruct (O3 p2 eq_refl) as (Hp2 & Hn3 & D3).
      split; [lia|].
      rewrite (Hkeep p1) by lia. congruence.
    + exfalso. pose proof (proj1 (R3 e) eq_refl) as E4. congruence.
Qed.

Lemma renderer_is_deterministic_witness :
  exists p1 p2 h,
    draw_urgood_icon_at 16 empty_heap = (Ok p1, h)
    /\ fst (draw_urgood_icon_at 16 h) = Ok p2
    /\ p1 <> p2
    /\ obj (snd (draw_urgood_icon_at 16 h)) p1
       = obj (snd (draw_urgood_icon_at 16 h)) p2.
Proof.
  destruct (renderer_is_deterministic 16 empty_heap empty_heap) as (_ & _ & _ & H).
  destruct (draw_urgood_icon_at 16 empty_heap) as [[p1|e] h] eqn:E.
  - exists p1. destruct (H p1 eq_refl) as (p2 & E2 & Hne & Heq).
    exists p2, h. split; [reflexivity|]. split; [exact E2|].
    split; [exact Hne | exact Heq].
  - exfalso.
    destruct (draw_urgood_icon_at_outcome 16 empty_heap) as (_ & R & _).
    rewrite E in R.
    destruct (draw_urgood_icon_ok 16) as (layer & l & rows & _ & _ & Eim);
      [dim_bound|].
    pose proof (proj1 (R e) eq_refl) as Er. congruence.
Defined.

(** ** C9: the bubble's bounding box *)

(** C9.  For every size the layer is drawn for (and it is drawn for every
    size from 0 to [MAX_DIM]), with [scale = size / 1024]: the second call
    on the layer is the bubble, a rounded rectangle filled with [sky_blue]
    whose box is a square of side [int(700 * scale)], with its left edge at
    [(size - side) // 2] and its top edge at
    [int((size - side) // 2 - 40 * scale)].  In integers: the side is
    [700 * size // 1024] and the top edge is the centred position less
    [40 * size / 1024], rounded toward zero, hence never below the centred
    position. *)
Theorem bubble_bounding_box (size : Z) :
  (0 <= size <= MAX_DIM -> exists layer l, draw_layer size = Ok (layer, l))
  /\ (forall layer l,
         draw_layer size = Ok (layer, l) ->
         exists scale side top radius,
           truediv size 1024 = Ok scale
           /\ to_int (fmul (of_int 700) scale) = Ok side
           /\ to_int (fsub (of_int ((size - side) / 2))
                           (fmul (of_int 40) scale)) = Ok top
           /\ nth_error (im_calls layer) 1
              = Some (Draw (rounded_rectangle
                              ((size - side) / 2, top)
                              ((size - side) / 2 + side, top + side)
                              radius sky_blue))
           /\ bubble_size l = side
           /\ bubble_x l = (size - side) / 2
           /\ bubble_y l = top
           /\ side = 700 * size / 1024
           /\ top = Z.quot (1024 * ((size - side) / 2) - 40 * size) 1024
           /\ top <= (size - side) / 2).
Proof.
  split; [apply draw_layer_total|].
  intros layer l H.
  destruct (layer_dimensions size layer l H) as (_ & Eside & Etop & _).
  destruct (draw_layer_inv size layer l H) as (scale & radius & Hl & ->).
  destruct Hl as (Hscale & Hside & Hx & Htop & _).
  exists scale, (bubble_size l), (bubble_y l), radius.
  split; [exact Hscale|]. split; [exact Hside|]. split; [exact Htop|].
  split; [cbn [im_calls layer_calls nth_error app]; rewrite Hx; reflexivity|].
  split; [reflexivity|]. split; [exact Hx|]. split; [reflexivity|].
  split; [exact Eside|]. rewrite <- Hx. split; [exact Etop|].
  rewrite Etop.
  assert (Hs : 0 <= size)
    by (unfold draw_layer in H; inv_bind H; apply Image_new_inv in E; lia).
  rewrite <- (Z.quot_mul (bubble_x l) 1024) at 2 by lia.
  apply Z.quot_le_mono; lia.
Qed.

Lemma bubble_bounding_box_witness :
  0 <= 1024 <= MAX_DIM
  /\ exists layer l,
       draw_layer 1024 = Ok (layer, l)
       /\ nth_error (im_calls layer) 1
          = Some (Draw (rounded_rectangle (162, 122) (862, 822) 175 sky_blue)).
Proof.
  split; [dim_bound|].
  destruct (bubble_bounding_box 1024) as [Htotal Hbox].
  destruct Htotal as (layer & l & E); [dim_bound|].
  exists layer, l. split; [exact E|].
  destruct (Hbox layer l E) as (scale & side & top & radius & _ & _ & _ & _).
  vm_compute in E. inversion E; subst layer l. reflexivity.
Defined.

(** ** C10: the smallest supported size *)

(** C10.  At size 16 the tail size [int(60 * 16 / 1024)] and the dot radius
    [int(20 * 16 / 1024)] are both 0: the three vertices of the tail
    triangle coincide, and the box of each accent ellipse is a single point.
    The renderer still returns, and the image is 16 by 16. *)
Theorem smallest_size_degenerates :
  exists layer l im,
    draw_layer 16 = Ok (layer, l)
    /\ tail_size l = 0
    /\ dot_size l = 0
    /\ nth_error (im_calls layer) 2
       = Some (Draw (polygon [(5, 12); (5, 12); (5, 12)] sky_blue))
    /\ ellipses (im_calls layer)
       = [ ellipse (10, 5) (10, 5) accent_fill;
           ellipse (6, 5) (6, 5) accent_fill;
           ellipse (10, 9) (10, 9) accent_fill ]
    /\ draw_urgood_icon 16 = Ok im
    /\ im_size im = (16, 16)
    /\ im_mode im = RGB.
Proof.
  destruct (draw_layer 16) as [[layer l]|e] eqn:E;
    [|vm_compute in E; discriminate E].
  destruct (draw_urgood_icon 16) as [im|e] eqn:Eim;
    [|vm_compute in Eim; discriminate Eim].
  exists layer, l, im.
  vm_compute in E. injection E as <- <-.
  vm_compute in Eim. injection Eim as <-.
  repeat split.
Qed.

(** * Further properties

    Properties of the renderer and the driver beyond the claims: the exact
    domain of the renderer, the order of the calls on its result, the
    layer's geometry in integer arithmetic, and what the driver writes and
    reports when single files fail. *)

(** ** Rounding to nearest, in integers

    The layer multiplies ints by the literals 0.2, 0.3, 0.4 and 0.8, none
    of which is a binary fraction.  To follow [int(n * f)] exactly, the
    shift-and-round of [binary_round_aux] is first expressed on integers:
    quotient, round bit and sticky bit of the shifted mantissa. *)

Lemma shr_1_shifted (mrs : shr_record) :
  0 <= shr_m mrs -> shr_1 mrs = shifted 1 mrs.
Proof.
  destruct mrs as [m r s]. unfold shifted. cbn [shr_m shr_r shr_s].
  change (2 ^ (1 - 1)) with 1. rewrite Z.mod_1_r. cbn [Z.eqb negb].
  rewrite orb_false_r. change (1 - 1) with 0. change (2 ^ 1) with 2.
  intros Hm. destruct m as [|p|p]; try lia.
  - reflexivity.
  - destruct p as [p|p|]; cbn [shr_1].
    + f_equal. rewrite Pos2Z.inj_xI. apply (Z.div_unique _ 2 _ 1); lia.
    + f_equal. rewrite Pos2Z.inj_xO. apply (Z.div_unique _ 2 _ 0); lia.
    + reflexivity.
Qed.

Lemma mod_pow2_split (m j k : Z) :
  0 <= m -> 1 <= k -> 1 <= j ->
  m mod 2 ^ (j + k - 1)
  = m mod 2 ^ (k - 1) + 2 ^ (k - 1) * Z.b2z (Z.testbit m (k - 1))
    + 2 ^ k * ((m / 2 ^ k) mod 2 ^ (j - 1)).
Proof.
  intros Hm Hk Hj.
  assert (H1 : 0 < 2 ^ (k - 1)) by (apply Z.pow_pos_nonneg; lia).
  assert (H2 : 0 < 2 ^ (j - 1)) by (apply Z.pow_pos_nonneg; lia).
  assert (Ek : 2 ^ k = 2 ^ (k - 1) * 2).
  { replace k with (k - 1 + 1) at 1 by lia. rewrite Z.pow_add_r by lia. reflexivity. }
  replace (j + k - 1) with (k + (j - 1)) by lia.
  rewrite Z.pow_add_r by lia.
  rewrite Z.rem_mul_r by lia.
  rewrite Ek at 1. rewrite Z.rem_mul_r by lia.
  rewrite Z.testbit_spec' by lia. reflexivity.
Qed.

Lemma shifted_shifted (j k : Z) (mrs : shr_record) :
  0 <= shr_m mrs -> 1 <= k -> 1 <= j ->
  shifted j (shifted k mrs) = shifted (j + k) mrs.
Proof.
  intros Hm Hk Hj. destruct mrs as [m r s]. unfold shifted.
  cbn [shr_m shr_r shr_s] in *.
  assert (H1 : 0 < 2 ^ (k - 1)) by (apply Z.pow_pos_nonneg; lia).
  assert (H2 : 0 < 2 ^ (j - 1)) by (apply Z.pow_pos_nonneg; lia).
  assert (H3 : 0 < 2 ^ k) by (apply Z.pow_pos_nonneg; lia).
  f_equal.
  - rewrite Z.div_div by lia. rewrite <- Z.pow_add_r by lia. f_equal. f_equal. lia.
  - rewrite <- Z.shiftr_div_pow2 by lia. rewrite Z.shiftr_spec by lia.
    f_equal. lia.
  - rewrite (mod_pow2_split m j k) by lia.
    pose proof (Z.mod_pos_bound m (2 ^ (k - 1)) H1) as B1.
    pose proof (Z.mod_pos_bound (m / 2 ^ k) (2 ^ (j - 1)) H2) as B2.
    destruct (Z.testbit m (k - 1)); cbn [Z.b2z orb].
    + destruct (Z.eqb_spec (m mod 2 ^ (k - 1) + 2 ^ (k - 1) * 1
                            + 2 ^ k * ((m / 2 ^ k) mod 2 ^ (j - 1))) 0); [nia|].
      cbn [negb]. rewrite orb_true_r. reflexivity.
    + rewrite Z.mul_0_r, Z.add_0_r.
      destruct (Z.eqb_spec (m mod 2 ^ (k - 1)) 0) as [E1|E1];
      destruct (Z.eqb_spec ((m / 2 ^ k) mod 2 ^ (j - 1)) 0) as [E2|E2];
      destruct (Z.eqb_spec (m mod 2 ^ (k - 1)
                            + 2 ^ k * ((m / 2 ^ k) mod 2 ^ (j - 1))) 0) as [E3|E3];
      cbn [negb]; rewrite ?orb_false_r, ?orb_true_r; try reflexivity; try nia.
Qed.

Lemma iter_shr_1_shifted (p : positive) (mrs : shr_record) :
  0 <= shr_m mrs -> iter_pos shr_1 p mrs = shifted (Zpos p) mrs.
Proof.
  revert mrs. induction p as [p IH|p IH|]; intros mrs Hm; cbn [iter_pos].
  - assert (H1 : 0 <= shr_m (shifted 1 mrs))
      by (unfold shifted; cbn [shr_m]; apply Z.div_pos; lia).
    assert (H2 : 0 <= shr_m (shifted (Zpos p) (shifted 1 mrs)))
      by (unfold shifted at 1; cbn [shr_m]; apply Z.div_pos;
          [assumption | apply Z.pow_pos_nonneg; lia]).
    rewrite shr_1_shifted by assumption.
    rewrite (IH (shifted 1 mrs)) by assumption. rewrite IH by assumption.
    rewrite shifted_shifted by lia. rewrite shifted_shifted by lia.
    f_equal. lia.
  - assert (H2 : 0 <= shr_m (shifted (Zpos p) mrs))
      by (unfold shifted; cbn [shr_m]; apply Z.div_pos;
          [assumption | apply Z.pow_pos_nonneg; lia]).
    rewrite (IH mrs) by assumption. rewrite IH by assumption.
    rewrite shifted_shifted by lia. f_equal. lia.
  - apply shr_1_shifted. assumption.
Qed.

Lemma round_shifted_up (mx n : Z) :
  0 <= mx -> 1 <= n -> 2 ^ n < 2 * (mx mod 2 ^ n) ->
  let mrs := shifted n (Build_shr_record mx false false) in
  round_nearest_even (shr_m mrs) (loc_of_shr_record mrs) = mx / 2 ^ n + 1.
Proof.
  intros Hmx Hn Hrem.
  pose proof (mod_pow2_split mx 1 n Hmx Hn (Z.le_refl 1)) as Hs.
  replace (1 + n - 1) with n in Hs by lia.
  change (2 ^ (1 - 1)) with 1 in Hs. rewrite Z.mod_1_r, Z.mul_0_r, Z.add_0_r in Hs.
  assert (H1 : 0 < 2 ^ (n - 1)) by (apply Z.pow_pos_nonneg; lia).
  assert (En : 2 ^ n = 2 ^ (n - 1) * 2).
  { replace n with (n - 1 + 1) at 1 by lia. rewrite Z.pow_add_r by lia. reflexivity. }
  pose proof (Z.mod_pos_bound mx (2 ^ (n - 1)) H1) as B1.
  unfold shifted. cbn [shr_m shr_r shr_s orb].
  destruct (Z.testbit mx (n - 1)); cbn [Z.b2z] in Hs; [|lia].
  destruct (Z.eqb_spec (mx mod 2 ^ (n - 1)) 0) as [E|E]; [lia|].
  reflexivity.
Qed.

Lemma to_int_round_aux (mx ex : Z) :
  0 < mx -> 53 <= Zdigits2 mx -> -900 <= ex + Zdigits2 mx < 53 ->
  exists m1,
    mx / 2 ^ (Zdigits2 mx - 53) <= m1 <= mx / 2 ^ (Zdigits2 mx - 53) + 1
    /\ (2 ^ (Zdigits2 mx - 53) < 2 * (mx mod 2 ^ (Zdigits2 mx - 53)) ->
        m1 = mx / 2 ^ (Zdigits2 mx - 53) + 1)
    /\ to_int (binary_round_aux prec emax false mx ex loc_Exact)
       = Ok (m1 / 2 ^ (53 - Zdigits2 mx - ex)).
Proof.
  intros Hmx Hd Hr.
  pose proof (Zdigits2_bounds mx Hmx) as Hb.
  set (d := Zdigits2 mx) in *.
  unfold binary_round_aux, shr_fexp. fold d.
  rewrite (fexp_normal (d + ex)) by lia.
  replace (d + ex - 53 - ex) with (d - 53) by lia.
  assert (Hrec : shr (shr_record_of_loc mx loc_Exact) ex (d - 53)
                 = (if d - 53 =? 0 then Build_shr_record mx false false
                    else shifted (d - 53) (Build_shr_record mx false false),
                    ex + (d - 53))).
  { cbn [shr_record_of_loc]. destruct (d - 53) as [|p|p] eqn:E; try lia.
    - cbn [shr Z.eqb]. f_equal. lia.
    - cbn [shr Z.eqb]. rewrite iter_shr_1_shifted by (cbn [shr_m]; lia). reflexivity. }
  rewrite Hrec. clear Hrec.
  set (mrs1 := if d - 53 =? 0 then _ else _).
  set (e1 := ex + (d - 53)).
  assert (Hm1 : shr_m mrs1 = mx / 2 ^ (d - 53)).
  { unfold mrs1. destruct (Z.eqb_spec (d - 53) 0) as [E|E].
    - rewrite E. cbn [shr_m]. rewrite Z.div_1_r. reflexivity.
    - reflexivity. }
  assert (Hup : 2 ^ (d - 53) < 2 * (mx mod 2 ^ (d - 53)) ->
                round_nearest_even (shr_m mrs1) (loc_of_shr_record mrs1)
                = mx / 2 ^ (d - 53) + 1).
  { intros Hrem. unfold mrs1. destruct (Z.eqb_spec (d - 53) 0) as [E|E].
    - rewrite E in Hrem. rewrite Z.mod_1_r in Hrem. simpl in Hrem. lia.
    - apply round_shifted_up; lia. }
  pose proof (div_pow2_digits mx d Hd Hb) as Hq. rewrite <- Hm1 in Hq.
  pose proof (round_nearest_even_range (shr_m mrs1) (loc_of_shr_record mrs1)) as Hrn.
  rewrite <- Hm1.
  set (m1 := round_nearest_even (shr_m mrs1) (loc_of_shr_record mrs1)) in *.
  cbn [fst snd].
  assert (Hm1pos : 0 < m1) by (assert (0 < 2 ^ 52) by (apply Z.pow_pos_nonneg; lia); lia).
  exists m1. split; [lia|]. split; [rewrite Hm1; exact Hup|].
  replace (53 - d - ex) with (- e1) by (unfold e1; lia).
  assert (He1 : e1 < 0) by (unfold e1; lia).
  destruct (Z.eq_dec m1 (2 ^ 53)) as [Htop|Hlow].
  - assert (Hd1 : Zdigits2 m1 = 54) by (rewrite Htop; reflexivity).
    rewrite Hd1, (fexp_normal (54 + e1)) by (unfold e1; lia).
    replace (54 + e1 - 53 - e1) with 1 by lia.
    rewrite Htop. simpl.
    assert (Hle : (e1 + 1 <=? 971) = true) by (apply Z.leb_le; lia).
    change (emax - prec) with 971. rewrite Hle.
    cbn [to_int]. f_equal.
    rewrite Z.shiftl_div_pow2 by lia.
    assert (Ep : 2 ^ (- e1) = 2 * 2 ^ (- (e1 + 1))).
    { replace (- e1) with (1 + - (e1 + 1)) by lia. rewrite Z.pow_add_r by lia. reflexivity. }
    rewrite Ep. rewrite <- Z.div_div by (try apply Z.pow_pos_nonneg; lia).
    reflexivity.
  - assert (Hd1 : Zdigits2 m1 = 53) by (apply Zdigits2_unique; simpl; lia).
    rewrite Hd1, (fexp_normal (53 + e1)) by (unfold e1; lia).
    replace (53 + e1 - 53 - e1) with 0 by lia.
    simpl shr. simpl shr_m.
    destruct m1 as [|p1|p1]; try lia.
    assert (Hle : (e1 <=? 971) = true) by (apply Z.leb_le; lia).
    change (emax - prec) with 971. rewrite Hle.
    cbn [shr_m to_int]. f_equal.
    rewrite Z.shiftl_div_pow2 by lia. reflexivity.
Qed.

Lemma Zdigits2_mul_pow2 (z g : Z) :
  0 < z -> 0 <= g -> Zdigits2 (z * 2 ^ g) = Zdigits2 z + g.
Proof.
  intros Hz Hg.
  pose proof (Zdigits2_bounds z Hz) as Hb.
  assert (Hd : 0 < Zdigits2 z) by (destruct z; simpl; lia).
  assert (Hp : 0 < 2 ^ g) by (apply Z.pow_pos_nonneg; lia).
  apply Zdigits2_unique; [lia|].
  replace (Zdigits2 z + g - 1) with (Zdigits2 z - 1 + g) by lia.
  rewrite !Z.pow_add_r by lia. split.
  - apply Z.mul_le_mono_nonneg_r; lia.
  - apply Z.mul_lt_mono_pos_r; lia.
Qed.

(** [int(n * f)] for a positive int [n] and a positive normal double
    [f = mf * 2^(-t)] below one: the exact product [n * mf] is cut to 53
    bits, in units of [U], rounded to nearest, and then truncated to a
    multiple of [U * V = 2^t]. *)
Lemma frac_round (n : Z) (mf : positive) (t : Z) :
  1 <= n < 2 ^ 40 -> 2 ^ 52 <= Zpos mf < 2 ^ 53 -> 53 <= t <= 60 ->
  exists U V m1,
    0 < U /\ 0 < V /\ U * V = 2 ^ t
    /\ U * 2 ^ 52 <= n * Zpos mf < U * 2 ^ 53
    /\ n * Zpos mf / U <= m1 <= n * Zpos mf / U + 1
    /\ (U < 2 * ((n * Zpos mf) mod U) -> m1 = n * Zpos mf / U + 1)
    /\ frac n (S754_finite false mf (- t)) = Ok (m1 / V).
Proof.
  intros Hn Hmf Ht.
  assert (H40 : 2 ^ 40 < 2 ^ 53) by (apply Z.pow_lt_mono_r; lia).
  destruct (dyadic_nonzero n 0) as (qn & En & Hqn & Hdn); try lia.
  destruct (Z.ltb_spec n 0); [lia|].
  replace (Z.abs n) with n in Hqn by lia.
  change (dyadic n 0) with (of_int n) in En.
  assert (Hdn1 : 1 <= Zdigits2 n <= 40)
    by (split; [destruct n; simpl; lia | apply Zdigits2_le; lia]).
  set (dn := Zdigits2 n) in *.
  set (P := n * Zpos mf).
  assert (HP : 2 ^ 52 <= P < 2 ^ 93).
  { unfold P. split; [nia|].
    change (2 ^ 93) with (2 ^ 40 * 2 ^ 53).
    apply Z.lt_le_trans with (n * 2 ^ 53); [apply Z.mul_lt_mono_pos_l; lia|].
    apply Z.mul_le_mono_nonneg_r; lia. }
  assert (HPpos : 0 < P) by (assert (0 < 2 ^ 52) by reflexivity; lia).
  assert (HD : 53 <= Zdigits2 P <= 93).
  { split; [|apply Zdigits2_le; lia].
    change 53 with (Zdigits2 (2 ^ 52)). apply Zdigits2_mono.
    split; [reflexivity | lia]. }
  pose proof (Zdigits2_bounds P HPpos) as HbP.
  set (D := Zdigits2 P) in *.
  set (G := 2 ^ (53 - dn)).
  assert (HG : 0 < G) by (apply Z.pow_pos_nonneg; lia).
  assert (Hmx : Zpos (qn * mf) = P * G)
    by (rewrite Pos2Z.inj_mul, Hqn; unfold P, G; ring).
  assert (Hdig : Zdigits2 (Zpos (qn * mf)) = D + (53 - dn))
    by (rewrite Hmx; apply Zdigits2_mul_pow2; lia).
  set (U := 2 ^ (D - 53)).
  assert (HU : 0 < U) by (apply Z.pow_pos_nonneg; lia).
  assert (HUG : 2 ^ (D + (53 - dn) - 53) = U * G)
    by (unfold U, G; rewrite <- Z.pow_add_r by lia; f_equal; lia).
  destruct (to_int_round_aux (Zpos (qn * mf)) (dn - 53 - t))
    as (m1 & Hm1 & Hup & Eint); try lia.
  rewrite Hdig, HUG, Hmx in *.
  rewrite Z.div_mul_cancel_r in Hm1, Hup by lia.
  rewrite Z.mul_mod_distr_r in Hup by lia.
  exists U, (2 ^ (53 + t - D)), m1.
  split; [exact HU|]. split; [apply Z.pow_pos_nonneg; lia|].
  split; [unfold U; rewrite <- Z.pow_add_r by lia; f_equal; lia|].
  split.
  { unfold U. rewrite <- !Z.pow_add_r by lia.
    replace (D - 53 + 52) with (D - 1) by lia.
    replace (D - 53 + 53) with D by lia. exact HbP. }
  split; [exact Hm1|]. split; [intros H1; apply Hup; nia|].
  unfold frac, fmul, SFmul. rewrite En. cbn [xorb].
  replace (dn - 53 - 0 + - t) with (dn - 53 - t) by lia.
  rewrite Hmx, Eint. f_equal. f_equal. f_equal. lia.
Qed.

Lemma frac_floor (n : Z) (mf : positive) (t : Z) :
  0 <= n < 2 ^ 40 -> 2 ^ 52 <= Zpos mf < 2 ^ 53 -> 53 <= t <= 60 ->
  (n * Zpos mf) mod 2 ^ t + 2 * n <= 2 ^ t ->
  frac n (S754_finite false mf (- t)) = Ok (n * Zpos mf / 2 ^ t).
Proof.
  intros Hn Hmf Ht Hrem.
  destruct (Z.eq_dec n 0) as [->|Hnz]; [reflexivity|].
  destruct (frac_round n mf t) as (U & V & m1 & HU & HV & HUV & HP & Hm1 & _ & E);
    try lia.
  rewrite E. f_equal. rewrite <- HUV in *.
  set (P := n * Zpos mf) in *.
  rewrite <- Z.div_div by lia.
  pose proof (Z.div_mod P U ltac:(lia)) as E0.
  pose proof (Z.mod_pos_bound P U HU) as B0.
  pose proof (Z.div_mod (P / U) V ltac:(lia)) as E1.
  pose proof (Z.mod_pos_bound (P / U) V HV) as B1.
  rewrite Z.rem_mul_r in Hrem by lia.
  set (q := P / U) in *. set (r0 := P mod U) in *.
  set (F := q / V) in *. set (r1 := q mod V) in *.
  assert (HUn : U < 2 * n).
  { assert (U * 2 ^ 52 < n * 2 ^ 53) by (unfold P in HP; nia).
    change (2 ^ 53) with (2 * 2 ^ 52) in H. nia. }
  assert (Hr1 : r1 + 1 < V) by nia.
  symmetry. apply (Z.div_unique_pos _ _ _ (m1 - V * F)); nia.
Qed.

Lemma frac_ceil (n : Z) (mf : positive) (t : Z) :
  1 <= n < 2 ^ 40 -> 2 ^ 52 <= Zpos mf < 2 ^ 53 -> 53 <= t <= 60 ->
  2 ^ 54 * (2 ^ t - (n * Zpos mf) mod 2 ^ t) < n * Zpos mf ->
  frac n (S754_finite false mf (- t)) = Ok (n * Zpos mf / 2 ^ t + 1).
Proof.
  intros Hn Hmf Ht Hrem.
  destruct (frac_round n mf t) as (U & V & m1 & HU & HV & HUV & HP & Hm1 & Hup & E);
    try lia.
  rewrite E. f_equal. rewrite <- HUV in *.
  set (P := n * Zpos mf) in *.
  rewrite <- Z.div_div by lia.
  pose proof (Z.div_mod P U ltac:(lia)) as E0.
  pose proof (Z.mod_pos_bound P U HU) as B0.
  pose proof (Z.div_mod (P / U) V ltac:(lia)) as E1.
  pose proof (Z.mod_pos_bound (P / U) V HV) as B1.
  rewrite Z.rem_mul_r in Hrem by lia.
  set (q := P / U) in *. set (r0 := P mod U) in *.
  set (F := q / V) in *. set (r1 := q mod V) in *.
  change (2 ^ 54) with (2 * 2 ^ 53) in Hrem.
  assert (H2 : 2 * (U * V - (r0 + U * r1)) < U) by nia.
  assert (Hr1 : r1 = V - 1) by nia.
  assert (Hr0 : U < 2 * r0) by nia.
  specialize (Hup Hr0).
  symmetry. apply (Z.div_unique_pos _ _ _ 0); nia.
Qed.

(** The four literals: [0.2 = 7205759403792794 * 2^-55] is
    [(2^55 + 2) / 5 * 2^-55], slightly above 1/5, and likewise 0.4 and 0.8;
    [0.3 = 5404319552844595 * 2^-54] is [(3 * 2^54 - 2) / 10 * 2^-54],
    slightly below 3/10. *)
Lemma frac_0_2 (n : Z) : 0 <= n < 2 ^ 40 -> frac n f0_2 = Ok (n / 5).
Proof.
  intros Hn.
  assert (H40 : 2 ^ 40 = 1099511627776) by reflexivity.
  assert (Ht : 2 ^ 55 = 36028797018963968) by reflexivity.
  pose proof (Z.div_mod n 5 ltac:(lia)) as E.
  pose proof (Z.mod_pos_bound n 5 ltac:(lia)) as B.
  assert (Hq : n * 7205759403792794 / 2 ^ 55 = n / 5).
  { symmetry.
    apply (Z.div_unique_pos _ _ _ (n * 7205759403792794 - 2 ^ 55 * (n / 5))); lia. }
  change f0_2 with (S754_finite false 7205759403792794 (- (55))).
  rewrite frac_floor; [rewrite Hq; reflexivity | lia | simpl; lia | lia |].
  rewrite Z.mod_eq by lia. rewrite Hq. lia.
Qed.

Lemma frac_0_4 (n : Z) : 0 <= n < 2 ^ 40 -> frac n f0_4 = Ok (2 * n / 5).
Proof.
  intros Hn.
  assert (H40 : 2 ^ 40 = 1099511627776) by reflexivity.
  assert (Ht : 2 ^ 54 = 18014398509481984) by reflexivity.
  pose proof (Z.div_mod (2 * n) 5 ltac:(lia)) as E.
  pose proof (Z.mod_pos_bound (2 * n) 5 ltac:(lia)) as B.
  assert (Hq : n * 7205759403792794 / 2 ^ 54 = 2 * n / 5).
  { symmetry.
    apply (Z.div_unique_pos _ _ _ (n * 7205759403792794 - 2 ^ 54 * (2 * n / 5))); lia. }
  change f0_4 with (S754_finite false 7205759403792794 (- (54))).
  rewrite frac_floor; [rewrite Hq; reflexivity | lia | simpl; lia | lia |].
  rewrite Z.mod_eq by lia. rewrite Hq. lia.
Qed.

Lemma frac_0_8 (n : Z) : 0 <= n < 2 ^ 40 -> frac n f0_8 = Ok (4 * n / 5).
Proof.
  intros Hn.
  assert (H40 : 2 ^ 40 = 1099511627776) by reflexivity.
  assert (Ht : 2 ^ 53 = 9007199254740992) by reflexivity.
  pose proof (Z.div_mod (4 * n) 5 ltac:(lia)) as E.
  pose proof (Z.mod_pos_bound (4 * n) 5 ltac:(lia)) as B.
  assert (Hq : n * 7205759403792794 / 2 ^ 53 = 4 * n / 5).
  { symmetry.
    apply (Z.div_unique_pos _ _ _ (n * 7205759403792794 - 2 ^ 53 * (4 * n / 5))); lia. }
  change f0_8 with (S754_finite false 7205759403792794 (- (53))).
  rewrite frac_floor; [rewrite Hq; reflexivity | lia | simpl; lia | lia |].
  rewrite Z.mod_eq by lia. rewrite Hq. lia.
Qed.

Lemma frac_0_3 (n : Z) : 0 <= n < 2 ^ 40 -> frac n f0_3 = Ok (3 * n / 10).
Proof.
  intros Hn.
  assert (H40 : 2 ^ 40 = 1099511627776) by reflexivity.
  assert (Ht : 2 ^ 54 = 18014398509481984) by reflexivity.
  pose proof (Z.div_mod (3 * n) 10 ltac:(lia)) as E.
  pose proof (Z.mod_pos_bound (3 * n) 10 ltac:(lia)) as B.
  change f0_3 with (S754_finite false 5404319552844595 (- (54))).
  destruct (Z.eq_dec n 0) as [->|Hnz]; [reflexivity|].
  destruct (Z.eq_dec ((3 * n) mod 10) 0) as [Hz|Hz].
  - (* a multiple of 10: the product falls short of the integer by less
       than half a unit in the last place, and is rounded up to it *)
    assert (Hq : n * 5404319552844595 / 2 ^ 54 = 3 * n / 10 - 1).
    { symmetry.
      apply (Z.div_unique_pos _ _ _
               (n * 5404319552844595 - 2 ^ 54 * (3 * n / 10 - 1))); lia. }
    rewrite frac_ceil; [rewrite Hq; f_equal; lia | lia | simpl; lia | lia |].
    rewrite Z.mod_eq by lia. rewrite Hq. lia.
  - assert (Hq : n * 5404319552844595 / 2 ^ 54 = 3 * n / 10).
    { symmetry.
      apply (Z.div_unique_pos _ _ _
               (n * 5404319552844595 - 2 ^ 54 * (3 * n / 10))); lia. }
    rewrite frac_floor; [rewrite Hq; reflexivity | lia | simpl; lia | lia |].
    rewrite Z.mod_eq by lia. rewrite Hq. lia.
Qed.

(** ** The layer, in integers *)

Lemma locals_in_integers (size : Z) (scale : float) (radius : Z) (l : locals) :
  0 <= size <= INT_MAX -> locals_of size scale radius l ->
  l = integer_locals size /\ radius = 700 * size / 1024 / 4.
Proof.
  intros Hs Hl. pose proof INT_MAX_lt as HM.
  change (2 ^ 31) with 2147483648 in HM.
  assert (H40 : 2 ^ 40 = 1099511627776) by reflexivity.
  assert (H53 : 2 ^ 53 = 9007199254740992) by reflexivity.
  destruct Hl as (Hscale & Hbs & Hbx & Hby & Hso & Hrad & Hts & (inset & Hin & Htx)
                  & Hty & Hcx & Hcy & Hss & Hpl & Hpw & Hsm & Hsw & Hdd & Hds & Hpos).
  rewrite scale_exact in Hscale by assumption.
  assert (scale = dyadic size 10) by congruence. subst scale.
  rewrite scaled_exact in Hbs, Hso, Hts, Hss, Hds by (assumption || lia).
  assert (Ebs : bubble_size l = 700 * size / 1024) by congruence.
  assert (Eso : shadow_offset l = 8 * size / 1024) by congruence.
  assert (Ets : tail_size l = 60 * size / 1024) by congruence.
  assert (Ess : sparkle_size l = 200 * size / 1024) by congruence.
  assert (Eds : dot_size l = 20 * size / 1024) by congruence.
  assert (Bbs : 0 <= 700 * size / 1024 <= size)
    by (split; [apply Z.div_pos; lia | apply Z.div_le_upper_bound; lia]).
  assert (Bss : 0 <= 200 * size / 1024 <= size)
    by (split; [apply Z.div_pos; lia | apply Z.div_le_upper_bound; lia]).
  rewrite Ebs in Hbx, Hby, Hrad, Hin.
  rewrite Ess in Hpl, Hpw, Hsm, Hdd.
  rewrite bubble_y_exact in Hby;
    [| assumption
     | rewrite H40; split; [apply Z.div_pos; lia | apply Z.div_lt_upper_bound; lia]].
  rewrite quarter_exact in Hrad by lia.
  rewrite frac_0_2 in Hin by lia.
  rewrite frac_0_3 in Hpw by lia.
  rewrite frac_0_4 in Hsm by lia.
  rewrite frac_0_8 in Hdd by lia.
  assert (Eby : bubble_y l = Z.quot (1024 * ((size - 700 * size / 1024) / 2) - 40 * size) 1024)
    by congruence.
  assert (Erad : radius = 700 * size / 1024 / 4) by congruence.
  assert (Ein : inset = 700 * size / 1024 / 5) by congruence.
  assert (Epw : point_width l = 3 * (200 * size / 1024) / 10) by congruence.
  assert (Esm : small_sparkle l = 2 * (200 * size / 1024) / 5) by congruence.
  assert (Edd : dot_distance l = 4 * (200 * size / 1024) / 5) by congruence.
  assert (Bsm : 0 <= 2 * (200 * size / 1024) / 5 <= size)
    by (split; [apply Z.div_pos; lia | apply Z.div_le_upper_bound; lia]).
  rewrite Esm in Hsw. rewrite frac_0_3 in Hsw by lia.
  assert (Esw : small_width l = 3 * (2 * (200 * size / 1024) / 5) / 10) by congruence.
  split; [|exact Erad].
  clear Hbs Hso Hts Hss Hds Hby Hrad Hin Hpw Hsm Hdd Hsw Hscale.
  destruct l as [bs bx by_ so ts tx ty cx cy ss pl pw sm sw dd ds pos].
  cbn [bubble_size bubble_x bubble_y shadow_offset tail_size tail_x tail_y
       sparkle_center_x sparkle_center_y sparkle_size point_length point_width
       small_sparkle small_width dot_distance dot_size accent_positions] in *.
  unfold integer_locals. subst. reflexivity.
Qed.

(** The layer, for every size it is drawn for: the floating-point
    computation agrees with integer arithmetic on every coordinate. *)
Lemma draw_layer_exact (size : Z) :
  0 <= size <= MAX_DIM ->
  draw_layer size
  = Ok (mkImage RGBA (size, size) (rgba 0 0 0 0)
          (layer_calls (integer_locals size) (700 * size / 1024 / 4)),
        integer_locals size).
Proof.
  intros Hs.
  assert (Hs' : 0 <= size <= INT_MAX) by (pose proof MAX_DIM_lt; lia).
  destruct (draw_layer_total size Hs) as (layer & l & E).
  destruct (draw_layer_inv size layer l E) as (scale & radius & Hl & ->).
  destruct (locals_in_integers size scale radius l Hs' Hl) as [-> ->].
  exact E.
Qed.

Lemma draw_layer_domain (size : Z) (layer : Image) (l : locals) :
  draw_layer size = Ok (layer, l) -> 0 <= size <= MAX_DIM.
Proof.
  intros H. unfold draw_layer in H. inv_bind H. apply Image_new_inv in E. tauto.
Qed.

(** The points of the layer, as expressions in [size]. *)
Ltac layer_points :=
  cbv beta iota zeta delta
    [drawn_points layer_calls integer_locals flat_map shape_points app map
     accent_dot fst snd bubble_size bubble_x bubble_y shadow_offset tail_size
     tail_x tail_y sparkle_center_x sparkle_center_y sparkle_size point_length
     point_width small_sparkle small_width dot_distance dot_size
     accent_positions im_calls].

Lemma layer_points_on_canvas (size r : Z) :
  0 <= size ->
  Forall (in_box (0, 0) (size, size))
    (drawn_points (layer_calls (integer_locals size) r)).
Proof.
  intros Hs. layer_points.
  set (bs := 700 * size / 1024).
  set (bx := (size - bs) / 2).
  set (by_ := Z.quot (1024 * bx - 40 * size) 1024).
  set (so := 8 * size / 1024).
  set (ts := 60 * size / 1024).
  set (ss := 200 * size / 1024).
  set (ds := 20 * size / 1024).
  set (sm := 2 * ss / 5).
  assert (Hbs : 1024 * bs <= 700 * size < 1024 * bs + 1024)
    by (unfold bs; Z.to_euclidean_division_equations; lia).
  assert (Hbx : 2 * bx <= size - bs < 2 * bx + 2)
    by (unfold bx; Z.to_euclidean_division_equations; lia).
  assert (Hby : 1024 * by_ <= 1024 * bx - 40 * size + 1023
                /\ 1024 * bx - 40 * size - 1023 <= 1024 * by_ /\ 0 <= by_)
    by (unfold by_; Z.to_euclidean_division_equations; lia).
  assert (Hso : 1024 * so <= 8 * size < 1024 * so + 1024)
    by (unfold so; Z.to_euclidean_division_equations; lia).
  assert (Hts : 1024 * ts <= 60 * size < 1024 * ts + 1024)
    by (unfold ts; Z.to_euclidean_division_equations; lia).
  assert (Hss : 1024 * ss <= 200 * size < 1024 * ss + 1024)
    by (unfold ss; Z.to_euclidean_division_equations; lia).
  assert (Hds : 1024 * ds <= 20 * size < 1024 * ds + 1024)
    by (unfold ds; Z.to_euclidean_division_equations; lia).
  assert (Hsm : 5 * sm <= 2 * ss < 5 * sm + 5)
    by (unfold sm; Z.to_euclidean_division_equations; lia).
  clearbody bs bx by_ so ts ss ds sm.
  repeat (constructor; [unfold in_box; cbn [fst snd];
                        Z.to_euclidean_division_equations; lia|]).
  constructor.
Qed.

Lemma sparkle_points_in_bubble (size r : Z) :
  0 <= size ->
  let l := integer_locals size in
  Forall (in_box (bubble_x l, bubble_y l)
                 (bubble_x l + bubble_size l, bubble_y l + bubble_size l))
    (drawn_points (skipn 3 (layer_calls l r))).
Proof.
  intros Hs l. subst l. cbn [skipn layer_calls app]. layer_points.
  set (bs := 700 * size / 1024).
  set (bx := (size - bs) / 2).
  set (by_ := Z.quot (1024 * bx - 40 * size) 1024).
  set (ss := 200 * size / 1024).
  set (ds := 20 * size / 1024).
  set (sm := 2 * ss / 5).
  assert (Hbs : 1024 * bs <= 700 * size < 1024 * bs + 1024)
    by (unfold bs; Z.to_euclidean_division_equations; lia).
  assert (Hss : 1024 * ss <= 200 * size < 1024 * ss + 1024)
    by (unfold ss; Z.to_euclidean_division_equations; lia).
  assert (Hds : 1024 * ds <= 20 * size < 1024 * ds + 1024)
    by (unfold ds; Z.to_euclidean_division_equations; lia).
  assert (Hsm : 5 * sm <= 2 * ss < 5 * sm + 5)
    by (unfold sm; Z.to_euclidean_division_equations; lia).
  clearbody bs bx by_ ss ds sm.
  repeat (constructor; [unfold in_box; cbn [fst snd];
                        Z.to_euclidean_division_equations; lia|]).
  constructor.
Qed.

(** ** The background, and the sizes the renderer accepts *)

Lemma exact_channel_decreasing (light dark size y y' : Z) :
  dark <= light -> 0 < size -> y <= y' ->
  exact_channel light dark size y' <= exact_channel light dark size y.
Proof.
  intros Hld Hs Hy. unfold exact_channel.
  apply Z.div_le_mono; [lia | nia].
Qed.

Lemma exact_channel_step (light dark size y : Z) :
  dark <= light -> light - dark <= size -> 0 < size ->
  exact_channel light dark size y - 1 <= exact_channel light dark size (y + 1).
Proof.
  intros Hld Hstep Hs. unfold exact_channel.
  replace (light * (size - y) + dark * y)
    with ((light * (size - (y + 1)) + dark * (y + 1)) + (light - dark)) by ring.
  set (a := light * (size - (y + 1)) + dark * (y + 1)).
  assert ((a + (light - dark)) / size <= (a + 1 * size) / size)
    by (apply Z.div_le_mono; lia).
  rewrite Z.div_add in H by lia. lia.
Qed.

Lemma rows_length (size : Z) (ys : list Z) (rows : list call) :
  Forall2 (row_call size) ys rows -> List.length rows = List.length ys.
Proof. induction 1; simpl; congruence. Qed.

Lemma range_length (n : Z) : List.length (range n) = Z.to_nat n.
Proof. unfold range. rewrite List.length_map, length_seq. reflexivity. Qed.

Lemma draw_urgood_icon_domain (size : Z) (im : Image) :
  draw_urgood_icon size = Ok im -> 0 <= size <= MAX_DIM.
Proof.
  unfold draw_urgood_icon. intros H.
  destruct (draw_layer size) as [[layer l]|e] eqn:E; [|discriminate H].
  exact (draw_layer_domain size layer l E).
Qed.

(** Outside the accepted sizes the renderer stops at its first statement,
    with the exception of [Image.new]. *)
Lemma draw_urgood_icon_refused (size : Z) :
  ~ (0 <= size <= MAX_DIM) ->
  draw_urgood_icon size
  = if size <? 0 then Raise (ValueError "Width and height must be >= 0")
    else if LONG_MAX <? size then
      Raise (OverflowError "Python int too large to convert to C long")
    else if INT_MAX <? size then
      Raise (OverflowError "signed integer is greater than maximum")
    else Raise (MemoryError "").
Proof.
  intros Hs. unfold draw_urgood_icon, draw_layer. rewrite Image_new_square.
  destruct (Z.ltb_spec size 0); [reflexivity|].
  destruct (Z.ltb_spec LONG_MAX size); [reflexivity|].
  destruct (Z.ltb_spec INT_MAX size); [reflexivity|].
  destruct (Z.ltb_spec MAX_DIM size); [reflexivity|lia].
Qed.

Lemma valid_size_spec (size : Z) : valid_size size = true <-> 0 <= size <= MAX_DIM.
Proof. unfold valid_size. rewrite andb_true_iff, !Z.leb_le. tauto. Qed.

Lemma draw_urgood_icon_valid (size : Z) :
  valid_size size = true <-> exists im, draw_urgood_icon size = Ok im.
Proof.
  rewrite valid_size_spec. split.
  - intros Hs. destruct (draw_urgood_icon_ok size Hs) as (layer & l & rows & _ & _ & E).
    eexists. exact E.
  - intros (im & E). exact (draw_urgood_icon_domain size im E).
Qed.

Lemma top_row_color (size : Z) :
  1 <= size <= INT_MAX -> gradient_color size 0 = Ok sky_blue_light.
Proof.
  intros Hs. pose proof INT_MAX_lt as HM.
  assert (H53 : 2 ^ 31 < 2 ^ 53) by reflexivity.
  unfold gradient_color, truediv.
  destruct (Z.eqb_spec size 0); [lia|]. cbn [rbind].
  destruct (dyadic_nonzero size 0) as (q & E & _); try lia.
  change (dyadic size 0) with (of_int size) in E. rewrite E.
  reflexivity.
Qed.

(** ** Files and reports of the batch *)

Lemma reported_app (tr1 tr2 : list event) :
  reported (tr1 ++ tr2) = reported tr1 ++ reported tr2.
Proof. apply flat_map_app. Qed.

Lemma entry_partition (w : world) (icon_dir : string) (entry : string * Z) :
  0 < snd entry <= MAX_DIM ->
  let path := joinpath icon_dir (fst entry) in
  exists img,
    draw_urgood_icon (snd entry) = Ok img
    /\ entry_files w icon_dir entry
       = (if accepts_write w path then [(path, img)] else [])
    /\ reported (entry_trace w icon_dir entry)
       = (if accepts_write w path then [] else [OSError (write_error w path)]).
Proof.
  intros Hs path.
  destruct (draw_urgood_icon_ok (snd entry)) as (layer & l & rows & _ & _ & E);
    [lia|].
  eexists. split; [exact E|].
  unfold entry_files, entry_trace. fold path. rewrite E.
  rewrite (save_failure_square w path
             (mkImage RGB (snd entry, snd entry) (rgb 0 0 0)
                (rows ++ [Paste layer (0, 0) layer])) (snd entry) eq_refl).
  destruct (Z.eqb_spec (snd entry) 0); [lia|].
  destruct (accepts_write w path); split; reflexivity.
Qed.

Lemma batch_partition (w : world) (icon_dir : string) (entries : list (string * Z)) :
  Forall (fun e => 0 < snd e <= MAX_DIM) entries ->
  let paths := map (fun e => joinpath icon_dir (fst e)) entries in
  let written := flat_map (entry_files w icon_dir) entries in
  map fst written = filter (accepts_write w) paths
  /\ reported (flat_map (entry_trace w icon_dir) entries)
     = map (fun p => OSError (write_error w p))
         (filter (fun p => negb (accepts_write w p)) paths)
  /\ Forall (fun f => exists e, In e entries
                                /\ fst f = joinpath icon_dir (fst e)
                                /\ draw_urgood_icon (snd e) = Ok (snd f)) written.
Proof.
  induction 1 as [|e entries He _ IH]; cbn zeta.
  - split; [reflexivity|]. split; [reflexivity | constructor].
  - destruct IH as (IH1 & IH2 & IH3).
    destruct (entry_partition w icon_dir e He) as (img & Eimg & Ef & Er).
    cbn [flat_map map filter]. rewrite map_app, reported_app, Ef, Er, IH1, IH2.
    assert (IH3' : Forall (fun f => exists e0, In e0 (e :: entries)
                                     /\ fst f = joinpath icon_dir (fst e0)
                                     /\ draw_urgood_icon (snd e0) = Ok (snd f))
                     (flat_map (entry_files w icon_dir) entries)).
    { eapply Forall_impl; [|exact IH3]. intros f (e0 & Hin & H1 & H2).
      exists e0. split; [right; exact Hin|]. split; assumption. }
    destruct (accepts_write w (joinpath icon_dir (fst e))); cbn [negb map app fst].
    + split; [reflexivity|]. split; [reflexivity|].
      constructor; [|exact IH3'].
      exists e. split; [left; reflexivity|]. split; [reflexivity | exact Eimg].
    + split; [reflexivity|]. split; [reflexivity | exact IH3'].
Qed.

Lemma filter_partition_length {A} (f : A -> bool) (xs : list A) :
  (List.length (filter f xs) + List.length (filter (fun x => negb (f x)) xs)
   = List.length xs)%nat.
Proof.
  induction xs as [|x xs IH]; [reflexivity|]. cbn [filter].
  destruct (f x); cbn [negb List.length]; lia.
Qed.

Lemma entry_saves (w : world) (icon_dir : string) (entry : string * Z) :
  save_calls (entry_trace w icon_dir entry)
  = (if valid_size (snd entry)
     then [(joinpath icon_dir (fst entry), "PNG"%string, (snd entry, snd entry))]
     else [])
  /\ (valid_size (snd entry) = false ->
      entry_files w icon_dir entry = []
      /\ exists e, draw_urgood_icon (snd entry) = Raise e
                   /\ reported (entry_trace w icon_dir entry) = [e]).
Proof.
  unfold entry_trace, entry_files.
  destruct (valid_size (snd entry)) eqn:Hv.
  - apply valid_size_spec in Hv.
    destruct (draw_urgood_icon_ok (snd entry) Hv) as (layer & l & rows & _ & _ & E).
    rewrite E. split; [|discriminate].
    destruct (save_failure w _ _); reflexivity.
  - destruct (draw_urgood_icon (snd entry)) as [im|e] eqn:E.
    + assert (valid_size (snd entry) = true)
        by (apply draw_urgood_icon_valid; exists im; exact E).
      congruence.
    + split; [reflexivity|]. intros _. split; [reflexivity|].
      exists e. split; reflexivity.
Qed.

(** ** The sizes the renderer accepts *)

(** X1.  [draw_urgood_icon] returns an image exactly for the sizes from 0
    to [MAX_DIM = INT_MAX / 4 - 1 = 536870910], the largest dimension
    [Image.new] takes.  Every other size is refused by [Image.new] on the
    first line of the function: a negative size with its [ValueError], a
    size above [MAX_DIM] that still fits a C [int] with a [MemoryError]
    without text, a larger one with the [OverflowError] of the conversion to
    a C [int] and, beyond a 64-bit C [long], with that of the conversion to
    a C [long].  Nothing else is ever raised: no [int()] meets an infinity
    or a NaN, no box is inverted, no division is by zero. *)
Theorem renderer_domain (size : Z) :
  ((exists im, draw_urgood_icon size = Ok im) <-> 0 <= size <= MAX_DIM)
  /\ (draw_urgood_icon size = Raise (ValueError "Width and height must be >= 0")
      <-> size < 0)
  /\ (draw_urgood_icon size = Raise (MemoryError "")
      <-> MAX_DIM < size <= INT_MAX)
  /\ (draw_urgood_icon size
      = Raise (OverflowError "signed integer is greater than maximum")
      <-> INT_MAX < size <= LONG_MAX)
  /\ (draw_urgood_icon size
      = Raise (OverflowError "Python int too large to convert to C long")
      <-> LONG_MAX < size)
  /\ (forall e, draw_urgood_icon size = Raise e ->
        e = ValueError "Width and height must be >= 0"
        \/ e = MemoryError ""
        \/ e = OverflowError "signed integer is greater than maximum"
        \/ e = OverflowError "Python int too large to convert to C long").
Proof.
  assert (H0 : 0 < MAX_DIM) by reflexivity.
  assert (H1 : MAX_DIM < INT_MAX) by reflexivity.
  assert (H2 : INT_MAX < LONG_MAX) by reflexivity.
  destruct (Z_le_gt_dec 0 size) as [Hnn|Hneg];
    [destruct (Z_le_gt_dec size MAX_DIM) as [Hok|Hbig]|].
  - destruct (draw_urgood_icon_ok size (conj Hnn Hok))
      as (layer & l & rows & _ & _ & E).
    rewrite E.
    repeat split; try discriminate; try lia.
    eexists; reflexivity.
  - rewrite draw_urgood_icon_refused by lia.
    destruct (Z.ltb_spec size 0) as [|_]; [lia|].
    destruct (Z.ltb_spec LONG_MAX size) as [Hl|Hl];
      [|destruct (Z.ltb_spec INT_MAX size) as [Hi|Hi]];
      repeat split; try discriminate; try lia; try reflexivity;
      try (intros (im & Eim); discriminate Eim);
      try (match goal with H : exists _, _ |- _ => destruct H as (im & Eim) end;
           discriminate Eim);
      intros e Ee; inversion Ee; tauto.
  - rewrite draw_urgood_icon_refused by lia.
    destruct (Z.ltb_spec size 0) as [_|]; [|lia].
    repeat split; try discriminate; try lia; try reflexivity;
      try (intros (im & Eim); discriminate Eim);
      try (match goal with H : exists _, _ |- _ => destruct H as (im & Eim) end;
           discriminate Eim);
      intros e Ee; inversion Ee; tauto.
Qed.

(** ** The background *)

(** X2.  For every accepted size the calls on the returned image are, in
    this order: one line per scanline [y = 0 .. size - 1], from [(0, y)] to
    [(size, y)] in the color the loop computes for [y], and then the paste
    of the layer at [(0, 0)] with the layer itself as mask; the layer is an
    RGBA image of the same size.  Nothing is drawn on the result after the
    paste. *)
Theorem background_then_layer (size : Z) :
  0 <= size <= MAX_DIM ->
  exists im layer l,
    draw_urgood_icon size = Ok im
    /\ draw_layer size = Ok (layer, l)
    /\ List.length (im_calls im) = S (Z.to_nat size)
    /\ (forall y, 0 <= y < size ->
          exists col,
            gradient_color size y = Ok col
            /\ nth_error (im_calls im) (Z.to_nat y)
               = Some (Draw (line (0, y) (size, y) col)))
    /\ nth_error (im_calls im) (Z.to_nat size) = Some (Paste layer (0, 0) layer)
    /\ im_mode layer = RGBA
    /\ im_size layer = (size, size).
Proof.
  intros Hs.
  destruct (draw_urgood_icon_ok size Hs) as (layer & l & rows & El & Hrows & E).
  pose proof (rows_length size _ _ Hrows) as Hlen. rewrite range_length in Hlen.
  exists (mkImage RGB (size, size) (rgb 0 0 0) (rows ++ [Paste layer (0, 0) layer])),
         layer, l.
  split; [exact E|]. split; [exact El|]. cbn [im_calls].
  split; [rewrite length_app, Hlen; simpl; lia|].
  split.
  - intros y Hy.
    destruct (Forall2_nth_error _ _ _ Hrows (Z.to_nat y) y (nth_error_range size y Hy))
      as (c & Hc & col & Hcol & ->).
    exists col. split; [exact Hcol|].
    rewrite nth_error_app1; [exact Hc|].
    apply nth_error_Some. rewrite Hc. discriminate.
  - split.
    + rewrite nth_error_app2 by lia. rewrite Hlen, Nat.sub_diag. reflexivity.
    + destruct (draw_layer_inv size layer l El) as (scale & radius & _ & ->).
      split; reflexivity.
Qed.

Lemma background_then_layer_witness :
  exists im layer,
    draw_urgood_icon 16 = Ok im
    /\ List.length (im_calls im) = 17%nat
    /\ nth_error (im_calls im) 16 = Some (Paste layer (0, 0) layer).
Proof.
  destruct (background_then_layer 16) as (im & layer & l & E & _ & Hlen & _ & Hp & _);
    [dim_bound|].
  exists im, layer. split; [exact E|]. split; [exact Hlen | exact Hp].
Defined.

(** X3.  The top scanline has exactly the light color [(102, 178, 255)]:
    with [ratio = 0.0] the interpolation of the loop body is exact, for
    every size that fits a C [int]; and for every size with at least one
    row that [Image.new] accepts (up to [MAX_DIM]) the first call on the
    returned image draws the top line in this color. *)
Theorem top_row_is_light (size : Z) :
  1 <= size <= INT_MAX ->
  gradient_color size 0 = Ok (rgb 102 178 255)
  /\ (size <= MAX_DIM ->
      exists im,
        draw_urgood_icon size = Ok im
        /\ nth_error (im_calls im) 0
           = Some (Draw (line (0, 0) (size, 0) (rgb 102 178 255)))).
Proof.
  intros Hs. pose proof (top_row_color size Hs) as Hc.
  split; [exact Hc|]. intros Hd.
  destruct (background_row size 0) as (im & col & E & Hcol & Hrow); try lia.
  exists im. split; [exact E|].
  change (Z.to_nat 0) with 0%nat in Hrow. rewrite Hrow.
  rewrite Hc in Hcol. injection Hcol as <-. reflexivity.
Qed.

Lemma top_row_is_light_witness :
  1 <= 7 <= INT_MAX
  /\ gradient_color 7 0 = Ok (rgb 102 178 255)
  /\ exists im,
       draw_urgood_icon 7 = Ok im
       /\ nth_error (im_calls im) 0
          = Some (Draw (line (0, 0) (7, 0) (rgb 102 178 255))).
Proof.
  split; [unfold INT_MAX; lia|].
  destruct (top_row_is_light 7) as [Hc Him]; [unfold INT_MAX; lia|].
  split; [exact Hc | apply Him; dim_bound].
Defined.

(** X4.  On a canvas whose size is a power of two (up to [2^30]) the
    background never gets lighter downwards: from a row to any row below
    it, red and green do not increase and blue stays 255.  From [32] pixels
    on, two neighbouring rows differ by at most one level in each
    channel. *)
Theorem gradient_darkens_downwards (k y y' : Z) :
  0 <= k <= 30 -> 0 <= y <= y' -> y' < 2 ^ k ->
  exists c c',
    gradient_color (2 ^ k) y = Ok c
    /\ gradient_color (2 ^ k) y' = Ok c'
    /\ red c' <= red c
    /\ green c' <= green c
    /\ blue c = 255 /\ blue c' = 255
    /\ (y' = y + 1 -> 5 <= k ->
        red c - 1 <= red c' /\ green c - 1 <= green c').
Proof.
  intros Hk Hy Hy'.
  assert (HS : 0 < 2 ^ k) by (apply Z.pow_pos_nonneg; lia).
  eexists _, _.
  split; [apply gradient_color_exact; lia|].
  split; [apply gradient_color_exact; lia|].
  cbn [red green blue].
  split; [apply exact_channel_decreasing; lia|].
  split; [apply exact_channel_decreasing; lia|].
  split; [apply exact_channel_flat; exact HS|].
  split; [apply exact_channel_flat; exact HS|].
  intros -> Hk5.
  assert (H32 : 2 ^ 5 <= 2 ^ k) by (apply Z.pow_le_mono_r; lia).
  change (2 ^ 5) with 32 in H32.
  split; apply exact_channel_step; lia.
Qed.

Lemma gradient_darkens_downwards_witness :
  exists c c',
    gradient_color 1024 0 = Ok c /\ gradient_color 1024 1023 = Ok c'
    /\ red c' <= red c /\ green c' <= green c.
Proof.
  destruct (gradient_darkens_downwards 10 0 1023) as (c & c' & E & E' & Hr & Hg & _);
    [lia | lia | reflexivity |].
  exists c, c'. repeat split; assumption.
Defined.

(** ** Products with the decimal literals *)

(** X5.  For an int [n] from 0 up to [2^40], the script's [int(n * 0.2)],
    [int(n * 0.3)], [int(n * 0.4)], [int(n * 0.8)] and [int(n * 0.25)],
    evaluated in binary64, are the integer quotients [n // 5],
    [3 * n // 10], [2 * n // 5], [4 * n // 5] and [n // 4]: none of the
    four inexact literals ever moves a product across an integer.  (0.3 is
    stored slightly below 3/10; at the multiples of 10 the product rounds
    up to the integer itself.) *)
Theorem literal_products_truncate_exactly (n : Z) :
  0 <= n < 2 ^ 40 ->
  frac n f0_2 = Ok (n / 5)
  /\ frac n f0_3 = Ok (3 * n / 10)
  /\ frac n f0_4 = Ok (2 * n / 5)
  /\ frac n f0_8 = Ok (4 * n / 5)
  /\ frac n f0_25 = Ok (n / 4).
Proof.
  intros Hn.
  split; [apply frac_0_2; exact Hn|].
  split; [apply frac_0_3; exact Hn|].
  split; [apply frac_0_4; exact Hn|].
  split; [apply frac_0_8; exact Hn|].
  apply quarter_exact.
  assert (2 ^ 40 < 2 ^ 53) by reflexivity. lia.
Qed.

Lemma literal_products_truncate_exactly_witness :
  0 <= 10 < 2 ^ 40 /\ frac 10 f0_3 = Ok 3 /\ frac 10 f0_8 = Ok 8.
Proof.
  assert (H : 0 <= 10 < 2 ^ 40) by (split; [lia | reflexivity]).
  split; [exact H|].
  destruct (literal_products_truncate_exactly 10 H) as (_ & E3 & _ & E8 & _).
  split; [exact E3 | exact E8].
Defined.

(** ** The geometry of the layer *)

(** X6.  Whenever the layer is drawn, its locals are those of
    [integer_locals]: every coordinate the script computes through floats
    is the integer quotient one reads off the formula, for every accepted
    size, and the corner radius of both rounded rectangles is
    [bubble_size // 4]. *)
Theorem layer_in_integer_arithmetic (size : Z) (layer : Image) (l : locals) :
  draw_layer size = Ok (layer, l) ->
  l = integer_locals size
  /\ layer = mkImage RGBA (size, size) (rgba 0 0 0 0)
               (layer_calls l (bubble_size l / 4)).
Proof.
  intros H. pose proof (draw_layer_domain size layer l H) as Hs.
  rewrite (draw_layer_exact size Hs) in H.
  injection H as <- <-. split; reflexivity.
Qed.

Lemma layer_in_integer_arithmetic_witness :
  exists layer,
    draw_layer 1000 = Ok (layer, integer_locals 1000)
    /\ point_width (integer_locals 1000) = 58
    /\ small_width (integer_locals 1000) = 23.
Proof.
  destruct (draw_layer_total 1000) as (layer & l & E); [dim_bound|].
  destruct (layer_in_integer_arithmetic 1000 layer l E) as [-> _].
  exists layer. split; [exact E|]. split; reflexivity.
Defined.

(** X7.  Nothing is drawn off the canvas: for every size the layer is
    drawn for, each corner of each box and each vertex of each polygon
    drawn on it lies in the square from [(0, 0)] to [(size, size)]. *)
Theorem shapes_stay_on_canvas (size : Z) (layer : Image) (l : locals) :
  draw_layer size = Ok (layer, l) ->
  Forall (in_box (0, 0) (size, size)) (drawn_points (im_calls layer)).
Proof.
  intros H. pose proof (draw_layer_domain size layer l H) as Hs.
  rewrite (draw_layer_exact size Hs) in H.
  injection H as <- <-. cbn [im_calls].
  apply layer_points_on_canvas. lia.
Qed.

Lemma shapes_stay_on_canvas_witness :
  exists layer l,
    draw_layer 16 = Ok (layer, l)
    /\ Forall (in_box (0, 0) (16, 16)) (drawn_points (im_calls layer)).
Proof.
  destruct (draw_layer_total 16) as (layer & l & E); [dim_bound|].
  exists layer, l. split; [exact E|].
  exact (shapes_stay_on_canvas 16 layer l E).
Defined.

(** X8.  The bubble is centred horizontally up to one pixel (the right
    margin is the left margin or one more), it starts at or above the
    centred height and never above the canvas, its corner circles fit its
    side, and the tail hangs from its bottom edge within its width. *)
Theorem bubble_layout (size : Z) (layer : Image) (l : locals) :
  draw_layer size = Ok (layer, l) ->
  bubble_x l <= size - (bubble_x l + bubble_size l) <= bubble_x l + 1
  /\ 0 <= bubble_y l <= bubble_x l
  /\ 0 <= 2 * (bubble_size l / 4) <= bubble_size l
  /\ tail_y l = bubble_y l + bubble_size l
  /\ bubble_x l <= tail_x l
  /\ tail_x l + tail_size l <= bubble_x l + bubble_size l.
Proof.
  intros H. pose proof (draw_layer_domain size layer l H) as Hs.
  rewrite (draw_layer_exact size Hs) in H.
  injection H as _ <-.
  cbv beta iota zeta delta
    [integer_locals bubble_size bubble_x bubble_y tail_size tail_x tail_y].
  destruct Hs as [Hs _].
  set (bs := 700 * size / 1024).
  assert (Hbs : 1024 * bs <= 700 * size < 1024 * bs + 1024)
    by (unfold bs; Z.to_euclidean_division_equations; lia).
  clearbody bs.
  repeat split; Z.to_euclidean_division_equations; lia.
Qed.

Lemma bubble_layout_witness :
  exists layer l,
    draw_layer 1024 = Ok (layer, l)
    /\ bubble_x l <= 1024 - (bubble_x l + bubble_size l) <= bubble_x l + 1.
Proof.
  destruct (draw_layer_total 1024) as (layer & l & E); [dim_bound|].
  exists layer, l. split; [exact E|].
  exact (proj1 (bubble_layout 1024 layer l E)).
Defined.

(** X9.  The layer holds ten shapes; after the shadow, the bubble and the
    tail come the four diamonds of the sparkle and the three accent dots,
    and every vertex of these diamonds and every corner of the dots' boxes
    lies in the bubble's box: the sparkle never sticks out of the
    bubble. *)
Theorem sparkle_lies_inside_bubble (size : Z) (layer : Image) (l : locals) :
  draw_layer size = Ok (layer, l) ->
  List.length (im_calls layer) = 10%nat
  /\ Forall (in_box (bubble_x l, bubble_y l)
                    (bubble_x l + bubble_size l, bubble_y l + bubble_size l))
       (drawn_points (skipn 3 (im_calls layer))).
Proof.
  intros H. pose proof (draw_layer_domain size layer l H) as Hs.
  rewrite (draw_layer_exact size Hs) in H.
  injection H as <- <-. cbn [im_calls].
  split; [reflexivity|].
  apply sparkle_points_in_bubble. lia.
Qed.

Lemma sparkle_lies_inside_bubble_witness :
  exists layer l,
    draw_layer 64 = Ok (layer, l)
    /\ List.length (im_calls layer) = 10%nat.
Proof.
  destruct (draw_layer_total 64) as (layer & l & E); [dim_bound|].
  exists layer, l. split; [exact E|].
  exact (proj1 (sparkle_lies_inside_bubble 64 layer l E)).
Defined.

(** X10.  Which sizes lose a shape to truncation: the bubble has side 0
    exactly for the sizes 0 and 1, the sparkle has size 0 exactly up to
    size 5, the tail is a single point exactly up to size 17, and the
    accent dots are single points exactly up to size 51 (so at the sizes 16
    and 32 of the batch). *)
Theorem degenerate_sizes (size : Z) (layer : Image) (l : locals) :
  draw_layer size = Ok (layer, l) ->
  (bubble_size l = 0 <-> size <= 1)
  /\ (sparkle_size l = 0 <-> size <= 5)
  /\ (tail_size l = 0 <-> size <= 17)
  /\ (dot_size l = 0 <-> size <= 51).
Proof.
  intros H.
  destruct (layer_dimensions size layer l H)
    as ([Hs _] & -> & _ & _ & -> & -> & ->).
  repeat split; intros; Z.to_euclidean_division_equations; lia.
Qed.

Lemma degenerate_sizes_witness :
  exists layer l,
    draw_layer 32 = Ok (layer, l) /\ dot_size l = 0 /\ tail_size l <> 0.
Proof.
  destruct (draw_layer_total 32) as (layer & l & E); [dim_bound|].
  exists layer, l. split; [exact E|].
  destruct (degenerate_sizes 32 layer l E) as (_ & _ & Ht & Hd).
  split; [apply Hd; lia | intros H0; apply Ht in H0; lia].
Defined.

(** ** The driver *)

(** X11.  [generate_icon] catches nothing and writes at most one file.  It
    returns normally exactly when the size is positive, [Image.new] accepts
    it and the path can be written, and then the one new file holds the
    image the renderer returns for that size.  Otherwise no file is written
    and an exception reaches the caller: that of the renderer for a size it
    refuses, the [OSError] of the file system for a path that cannot be
    written, and for size 0 with a writable path a [ValueError] of [save],
    which has no pixels to encode.  The progress line is printed first in
    every case, and [save] is entered only after a successful rendering. *)
Theorem generate_icon_outcome (output_path : string) (size : Z) (w : world) :
  let r := generate_icon output_path size w in
  (fst r = Done tt <-> 0 < size <= MAX_DIM /\ accepts_write w output_path = true)
  /\ (fst r = Done tt ->
      exists img, draw_urgood_icon size = Ok img
                  /\ files (snd r) = files w ++ [(output_path, img)])
  /\ (fst r <> Done tt -> (exists e, fst r = Raised e) /\ files (snd r) = files w)
  /\ (forall e, draw_urgood_icon size = Raise e -> fst r = Raised e)
  /\ (0 <= size <= MAX_DIM -> accepts_write w output_path = false ->
      fst r = Raised (OSError (write_error w output_path)))
  /\ (size = 0 -> accepts_write w output_path = true ->
      exists msg, fst r = Raised (ValueError msg))
  /\ (exists rest,
        trace (snd r)
        = trace w
          ++ Print ("  Generating " ++ str_int size ++ "x" ++ str_int size
                    ++ "px -> " ++ output_path)%string
          :: Drawn size :: rest
        /\ save_calls rest
           = if valid_size size then [(output_path, "PNG"%string, (size, size))]
             else []).
Proof.
  intros r. subst r.
  destruct w as [sd pil ex aw we ee fs tr].
  cbv beta delta [generate_icon Image_save print lift bind emit].
  cbn [fst snd script_dir pillow_installed path_exists accepts_write
         write_error empty_image_error files trace].
  destruct (valid_size size) eqn:Hv.
  - pose proof (proj1 (valid_size_spec size) Hv) as Hs.
    destruct (draw_urgood_icon_ok size Hs) as (layer & l & rows & _ & _ & E).
    rewrite E.
    cbn [fst snd script_dir pillow_installed path_exists accepts_write
         write_error empty_image_error files trace].
    unfold is_empty. cbn [im_size fst snd]. rewrite orb_diag.
    destruct (aw output_path) eqn:Haw; [destruct (Z.eqb_spec size 0) as [Hz|Hz]|];
      cbn [fst snd script_dir pillow_installed path_exists accepts_write
           write_error empty_image_error files trace].
    + split; [split; [discriminate | intros [Hp _]; lia]|].
      split; [discriminate|].
      split; [intros _; split; [eexists; reflexivity | reflexivity]|].
      split; [discriminate|].
      split; [discriminate|].
      split; [intros _ _; eexists; reflexivity|].
      eexists. rewrite <- !app_assoc. split; reflexivity.
    + split; [split; [intros _; split; [lia | reflexivity] | reflexivity]|].
      split; [intros _; eexists; split; reflexivity|].
      split; [intros Hne; contradiction Hne; reflexivity|].
      split; [discriminate|].
      split; [discriminate|].
      split; [intros Hz'; contradiction|].
      eexists. rewrite <- !app_assoc. split; reflexivity.
    + split; [split; [discriminate | intros [_ Hf]; discriminate Hf]|].
      split; [discriminate|].
      split; [intros _; split; [eexists; reflexivity | reflexivity]|].
      split; [discriminate|].
      split; [reflexivity|].
      split; [discriminate|].
      eexists. rewrite <- !app_assoc. split; reflexivity.
  - destruct (draw_urgood_icon size) as [im|e] eqn:E.
    + assert (valid_size size = true)
        by (apply draw_urgood_icon_valid; exists im; exact E).
      congruence.
    + cbn [fst snd script_dir pillow_installed path_exists accepts_write
           write_error empty_image_error files trace].
      assert (Hns : ~ (0 <= size <= MAX_DIM))
        by (intros Hs; apply valid_size_spec in Hs; congruence).
      assert (H0 : 0 < MAX_DIM) by reflexivity.
      split; [split; [discriminate | intros [Hs _]; lia]|].
      split; [discriminate|].
      split; [intros _; split; [eexists; reflexivity | reflexivity]|].
      split; [intros e' Ee; congruence|].
      split; [intros Hs; contradiction|].
      split; [intros Hz; lia|].
      exists []. rewrite <- !app_assoc. split; reflexivity.
Qed.

Lemma generate_icon_outcome_witness :
  fst (generate_icon "out/a.png" 16 (example_world true true)) = Done tt
  /\ fst (generate_icon "out/a.png" (-1) (example_world true true)) <> Done tt
  /\ fst (generate_icon "out/a.png" 0 (example_world true true)) <> Done tt
  /\ fst (generate_icon "out/a.png" 16 (example_world true false))
     = Raised (OSError "[Errno 13] Permission denied: 'out/a.png'").
Proof.
  split; [|split; [|split]].
  - apply (proj1 (generate_icon_outcome "out/a.png" 16 (example_world true true))).
    split; [dim_bound | reflexivity].
  - intros H.
    apply (proj1 (generate_icon_outcome "out/a.png" (-1) (example_world true true))) in H.
    lia.
  - intros H.
    apply (proj1 (generate_icon_outcome "out/a.png" 0 (example_world true true))) in H.
    lia.
  - destruct (generate_icon_outcome "out/a.png" 16 (example_world true false))
      as (_ & _ & _ & _ & H & _).
    apply H; [dim_bound | reflexivity].
Defined.

(** X12.  When the directory exists, [main] writes exactly the icons whose
    paths can be written, in list order, each holding the image the
    renderer returns for the listed size; every refused write, and nothing
    else, is reported with its [OSError] and stack trace.  Written files
    and reports together account for the eleven entries. *)
Theorem refused_writes_are_reported (w : world) :
  let icon_dir := icon_dir_of (script_dir w) in
  let paths := map (fun e => joinpath icon_dir (fst e)) all_sizes in
  path_exists w icon_dir = true ->
  exists written tr,
    files (snd (main w)) = files w ++ written
    /\ trace (snd (main w)) = trace w ++ tr
    /\ map fst written = filter (accepts_write w) paths
    /\ Forall (fun f => exists e, In e all_sizes
                                  /\ fst f = joinpath icon_dir (fst e)
                                  /\ draw_urgood_icon (snd e) = Ok (snd f)) written
    /\ reported tr
       = map (fun p => OSError (write_error w p))
           (filter (fun p => negb (accepts_write w p)) paths)
    /\ (List.length written + List.length (reported tr) = 11)%nat.
Proof.
  intros icon_dir paths Hdir.
  rewrite (main_found w Hdir). cbn [fst snd trace files with_output]. fold icon_dir.
  assert (Hvalid : Forall (fun e => 0 < snd e <= MAX_DIM) all_sizes)
    by (repeat constructor; cbn [snd]; (lia || discriminate)).
  destruct (batch_partition w icon_dir all_sizes Hvalid) as (Hw & Hr & Himg).
  fold paths in Hw, Hr.
  eexists _, _. split; [reflexivity|]. split; [reflexivity|].
  split; [exact Hw|]. split; [exact Himg|].
  assert (Hrep : forall mid, reported (opening ++ mid ++ closing) = reported mid).
  { intros mid. rewrite !reported_app.
    change (reported opening) with (@nil exn).
    change (reported closing) with (@nil exn).
    rewrite app_nil_r. reflexivity. }
  rewrite Hrep, Hr. split; [reflexivity|].
  rewrite <- (List.length_map fst), Hw, List.length_map.
  rewrite filter_partition_length. unfold paths. rewrite List.length_map. reflexivity.
Qed.

Lemma refused_writes_are_reported_witness :
  let w := mkWorld "/repo" true (fun _ => true)
             (fun p => negb (String.eqb p
                "/repo/urgood/urgood/Assets.xcassets/AppIcon.appiconset/app_icon_32.png"))
             permission_denied "tile cannot extend outside image" [] [] in
  List.length (files (snd (main w))) = 10%nat
  /\ reported (trace (snd (main w)))
     = [OSError (permission_denied
          "/repo/urgood/urgood/Assets.xcassets/AppIcon.appiconset/app_icon_32.png")].
Proof.
  intros w.
  destruct (refused_writes_are_reported w eq_refl)
    as (written & tr & Ef & Et & Hw & _ & Hr & _).
  rewrite Ef, Et. cbn [files trace w app].
  rewrite <- (List.length_map fst), Hw, Hr. split; reflexivity.
Defined.

(** X13.  In the loop of the driver, for any list of entries: [save] is
    entered exactly for the entries whose size the renderer accepts, in
    list order, with the entry's path, the format PNG and an image of the
    entry's size.  An entry with any other size writes no file, and the
    exception of the renderer is the one reported for it. *)
Theorem save_only_after_rendering (w : world) (icon_dir : string)
    (entries : list (string * Z)) :
  save_calls (trace (snd (generate_all icon_dir entries w)))
  = save_calls (trace w)
    ++ map (fun e => (joinpath icon_dir (fst e), "PNG"%string, (snd e, snd e)))
         (filter (fun e => valid_size (snd e)) entries)
  /\ (forall entry,
        In entry entries -> valid_size (snd entry) = false ->
        entry_files w icon_dir entry = []
        /\ exists e, draw_urgood_icon (snd entry) = Raise e
                     /\ reported (entry_trace w icon_dir entry) = [e]).
Proof.
  rewrite generate_all_spec. cbn [snd trace with_output].
  rewrite save_calls_app. split.
  - f_equal. induction entries as [|e entries IH]; [reflexivity|].
    cbn [flat_map filter]. rewrite save_calls_app, IH.
    rewrite (proj1 (entry_saves w icon_dir e)).
    destruct (valid_size (snd e)); reflexivity.
  - intros entry _ Hv. exact (proj2 (entry_saves w icon_dir entry) Hv).
Qed.

Lemma save_only_after_rendering_witness :
  save_calls (trace (snd (generate_all "out"
                            [("a.png"%string, 16); ("b.png"%string, -1)]
                            (example_world true true))))
  = [("out/a.png"%string, "PNG"%string, (16, 16))].
Proof.
  rewrite (proj1 (save_only_after_rendering (example_world true true) "out"
                    [("a.png"%string, 16); ("b.png"%string, -1)])).
  reflexivity.
Defined.

(** X14.  Without Pillow the module body prints its three lines and exits
    with status 1 before [main] is entered: whatever the file system looks
    like, the directory is not checked, nothing is rendered, saved or
    written. *)
Theorem missing_pillow_is_fatal (w : world) :
  pillow_installed w = false ->
  fst (program w) = Exited 1
  /\ exit_status (fst (program w)) = 1
  /\ files (snd (program w)) = files w
  /\ trace (snd (program w))
     = trace w ++ [ Print "❌ Missing dependencies!";
                    Print "Please install required packages:";
                    Print "  pip install pillow" ]
  /\ (forall size, In (Drawn size) (trace (snd (program w))) ->
                   In (Drawn size) (trace w))
  /\ save_calls (trace (snd (program w))) = save_calls (trace w).
Proof.
  intros Hpil. rewrite (program_without_pillow w Hpil).
  cbn [fst snd exit_status files trace with_output].
  repeat (split; [reflexivity|]). split.
  - intros size Hin. apply in_app_or in Hin.
    destruct Hin as [Hin|[H|[H|[H|[]]]]]; [exact Hin | | |]; discriminate H.
  - rewrite save_calls_app. cbn [save_calls flat_map app]. apply app_nil_r.
Qed.

Lemma missing_pillow_is_fatal_witness :
  fst (program (mkWorld "/repo" false (fun _ => true) (fun _ => true)
                    permission_denied "tile cannot extend outside image" [] []))
  = Exited 1.
Proof.
  exact (proj1 (missing_pillow_is_fatal
                  (mkWorld "/repo" false (fun _ => true) (fun _ => true)
                    permission_denied "tile cannot extend outside image" [] [])
                  eq_refl)).
Defined.

(** ** The gradient at every size

    Off the powers of two the interpolation is inexact.  To bound it, each
    float is read as an integer number of units of [2^-200], and each
    operation is shown to return a value within a relative [2^-52] of the
    exact one. *)

Lemma near_refl (v : Z) : 0 <= v -> near v v.
Proof. intros Hv. unfold near. rewrite Z.sub_diag. simpl. lia. Qed.

Lemma binary_round_aux_units (s : bool) (mx ex k : Z) (lx : location) :
  0 < mx -> 53 <= Zdigits2 mx -> -900 <= ex + Zdigits2 mx <= 1000 -> 0 <= ex + k ->
  exists m e,
    binary_round_aux prec emax s mx ex lx = S754_finite s m e
    /\ Zpos (digits2_pos m) = 53
    /\ ex + Zdigits2 mx - 53 <= e <= ex + Zdigits2 mx - 52
    /\ near (mx * 2 ^ (ex + k)) (Zpos m * 2 ^ (e + k)).
Proof.
  intros Hmx Hd Hr Hk.
  pose proof (Zdigits2_bounds mx Hmx) as Hb.
  set (d := Zdigits2 mx) in *.
  unfold binary_round_aux, shr_fexp. fold d.
  rewrite (fexp_normal (d + ex)) by lia.
  replace (d + ex - 53 - ex) with (d - 53) by lia.
  destruct (shr_m_e (shr_record_of_loc mx lx) ex (d - 53)) as [Hm1 He1];
    [rewrite shr_record_of_loc_m; lia | lia |].
  destruct (shr (shr_record_of_loc mx lx) ex (d - 53)) as [mrs1 e1].
  simpl in Hm1, He1. rewrite shr_record_of_loc_m in Hm1.
  pose proof (div_pow2_digits mx d Hd Hb) as Hq. rewrite <- Hm1 in Hq.
  pose proof (round_nearest_even_range (shr_m mrs1) (loc_of_shr_record mrs1)) as Hrn.
  set (m1 := round_nearest_even (shr_m mrs1) (loc_of_shr_record mrs1)) in *.
  assert (Hm1pos : 0 < m1) by (assert (0 < 2 ^ 52) by (apply Z.pow_pos_nonneg; lia); lia).
  (* the value of the result, whichever way the rounding goes *)
  set (N := 2 ^ (d - 53)). set (W := 2 ^ (ex + k)).
  assert (HN : 0 < N) by (apply Z.pow_pos_nonneg; lia).
  assert (HW : 0 < W) by (apply Z.pow_pos_nonneg; lia).
  assert (HNW : 2 ^ (e1 + k) = N * W)
    by (unfold N, W; rewrite <- Z.pow_add_r by lia; f_equal; lia).
  assert (Hdm : mx = N * shr_m mrs1 + mx mod N)
    by (rewrite Hm1; apply Z.div_mod; lia).
  pose proof (Z.mod_pos_bound mx N HN) as Hmod.
  assert (HN52 : N * 2 ^ 52 <= mx).
  { unfold N. rewrite <- Z.pow_add_r by lia.
    replace (d - 53 + 52) with (d - 1) by lia. apply Hb. }
  assert (Hnear : near (mx * W) (m1 * 2 ^ (e1 + k))).
  { unfold near. rewrite HNW.
    assert (Habs : Z.abs (m1 * (N * W) - mx * W) <= N * W).
    { apply Z.abs_le. split; nia. }
    assert (N * W * 2 ^ 52 <= mx * W) by nia.
    lia. }
  destruct (Z.eq_dec m1 (2 ^ 53)) as [Htop|Hlow].
  - assert (Hd1 : Zdigits2 m1 = 54) by (rewrite Htop; reflexivity).
    rewrite Hd1, (fexp_normal (54 + e1)) by lia.
    replace (54 + e1 - 53 - e1) with 1 by lia.
    rewrite Htop in Hnear |- *.
    assert (Hle : (e1 + 1 <=? 971) = true) by (apply Z.leb_le; lia).
    exists 4503599627370496%positive, (e1 + 1).
    split; [simpl; change (emax - prec) with 971; rewrite Hle; reflexivity|].
    split; [reflexivity|]. split; [lia|].
    replace (Zpos 4503599627370496 * 2 ^ (e1 + 1 + k)) with (2 ^ 53 * 2 ^ (e1 + k));
      [exact Hnear|].
    replace (e1 + 1 + k) with (1 + (e1 + k)) by lia.
    rewrite (Z.pow_add_r 2 1 (e1 + k)) by lia.
    change (2 ^ 53) with 9007199254740992. change (2 ^ 1) with 2. ring.
  - assert (Hd1 : Zdigits2 m1 = 53) by (apply Zdigits2_unique; simpl; lia).
    rewrite Hd1, (fexp_normal (53 + e1)) by lia.
    replace (53 + e1 - 53 - e1) with 0 by lia.
    destruct m1 as [|p1|p1]; try lia.
    assert (Hle : (e1 <=? 971) = true) by (apply Z.leb_le; lia).
    exists p1, e1.
    split; [simpl; change (emax - prec) with 971; rewrite Hle; reflexivity|].
    split; [exact Hd1|]. split; [lia|].
    exact Hnear.
Qed.

Lemma binary_round_units (s : bool) (m : positive) (e k : Z) :
  -900 <= e + Zdigits2 (Zpos m) <= 1000 ->
  0 <= e + k -> 0 <= e + Zdigits2 (Zpos m) - 53 + k ->
  exists m' e',
    binary_round prec emax s m e = S754_finite s m' e'
    /\ Zpos (digits2_pos m') = 53
    /\ e + Zdigits2 (Zpos m) - 53 <= e' <= e + Zdigits2 (Zpos m) - 52
    /\ near (Zpos m * 2 ^ (e + k)) (Zpos m' * 2 ^ (e' + k)).
Proof.
  intros Hr Hk Hk'.
  pose proof (Zdigits2_bounds (Zpos m) eq_refl) as Hb.
  unfold binary_round, shl_align.
  change (Zpos (digits2_pos m)) with (Zdigits2 (Zpos m)).
  set (d := Zdigits2 (Zpos m)) in *.
  assert (Hdpos : 0 < d) by (unfold d; simpl; lia).
  rewrite (fexp_normal (d + e)) by lia.
  destruct (d + e - 53 - e) as [|q|q] eqn:Eq.
  - destruct (binary_round_aux_units s (Zpos m) e k loc_Exact)
      as (m' & e' & H1 & H2 & H3 & H4); fold d; try lia.
    exists m', e'. fold d in H3. repeat split; try assumption; lia.
  - destruct (binary_round_aux_units s (Zpos m) e k loc_Exact)
      as (m' & e' & H1 & H2 & H3 & H4); fold d; try lia.
    exists m', e'. fold d in H3. repeat split; try assumption; lia.
  - assert (Hq : Zpos q = 53 - d) by lia.
    assert (Hmz : Zpos (Pos.iter xO m q) = Zpos m * 2 ^ (53 - d))
      by (rewrite iter_xO, Hq; reflexivity).
    assert (Hz : Zdigits2 (Zpos (Pos.iter xO m q)) = 53).
    { rewrite Hmz, Zdigits2_mul_pow2 by lia. fold d. lia. }
    destruct (binary_round_aux_units s (Zpos (Pos.iter xO m q)) (d + e - 53) k loc_Exact)
      as (m' & e' & H1 & H2 & H3 & H4); rewrite ?Hz; try lia.
    exists m', e'. rewrite Hz in H3. split; [exact H1|]. split; [exact H2|].
    split; [lia|].
    replace (Zpos m * 2 ^ (e + k))
      with (Zpos (Pos.iter xO m q) * 2 ^ (d + e - 53 + k)); [exact H4|].
    rewrite Hmz, <- Z.mul_assoc, <- Z.pow_add_r by lia.
    do 2 f_equal. lia.
Qed.

Lemma units_nonneg (k : Z) (x : float) : fsign x = false -> 0 <= units k x.
Proof.
  destruct x as [s|s| |s m e]; cbn [units fsign]; try lia.
  intros ->. cbn [cond_Zopp].
  apply Z.mul_nonneg_nonneg; [lia | apply Z.pow_nonneg; lia].
Qed.

(** [binary_normalize] of a positive integer [z] at exponent [e]. *)
Lemma normalize_units (z e k lo hi : Z) :
  0 < z -> -800 <= lo -> lo <= e -> e <= hi -> hi <= 800 ->
  z < 2 ^ (54 + hi - e) -> 0 <= lo - 52 + k ->
  let x := binary_normalize prec emax z e false in
  nice (lo - 52) (hi + 2) x /\ fsign x = false
  /\ near (z * 2 ^ (e + k)) (units k x).
Proof.
  intros Hz H1 H2 H3 H4 Hb Hk x. subst x. unfold binary_normalize.
  destruct z as [|p|p]; try lia.
  assert (Hd : Zdigits2 (Zpos p) <= 54 + hi - e) by (apply Zdigits2_le; lia).
  assert (0 < Zdigits2 (Zpos p)) by (simpl; lia).
  destruct (binary_round_units false p e k) as (m' & e' & E1 & E2 & E3 & E4); try lia.
  rewrite E1. cbn [nice fsign units cond_Zopp].
  split; [split; [exact E2 | lia]|]. split; [reflexivity | exact E4].
Qed.

Lemma units_finite (k : Z) (m : positive) (e : Z) :
  units k (S754_finite false m e) = Zpos m * 2 ^ (e + k).
Proof. reflexivity. Qed.

Lemma units_of_int (k n : Z) :
  0 <= n < 2 ^ 53 -> 0 <= k - 52 -> units k (of_int n) = n * 2 ^ k.
Proof.
  intros Hn Hk.
  destruct (Z.eq_dec n 0) as [->|Hnz]; [reflexivity|].
  destruct (dyadic_nonzero n 0) as (q & E & Hq & Hd); try lia.
  change (dyadic n 0) with (of_int n) in E. rewrite E.
  destruct (Z.ltb_spec n 0); [lia|]. rewrite units_finite, Hq.
  replace (Z.abs n) with n by lia.
  assert (Hd1 : 1 <= Zdigits2 n <= 53)
    by (split; [destruct n; simpl; lia | apply Zdigits2_le; lia]).
  rewrite <- Z.mul_assoc, <- Z.pow_add_r by lia.
  do 2 f_equal. lia.
Qed.

Lemma to_int_units (k lo hi : Z) (x : float) :
  nice lo hi x -> fsign x = false -> 0 <= lo + k -> 0 <= k ->
  to_int x = Ok (units k x / 2 ^ k).
Proof.
  intros Hx Hs Hk Hk0.
  destruct x as [s|s| |s m e]; cbn [nice] in Hx; try contradiction.
  - reflexivity.
  - cbn [fsign] in Hs. subst s. destruct Hx as [_ He].
    cbn [to_int]. rewrite units_finite. f_equal.
    assert (Hp : 0 < 2 ^ k) by (apply Z.pow_pos_nonneg; lia).
    destruct (Z_le_gt_dec 0 e) as [Hpos|Hneg].
    + rewrite Z.shiftl_mul_pow2 by lia.
      rewrite Z.pow_add_r, Z.mul_assoc, Z.div_mul by lia. reflexivity.
    + rewrite Z.shiftl_div_pow2 by lia.
      assert (Ek : 2 ^ k = 2 ^ (- e) * 2 ^ (e + k))
        by (rewrite <- Z.pow_add_r by lia; f_equal; lia).
      rewrite Ek.
      rewrite Z.div_mul_cancel_r; [reflexivity | | ];
        apply Z.pow_nonzero; lia.
Qed.

Lemma fmul_units (k l1 h1 l2 h2 : Z) (x y : float) :
  nice l1 h1 x -> nice l2 h2 y -> fsign x = false -> fsign y = false ->
  -800 <= l1 + l2 -> h1 + h2 <= 800 ->
  0 <= k -> 0 <= l1 + k -> 0 <= l2 + k -> 0 <= l1 + l2 + 52 + k ->
  near (units k x * units k y) (units k (fmul x y) * 2 ^ k).
Proof.
  intros Hx Hy Hsx Hsy Hl Hh Hk0 Hk1 Hk2 Hk.
  destruct x as [sx|sx| |sx mx ex], y as [sy|sy| |sy my ey];
    cbn [nice] in Hx, Hy; try contradiction;
    cbn [fsign] in Hsx, Hsy; subst sx sy;
    try (cbn [fmul SFmul xorb units]; rewrite ?Z.mul_0_r; apply near_refl; lia).
  destruct Hx as [Hdx Hex], Hy as [Hdy Hey].
  pose proof (Zdigits2_bounds (Zpos mx) eq_refl) as Hbx.
  pose proof (Zdigits2_bounds (Zpos my) eq_refl) as Hby.
  rewrite Zdigits2_pos, Hdx in Hbx. rewrite Zdigits2_pos, Hdy in Hby.
  change (2 ^ (53 - 1)) with 4503599627370496 in *.
  change (2 ^ 53) with 9007199254740992 in *.
  assert (Hp : 2 ^ 104 <= Zpos (mx * my) < 2 ^ 106).
  { rewrite Pos2Z.inj_mul.
    change (2 ^ 104) with (4503599627370496 * 4503599627370496).
    change (2 ^ 106) with (9007199254740992 * 9007199254740992).
    split.
    - apply Z.mul_le_mono_nonneg; lia.
    - apply Z.mul_lt_mono_nonneg; lia. }
  assert (Hd : 105 <= Zdigits2 (Zpos (mx * my)) <= 106).
  { destruct (Z_lt_le_dec (Zpos (mx * my)) (2 ^ 105)) as [Hlt|Hge].
    - rewrite (Zdigits2_unique _ 105); [lia | lia |]. split; [apply Hp | exact Hlt].
    - rewrite (Zdigits2_unique _ 106); [lia | lia |]. split; [exact Hge | apply Hp]. }
  unfold fmul, SFmul. cbn [xorb].
  destruct (binary_round_aux_units false (Zpos (mx * my)) (ex + ey) (k + k) loc_Exact)
    as (m' & e' & H1 & H2 & H3 & H4); try lia.
  rewrite H1, !units_finite.
  replace (Zpos mx * 2 ^ (ex + k) * (Zpos my * 2 ^ (ey + k)))
    with (Zpos (mx * my) * 2 ^ (ex + ey + (k + k))).
  - replace (Zpos m' * 2 ^ (e' + k) * 2 ^ k) with (Zpos m' * 2 ^ (e' + (k + k)));
      [exact H4|].
    rewrite <- Z.mul_assoc, <- Z.pow_add_r by lia. do 2 f_equal. lia.
  - rewrite Pos2Z.inj_mul.
    replace (ex + ey + (k + k)) with ((ex + k) + (ey + k)) by lia.
    rewrite (Z.pow_add_r 2 (ex + k) (ey + k)) by lia. ring.
Qed.

Lemma aligned_units (mx my : positive) (ex ey k : Z) :
  0 <= Z.min ex ey + k ->
  Zpos (fst (shl_align mx ex (Z.min ex ey))) * 2 ^ (Z.min ex ey + k)
  = Zpos mx * 2 ^ (ex + k).
Proof.
  intros Hk. rewrite shl_align_fst by lia.
  rewrite <- Z.mul_assoc, <- Z.pow_add_r by lia. do 2 f_equal. lia.
Qed.

Lemma fadd_units (k l1 h1 l2 h2 : Z) (x y : float) :
  nice l1 h1 x -> nice l2 h2 y -> fsign x = false -> fsign y = false ->
  -800 <= Z.min l1 l2 -> Z.max h1 h2 <= 800 -> 0 <= Z.min l1 l2 - 52 + k ->
  nice (Z.min l1 l2 - 52) (Z.max h1 h2 + 2) (fadd x y)
  /\ fsign (fadd x y) = false
  /\ near (units k x + units k y) (units k (fadd x y)).
Proof.
  intros Hx Hy Hsx Hsy Hl Hh Hk.
  split; [apply nice_fadd; assumption|].
  destruct x as [sx|sx| |sx mx ex], y as [sy|sy| |sy my ey];
    cbn [nice] in Hx, Hy; try contradiction;
    cbn [fsign] in Hsx, Hsy; subst sx sy.
  - split; [reflexivity | apply near_refl; simpl; lia].
  - cbn [fadd SFadd]. split; [reflexivity|].
    rewrite Z.add_0_l. apply near_refl. apply units_nonneg. reflexivity.
  - cbn [fadd SFadd]. split; [reflexivity|].
    rewrite Z.add_0_r. apply near_refl. apply units_nonneg. reflexivity.
  - destruct Hx as [Hdx Hex], Hy as [Hdy Hey].
    pose proof (aligned_sum_bound mx my ex ey Hdx Hdy) as Hs.
    unfold fadd, SFadd. cbn [cond_Zopp].
    rewrite !units_finite.
    rewrite <- (aligned_units mx my ex ey k) by lia.
    rewrite <- (aligned_units my mx ey ex k) by lia.
    rewrite (Z.min_comm ey ex).
    set (ax := Zpos (fst (shl_align mx ex (Z.min ex ey)))) in *.
    set (ay := Zpos (fst (shl_align my ey (Z.min ex ey)))) in *.
    rewrite <- Z.mul_add_distr_r.
    destruct (normalize_units (ax + ay) (Z.min ex ey) k (Z.min ex ey) (Z.max ex ey))
      as (_ & Hsg & Hn); try lia; try (unfold ax, ay; lia).
    split; [exact Hsg | exact Hn].
Qed.

Lemma fsub_units (k l1 h1 l2 h2 : Z) (x y : float) :
  nice l1 h1 x -> nice l2 h2 y -> fsign x = false -> fsign y = false ->
  units k y <= units k x ->
  -800 <= Z.min l1 l2 -> Z.max h1 h2 <= 800 -> 0 <= Z.min l1 l2 - 52 + k ->
  nice (Z.min l1 l2 - 52) (Z.max h1 h2 + 2) (fsub x y)
  /\ fsign (fsub x y) = false
  /\ near (units k x - units k y) (units k (fsub x y)).
Proof.
  intros Hx Hy Hsx Hsy Hle Hl Hh Hk.
  split; [apply nice_fsub; assumption|].
  destruct x as [sx|sx| |sx mx ex], y as [sy|sy| |sy my ey];
    cbn [nice] in Hx, Hy; try contradiction;
    cbn [fsign] in Hsx, Hsy; subst sx sy.
  - split; [reflexivity | apply near_refl; simpl; lia].
  - exfalso. destruct Hy as [_ Hey]. rewrite units_finite in Hle. cbn [units] in Hle.
    assert (0 < Zpos my * 2 ^ (ey + k))
      by (apply Z.mul_pos_pos; [lia | apply Z.pow_pos_nonneg; lia]).
    lia.
  - cbn [fsub SFsub]. split; [reflexivity|].
    rewrite Z.sub_0_r. apply near_refl. apply units_nonneg. reflexivity.
  - destruct Hx as [Hdx Hex], Hy as [Hdy Hey].
    pose proof (aligned_sum_bound mx my ex ey Hdx Hdy) as Hs.
    unfold fsub, SFsub. cbn [cond_Zopp].
    rewrite !units_finite in Hle |- *.
    rewrite <- (aligned_units mx my ex ey k) in Hle |- * by lia.
    rewrite <- (aligned_units my mx ey ex k) in Hle |- * by lia.
    rewrite (Z.min_comm ey ex) in Hle |- *.
    set (ax := Zpos (fst (shl_align mx ex (Z.min ex ey)))) in *.
    set (ay := Zpos (fst (shl_align my ey (Z.min ex ey)))) in *.
    assert (Hw : 0 < 2 ^ (Z.min ex ey + k)) by (apply Z.pow_pos_nonneg; lia).
    assert (Hay : ay <= ax) by nia.
    rewrite <- Z.mul_sub_distr_r.
    destruct (Z.eq_dec (ax - ay) 0) as [E0|Hnz].
    + rewrite E0. split; [reflexivity | apply near_refl; simpl; lia].
    + destruct (normalize_units (ax - ay) (Z.min ex ey) k (Z.min ex ey) (Z.max ex ey))
        as (_ & Hsg & Hn); try lia; try (unfold ax, ay in *; lia).
      split; [exact Hsg | exact Hn].
Qed.

Lemma fdiv_units (k l1 h1 l2 h2 : Z) (x y : float) :
  nice l1 h1 x -> nice l2 h2 y -> fsign x = false -> fsign y = false ->
  (forall s, y <> S754_zero s) ->
  -800 <= l1 - h2 -> h1 - l2 <= 800 ->
  0 <= k -> 0 <= l1 + k -> 0 <= l2 + k -> 0 <= l1 - h2 - 53 + k ->
  2 ^ 52 * (units k y * units k (fdiv x y)) <= (2 ^ 52 + 1) * (units k x * 2 ^ k).
Proof.
  intros Hx Hy Hsx Hsy Hnz Hl Hh Hk0 Hk1 Hk2 Hk.
  destruct x as [sx|sx| |sx mx ex], y as [sy|sy| |sy my ey];
    cbn [nice] in Hx, Hy; try contradiction;
    try (exfalso; apply (Hnz sy); reflexivity);
    cbn [fsign] in Hsx, Hsy; subst sx sy.
  - cbn [fdiv SFdiv xorb units]. rewrite Z.mul_0_r, Z.mul_0_l. lia.
  - destruct Hx as [Hdx Hex], Hy as [Hdy Hey].
    pose proof (Zdigits2_bounds (Zpos mx) eq_refl) as Hbx.
    pose proof (Zdigits2_bounds (Zpos my) eq_refl) as Hby.
    rewrite Zdigits2_pos, Hdx in Hbx. rewrite Zdigits2_pos, Hdy in Hby.
    change (2 ^ (53 - 1)) with 4503599627370496 in *.
    change (2 ^ 53) with 9007199254740992 in *.
    unfold fdiv, SFdiv, SFdiv_core_binary.
    rewrite !Zdigits2_pos, Hdx, Hdy.
    rewrite (fexp_normal (53 + ex - (53 + ey))) by lia.
    replace (Z.min (53 + ex - (53 + ey) - 53) (ex - ey)) with (ex - ey - 53) by lia.
    replace (ex - ey - (ex - ey - 53)) with 53 by lia.
    rewrite Z.shiftl_mul_pow2 by lia.
    change (2 ^ 53) with 9007199254740992.
    destruct (Z.div_eucl (Zpos mx * 9007199254740992) (Zpos my)) as [q r] eqn:Ediv.
    assert (Hq : q = Zpos mx * 9007199254740992 / Zpos my)
      by (unfold Z.div; rewrite Ediv; reflexivity).
    assert (Hqb : 2 ^ 52 <= q < 2 ^ 54).
    { rewrite Hq.
      change (2 ^ 52) with 4503599627370496. change (2 ^ 54) with 18014398509481984.
      split.
      - apply Z.div_le_lower_bound; nia.
      - apply Z.div_lt_upper_bound; nia. }
    assert (Hd : 53 <= Zdigits2 q <= 54).
    { destruct (Z_lt_le_dec q (2 ^ 53)) as [Hlt|Hge].
      - rewrite (Zdigits2_unique _ 53); [lia | lia |]. split; [apply Hqb | exact Hlt].
      - rewrite (Zdigits2_unique _ 54); [lia | lia |]. split; [exact Hge | apply Hqb]. }
    assert (Hqpos : 0 < q)
      by (assert (0 < 2 ^ 52) by (apply Z.pow_pos_nonneg; lia); lia).
    assert (Hqm : q * Zpos my <= Zpos mx * 9007199254740992).
    { rewrite Hq, Z.mul_comm. apply Z.mul_div_le. lia. }
    cbn [xorb].
    destruct (binary_round_aux_units false q (ex - ey - 53) k
                (new_location (Zpos my) r))
      as (m' & e' & H1 & H2 & H3 & H4); try lia.
    rewrite H1, !units_finite.
    set (R := Zpos m' * 2 ^ (e' + k)) in *.
    set (W := 2 ^ (ex - ey - 53 + k)) in *.
    set (A := 2 ^ (ey + k)). set (B := 2 ^ (ex + k)). set (T := 2 ^ k).
    assert (HW : 0 < W) by (apply Z.pow_pos_nonneg; lia).
    assert (HA : 0 < A) by (apply Z.pow_pos_nonneg; lia).
    assert (HAW : A * W * 9007199254740992 = B * T).
    { unfold A, W, B, T. change 9007199254740992 with (2 ^ 53).
      rewrite <- !Z.pow_add_r by lia. f_equal. lia. }
    assert (HR : 2 ^ 52 * R <= (2 ^ 52 + 1) * (q * W)) by (unfold near in H4; lia).
    assert (H5 : Zpos my * A * (2 ^ 52 * R)
                 <= Zpos my * A * ((2 ^ 52 + 1) * (q * W)))
      by (apply Z.mul_le_mono_nonneg_l; [lia | exact HR]).
    assert (H6 : (2 ^ 52 + 1) * (A * W) * (q * Zpos my)
                 <= (2 ^ 52 + 1) * (A * W) * (Zpos mx * 9007199254740992)).
    { apply Z.mul_le_mono_nonneg_l; [|exact Hqm].
      apply Z.mul_nonneg_nonneg; [simpl; lia | lia]. }
    replace (2 ^ 52 * (Zpos my * A * R)) with (Zpos my * A * (2 ^ 52 * R)) by ring.
    replace ((2 ^ 52 + 1) * (Zpos mx * B * T))
      with ((2 ^ 52 + 1) * (A * W) * (Zpos mx * 9007199254740992))
      by (rewrite <- Z.mul_assoc, (Z.mul_comm (A * W)), <- (Z.mul_assoc (Zpos mx)),
            (Z.mul_comm 9007199254740992), HAW; ring).
    eapply Z.le_trans; [exact H5|].
    eapply Z.le_trans; [|exact H6].
    apply Z.eq_le_incl. ring.
Qed.

Lemma ratio_units (size y : Z) :
  0 <= y < size -> size <= INT_MAX ->
  let r := fdiv (of_int y) (of_int size) in
  nice (-84) (-20) r /\ fsign r = false
  /\ 2 ^ 32 * units 200 r <= (2 ^ 32 - 1) * 2 ^ 200.
Proof.
  intros Hy Hs r. subst r. pose proof INT_MAX_lt as HM.
  assert (H31 : 2 ^ 31 = 2147483648) by reflexivity.
  assert (H53 : 2 ^ 31 < 2 ^ 53) by reflexivity.
  assert (Hny : nice (-52) (31 - 52) (of_int y)) by (apply nice_of_int; lia).
  assert (Hns : nice (-52) (31 - 52) (of_int size)) by (apply nice_of_int; lia).
  assert (Hz : forall s, of_int size <> S754_zero s) by (apply of_int_nonzero; lia).
  assert (Hsy : fsign (of_int y) = false) by (apply fsign_of_int; lia).
  assert (Hss : fsign (of_int size) = false) by (apply fsign_of_int; lia).
  destruct (nice_fdiv _ _ _ _ _ _ Hny Hns Hz) as [Hr Hsg]; try lia.
  rewrite Hsy, Hss in Hsg. cbn [xorb] in Hsg.
  split; [eapply nice_weaken; [| |exact Hr]; lia|]. split; [exact Hsg|].
  pose proof (fdiv_units 200 _ _ _ _ _ _ Hny Hns Hsy Hss Hz) as Hd.
  rewrite !units_of_int in Hd by lia.
  specialize (Hd ltac:(lia) ltac:(lia) ltac:(lia) ltac:(lia) ltac:(lia) ltac:(lia)).
  pose proof (units_nonneg 200 _ Hsg) as Hpos.
  set (R := units 200 (fdiv (of_int y) (of_int size))) in *.
  set (T := 2 ^ 200) in *.
  assert (HT : 0 < T) by reflexivity.
  (* cancel one factor [T] *)
  assert (Hd' : 2 ^ 52 * (size * R) <= (2 ^ 52 + 1) * ((size - 1) * T)).
  { apply (Z.mul_le_mono_pos_r _ _ T HT).
    eapply Z.le_trans; [|eapply Z.le_trans; [exact Hd|]].
    - apply Z.eq_le_incl. ring.
    - replace ((2 ^ 52 + 1) * ((size - 1) * T) * T)
        with ((2 ^ 52 + 1) * ((size - 1) * T * T)) by ring.
      apply Z.mul_le_mono_nonneg_l; [simpl; lia|].
      apply Z.mul_le_mono_nonneg_r; [lia|].
      apply Z.mul_le_mono_nonneg_r; lia. }
  destruct (Z_le_gt_dec (2 ^ 32 * R) ((2 ^ 32 - 1) * T)) as [Hle|Hgt]; [exact Hle|].
  exfalso.
  assert (Hm : size * ((2 ^ 32 - 1) * T + 1) <= size * (2 ^ 32 * R))
    by (apply Z.mul_le_mono_nonneg_l; lia).
  clearbody T. clearbody R.
  change (2 ^ 52) with 4503599627370496 in *.
  change (2 ^ 32) with 4294967296 in *.
  nia.
Qed.

Lemma near_cancel (v r t : Z) : 0 < t -> near (v * t) (r * t) -> near v r.
Proof.
  unfold near. intros Ht H.
  rewrite <- Z.mul_sub_distr_r, Z.abs_mul, (Z.abs_eq t), Z.mul_assoc in H by lia.
  apply (Z.mul_le_mono_pos_r _ _ t Ht). exact H.
Qed.

Lemma gradient_channel_range (light dark : Z) (ratio : float) :
  In (light, dark) [(102, 77); (178, 166); (255, 255)] ->
  nice (-84) (-20) ratio -> fsign ratio = false ->
  2 ^ 32 * units 200 ratio <= (2 ^ 32 - 1) * 2 ^ 200 ->
  exists v,
    gradient_channel light dark ratio = Ok v
    /\ dark - 1 <= v <= light /\ (dark < light -> dark <= v).
Proof.
  intros Hin Hr Hsr HR.
  assert (Hl : 0 <= dark <= light /\ light < 256)
    by (destruct Hin as [E|[E|[E|[]]]]; inversion E; lia).
  assert (H53 : 2 ^ 53 = 9007199254740992) by reflexivity.
  assert (H1 : nice (-52) (1 - 52) (of_int 1)) by (apply nice_of_int; simpl; lia).
  assert (HL : nice (-52) (8 - 52) (of_int light)) by (apply nice_of_int; simpl; lia).
  assert (HD : nice (-52) (8 - 52) (of_int dark)) by (apply nice_of_int; simpl; lia).
  assert (S1 : fsign (of_int 1) = false) by reflexivity.
  assert (SL : fsign (of_int light) = false) by (apply fsign_of_int; lia).
  assert (SD : fsign (of_int dark) = false) by (apply fsign_of_int; lia).
  pose proof (units_nonneg 200 ratio Hsr) as HR0.
  (* 1 - ratio *)
  destruct (fsub_units 200 _ _ _ _ _ _ H1 Hr S1 Hsr) as (Na & Sa & Va); try lia.
  { rewrite units_of_int by lia. change (2 ^ 32) with 4294967296 in HR. lia. }
  rewrite units_of_int in Va by lia.
  (* light * (1 - ratio) and dark * ratio *)
  destruct (nice_fmul _ _ _ _ _ _ HL Na) as [Np Sp]; try lia.
  rewrite SL, Sa in Sp. cbn [xorb] in Sp.
  destruct (nice_fmul _ _ _ _ _ _ HD Hr) as [Nq Sq]; try lia.
  rewrite SD, Hsr in Sq. cbn [xorb] in Sq.
  pose proof (fmul_units 200 _ _ _ _ _ _ HL Na SL Sa) as Vp.
  specialize (Vp ltac:(lia) ltac:(lia) ltac:(lia) ltac:(lia) ltac:(lia) ltac:(lia)).
  pose proof (fmul_units 200 _ _ _ _ _ _ HD Hr SD Hsr) as Vq.
  specialize (Vq ltac:(lia) ltac:(lia) ltac:(lia) ltac:(lia) ltac:(lia) ltac:(lia)).
  rewrite units_of_int in Vp, Vq by lia.
  assert (HT : 0 < 2 ^ 200) by reflexivity.
  replace (light * 2 ^ 200 * units 200 (fsub (of_int 1) ratio))
    with (light * units 200 (fsub (of_int 1) ratio) * 2 ^ 200) in Vp by ring.
  replace (dark * 2 ^ 200 * units 200 ratio)
    with (dark * units 200 ratio * 2 ^ 200) in Vq by ring.
  apply near_cancel in Vp; [|exact HT]. apply near_cancel in Vq; [|exact HT].
  (* the sum, and its integer part *)
  destruct (fadd_units 200 _ _ _ _ _ _ Np Nq Sp Sq) as (Ns & Ss & Vs); try lia.
  unfold gradient_channel.
  rewrite (to_int_units 200 _ _ _ Ns Ss) by lia.
  eexists. split; [reflexivity|].
  unfold near in Va, Vp, Vq, Vs.
  set (R := units 200 ratio) in *.
  set (A := units 200 (fsub (of_int 1) ratio)) in *.
  set (P := units 200 (fmul (of_int light) (fsub (of_int 1) ratio))) in *.
  set (Q := units 200 (fmul (of_int dark) ratio)) in *.
  set (V := units 200 (fadd (fmul (of_int light) (fsub (of_int 1) ratio))
                            (fmul (of_int dark) ratio))) in *.
  clearbody R A P Q V.
  clear Na Sa Np Sp Nq Sq Ns Ss H1 HL HD S1 SL SD Hr Hsr.
  change (2 ^ 52) with 4503599627370496 in *.
  change (2 ^ 32) with 4294967296 in *.
  change (1 * 2 ^ 200) with (2 ^ 200) in Va.
  set (T := 2 ^ 200) in *.
  assert (HTbig : 2 ^ 60 <= T) by (unfold T; apply Z.pow_le_mono_r; lia).
  change (2 ^ 60) with 1152921504606846976 in HTbig.
  clearbody T.
  assert (Hb : dark * T - T <= V < (light + 1) * T /\ (dark < light -> dark * T <= V)).
  { destruct Hin as [E|[E|[E|[]]]]; inversion E; subst light dark; clear E Hl;
      (split; [split|]; [lia | lia | intros; lia]). }
  destruct Hb as [[Hlo Hhi] Hstrict].
  split; [split|].
  - apply Z.div_le_lower_bound; lia.
  - assert (V / T < light + 1) by (apply Z.div_lt_upper_bound; lia). lia.
  - intros Hlt. apply Z.div_le_lower_bound; [lia|]. specialize (Hstrict Hlt). lia.
Qed.

Lemma gradient_color_range (size y : Z) :
  0 <= y < size -> size <= INT_MAX ->
  exists r g b,
    gradient_color size y = Ok (rgb r g b)
    /\ 77 <= r <= 102 /\ 166 <= g <= 178 /\ 254 <= b <= 255.
Proof.
  intros Hy Hs.
  destruct (ratio_units size y Hy Hs) as (Hn & Hsg & HR).
  unfold gradient_color, truediv.
  destruct (Z.eqb_spec size 0); [lia|]. cbn [rbind].
  cbn [red green blue sky_blue sky_blue_light].
  destruct (gradient_channel_range 102 77 _ ltac:(simpl; tauto) Hn Hsg HR)
    as (r & Er & Hr & Hr').
  destruct (gradient_channel_range 178 166 _ ltac:(simpl; tauto) Hn Hsg HR)
    as (g & Eg & Hg & Hg').
  destruct (gradient_channel_range 255 255 _ ltac:(simpl; tauto) Hn Hsg HR)
    as (b & Eb & Hb & _).
  rewrite Er, Eg, Eb. cbn [rbind].
  exists r, g, b. split; [reflexivity|].
  specialize (Hr' ltac:(lia)). specialize (Hg' ltac:(lia)). lia.
Qed.

(** X15.  For every size that fits a C [int], power of two or not, and
    every scanline, the fill the loop computes for the background line is
    an RGB triple with red between 77 and 102, green between 166 and 178
    and blue 254 or 255: rounding never takes red or green outside the two
    endpoint colors, and blue, whose endpoints are both 255, at most one
    level below (as at size 7, row 3).  Every channel is a valid 8-bit
    value.  For every size [Image.new] accepts (up to [MAX_DIM]) the
    renderer returns, and call number [y] on the returned image is the line
    of row [y] in this color. *)
Theorem gradient_stays_in_range (size y : Z) :
  0 <= y < size -> size <= INT_MAX ->
  exists r g b,
    gradient_color size y = Ok (rgb r g b)
    /\ 77 <= r <= 102 /\ 166 <= g <= 178 /\ 254 <= b <= 255
    /\ (size <= MAX_DIM ->
        exists im,
          draw_urgood_icon size = Ok im
          /\ nth_error (im_calls im) (Z.to_nat y)
             = Some (Draw (line (0, y) (size, y) (rgb r g b)))).
Proof.
  intros Hy Hs.
  destruct (gradient_color_range size y Hy Hs) as (r & g & b & Ec & Hr & Hg & Hb).
  exists r, g, b. split; [exact Ec|].
  split; [exact Hr|]. split; [exact Hg|]. split; [exact Hb|].
  intros Hd.
  destruct (background_row size y Hy Hd) as (im & col & Eim & Ecol & Hrow).
  exists im. split; [exact Eim|]. rewrite Hrow. congruence.
Qed.

Lemma gradient_stays_in_range_witness :
  exists im r g b,
    draw_urgood_icon 7 = Ok im
    /\ nth_error (im_calls im) 3 = Some (Draw (line (0, 3) (7, 3) (rgb r g b)))
    /\ 77 <= r <= 102 /\ 166 <= g <= 178 /\ 254 <= b <= 255.
Proof.
  destruct (gradient_stays_in_range 7 3) as (r & g & b & _ & Hr & Hg & Hb & Him);
    [lia | unfold INT_MAX; lia |].
  destruct Him as (im & E & Hrow); [dim_bound|].
  exists im, r, g, b. split; [exact E|]. split; [exact Hrow|].
  split; [exact Hr|]. split; [exact Hg | exact Hb].
Defined.
